(** * Image-source shoebox room simulator (saf_reverb_internal.c)

    A shallow embedding of the core of the IMS shoebox simulator of the
    Spatial Audio Framework: echogram containers, the lattice generator
    [ims_shoebox_coreInit], the receiver directivity encoder
    [ims_shoebox_coreRecModuleSH], the absorption module
    [ims_shoebox_coreAbsorptionModule] and the renderer
    [ims_shoebox_renderRIR].  Arrays are lists updated by index, loops are
    folds over the loop counter, and the workspace is threaded through
    the calls.

    C [float] values are kept abstract behind the interface [FloatOps]
    (arithmetic, comparisons, conversions) and [MathOps] (<math.h>), so
    that every statement holds for any arithmetic; the laws a proof
    relies on are named hypotheses, or the laws of [FiniteArithmetic],
    which are proved for binary32 from the definitions of [SpecFloat].
    Two instances are given: IEEE-754 binary32 (on the Standard
    Library's [SpecFloat], round to nearest even), on which the code is
    evaluated, and exact rational arithmetic.

    C [int] values are modelled by [Z]; signed overflow and out-of-range
    float-to-int conversions are undefined in C and are not modelled. *)

From Stdlib Require Import ZArith QArith Qround Qpower Lqa Lia Bool.
From Stdlib Require Import Floats.SpecFloat.
From stdpp Require Import base list sorting.

Local Open Scope Z_scope.

(** ** The floating-point interface *)

(** Arithmetic, comparison and conversion operators of C on [float]. *)
Class FloatOps (F : Type) := {
  fadd : F → F → F;          (* x + y *)
  fsub : F → F → F;          (* x - y *)
  fmul : F → F → F;          (* x * y *)
  fdiv : F → F → F;          (* x / y *)
  feq : F → F → bool;        (* x == y *)
  flt : F → F → bool;        (* x < y *)
  fle : F → F → bool;        (* x <= y *)
  of_int : Z → F;            (* (float)n *)
  to_int : F → Z;            (* (int)x : truncation toward zero *)
  f_half : F;                (* the literal 0.5f *)
}.

(** The functions of <math.h> the simulator calls. *)
Class MathOps (F : Type) := {
  sqrtf : F → F;
  powf : F → F → F;
  ceilf : F → F;
  floorf : F → F;
}.

Definition fne `{FloatOps F} (a b : F) : bool := negb (feq a b).  (* a != b *)

(** What a read finds in storage that [malloc1d]/[realloc1d] returned and
    nothing has written yet, or past the end of an array.  C leaves both
    indeterminate; every statement below holds whichever values are
    chosen here. *)
Class Indeterminate (F : Type) := {
  indet_float : F;
  indet_int : Z;
}.

(** ** IEEE-754 binary32 *)

Module Binary32.

Definition prec : Z := 24.
Definition emax : Z := 128.

Definition float32 : Type := spec_float.

Definition of_Z (n : Z) : float32 := binary_normalize prec emax n 0 false.

(** Magnitude of [m * 2^e], rounded toward zero. *)
Definition trunc_mag (m : positive) (e : Z) : Z :=
  match e with
  | Z0 => Zpos m
  | Zpos _ => Z.shiftl (Zpos m) e
  | Zneg p => Z.shiftr (Zpos m) (Zpos p)
  end.

(** [(int)a]: the integer part; of a NaN or an infinity it is undefined
    in C, 0 here. *)
Definition to_Z (a : float32) : Z :=
  match a with
  | S754_finite s m e => if s then - trunc_mag m e else trunc_mag m e
  | _ => 0
  end.

(** [floor (m * 2^e)] for a signed mantissa. *)
Definition floor_Z (s : bool) (m : positive) (e : Z) : Z :=
  let n := if s then Zneg m else Zpos m in
  match e with
  | Z0 => n
  | Zpos _ => Z.shiftl n e
  | Zneg p => Z.shiftr n (Zpos p)
  end.

Definition of_Z_signed (s : bool) (n : Z) : float32 :=
  match n with
  | Z0 => S754_zero s
  | _ => of_Z n
  end.

Definition floor32 (a : float32) : float32 :=
  match a with
  | S754_finite s m e =>
      if 0 <=? e then a else of_Z_signed s (floor_Z s m e)
  | _ => a
  end.

Definition ceil32 (a : float32) : float32 :=
  match a with
  | S754_finite s m e =>
      if 0 <=? e then a else of_Z_signed s (- floor_Z (negb s) m e)
  | _ => a
  end.

Definition one : float32 := of_Z 1.

Definition is_integral (a : float32) : bool :=
  match a with
  | S754_zero _ => true
  | S754_finite s m e => SFeqb (floor32 a) a
  | _ => false
  end.

Fixpoint pow_nat (a : float32) (n : nat) : float32 :=
  match n with
  | O => one
  | S O => a
  | S n' => SFmul prec emax a (pow_nat a n')
  end.

(** [powf] of the C library, on the arguments the simulator passes:
    exponents with an integral value.  As Annex F of C99 requires,
    [powf(1, y)] and [powf(x, 0)] are 1 for every [x] and [y], NaN
    included; an integral power is the repeated product (exact for the
    bases 1 and -1, correctly rounded for a square).  Other exponents
    are outside the model and give NaN. *)
Definition pow32 (a b : float32) : float32 :=
  if SFeqb a one then one
  else if SFeqb b (S754_zero false) then one
  else if is_integral b then
    let n := to_Z b in
    if 0 <=? n then pow_nat a (Z.to_nat n)
    else SFdiv prec emax one (pow_nat a (Z.to_nat (- n)))
  else S754_nan.

#[export] Instance float32_ops : FloatOps float32 := {
  fadd := SFadd prec emax;
  fsub := SFsub prec emax;
  fmul := SFmul prec emax;
  fdiv := SFdiv prec emax;
  feq := SFeqb;
  flt := SFltb;
  fle := SFleb;
  of_int := of_Z;
  to_int := to_Z;
  f_half := S754_finite false 8388608 (-24);
}.

#[export] Instance float32_math : MathOps float32 := {
  sqrtf := SFsqrt prec emax;
  powf := pow32;
  ceilf := ceil32;
  floorf := floor32;
}.

#[export] Instance float32_indet : Indeterminate float32 :=
  {| indet_float := S754_nan; indet_int := 0 |}.

(** *** Values and rounding

    The rational number behind a [float], and rounding to nearest even
    written on integers; the proofs below show that this is what
    [SFmul] and [SFadd] compute. *)

(** A zero or a finite number: neither an infinity nor a NaN. *)
Definition is_finite (a : float32) : bool :=
  match a with
  | S754_zero _ | S754_finite _ _ _ => true
  | _ => false
  end.

(** The number a finite [float] stands for. *)
Definition B2Q (a : float32) : Q :=
  match a with
  | S754_finite s m e =>
      let v := (inject_Z (Zpos m) * 2 ^ e)%Q in if s then (- v)%Q else v
  | _ => 0%Q
  end.

(** A finite number as the format stores it: a mantissa of at most 24
    bits with the exponent the format gives it, not above 2^128. *)
Definition proper32 (a : float32) : Prop :=
  is_finite a = true ∧ valid_binary prec emax a = true.

Definition properb (a : float32) : bool :=
  is_finite a && valid_binary prec emax a.

(** A zero or a positive number. *)
Definition nonneg (a : float32) : bool :=
  match a with
  | S754_zero _ | S754_finite false _ _ => true
  | _ => false
  end.

Definition expo (a : float32) : Z :=
  match a with S754_finite _ _ e => e | _ => 0 end.

(** The exponent of a finite number is not below [c]. *)
Definition exp_ge (c : Z) (a : float32) : Prop :=
  match a with
  | S754_finite _ _ e => c ≤ e
  | _ => True
  end.

(** A number that is not negative, in units of [2^c]. *)
Definition units (c : Z) (a : float32) : Z :=
  match a with
  | S754_finite false m e => Zpos m * 2 ^ (e - c)
  | _ => 0
  end.

(** Round to nearest, ties to even, of the quotient [N / P]. *)
Definition rne (N P : Z) : Z :=
  let q := N / P in
  match 2 * (N mod P) ?= P with
  | Lt => q
  | Gt => q + 1
  | Eq => if Z.even q then q else q + 1
  end.

(** Where a remainder [r] of a division by [P] lies between 0 and [P]. *)
Definition loc_of_rem (r P : Z) : location :=
  if r =? 0 then loc_Exact else loc_Inexact (2 * r ?= P).

(** The exponent of the grid on which a number of [N] units of [2^c] is
    rounded, counted from [c]; 0 when the grid is finer than the units. *)
Definition grid (c N : Z) : Z := Z.max 0 (fexp prec emax (Zdigits2 N + c) - c).

(** [N] units of [2^c], rounded to the format: the result in the same
    units. *)
Definition round_at (c N : Z) : Z := rne N (2 ^ grid c N) * 2 ^ grid c N.

End Binary32.

(** The rational numbers behind the values of an arithmetic, and the
    laws of correct rounding on them.  [finite] holds of the values
    that stand for a number, [proper] of those among them that are
    stored as the format prescribes (every finite array cell and
    constant is; the result of an operation is only needed finite).
    Comparison is the order of the values; rounded products and sums
    keep the order of the exact ones as long as they do not overflow;
    [(int)] is the floor of a value that is not negative.  Both
    binary32 and the rationals are instances. *)
Class FiniteArithmetic (F : Type) `{FloatOps F} := {
  val : F → Q;
  finite : F → Prop;
  proper : F → Prop;
  proper_zero : proper (of_int 0) ∧ (val (of_int 0) == 0)%Q;
  proper_one : proper (of_int 1) ∧ (val (of_int 1) == 1)%Q;
  proper_half : proper f_half ∧ (val f_half == 1 # 2)%Q;
  val_le : ∀ a b : F,
    proper a → proper b → fle a b = true → (val a <= val b)%Q;
  fmul_val : ∀ a b c : F,
    proper a → proper b → proper c →
    (0 <= val a)%Q → (val a <= val b)%Q → (0 <= val c)%Q →
    finite (fmul a c) → finite (fmul b c) →
    (0 <= val (fmul a c))%Q ∧ (val (fmul a c) <= val (fmul b c))%Q;
  fadd_val : ∀ x y c d : F,
    finite x → finite y → proper c → proper d →
    (0 <= val x)%Q → (val x <= val y)%Q → (0 < val c)%Q → (val c <= val d)%Q →
    finite (fadd x c) → finite (fadd y d) →
    (0 <= val (fadd x c))%Q ∧ (val (fadd x c) <= val (fadd y d))%Q;
  fadd_finite : ∀ x c : F, proper c → finite (fadd x c) → finite x;
  to_int_val : ∀ a : F, finite a → (0 <= val a)%Q → to_int a = Qfloor (val a);
}.

(** ** Exact arithmetic on the rationals *)

Module Exact.

(** [(int)a]: the integer part. *)
Definition truncate (a : Q) : Z :=
  if Qle_bool 0 a then Qfloor a else Qceiling a.

#[export] Instance Q_ops : FloatOps Q := {
  fadd := Qplus;
  fsub := Qminus;
  fmul := Qmult;
  fdiv := Qdiv;
  feq := Qeq_bool;
  flt := λ a b, negb (Qle_bool b a);
  fle := Qle_bool;
  of_int := inject_Z;
  to_int := truncate;
  f_half := (1 # 2)%Q;
}.

#[export] Instance Q_indet : Indeterminate Q :=
  {| indet_float := 0%Q; indet_int := 0 |}.

End Exact.

(** ** Storage *)

(** [realloc1d(ptr, n * sizeof(T))]: the first [n] cells are kept, new
    cells are indeterminate. *)
Definition realloc1d {A} (junk : A) (ptr : list A) (n : Z) : list A :=
  resize (Z.to_nat n) junk ptr.

(** Modelled from the spec: [realloc2d] (saf_utilities) is not among the
    sources at hand; containers are "resized in place", here row by row,
    to [dim1] rows of [dim2] cells. *)
Definition realloc2d {A} (junk : A) (ptr : list (list A)) (dim1 dim2 : Z)
  : list (list A) :=
  resize (Z.to_nat dim1) (replicate (Z.to_nat dim2) junk)
         (map (λ row, resize (Z.to_nat dim2) junk row) ptr).

(** [memcpy(dst, src, n * sizeof(T))] on arrays of [T]. *)
Definition memcpy {A} (dst src : list A) (n : Z) : list A :=
  take (Z.to_nat n) src ++ drop (Z.to_nat n) dst.

(** [for (i = 0; i < n; i++) body], threading the state the body updates. *)
Definition for_loop {St} (n : nat) (body : nat → St → St) (s : St) : St :=
  foldl (λ s i, body i s) s (seq 0 n).

(** ** Data model *)

(** [ims_pos_xyz]: a union of [struct { float x, y, z; }] and [float v[3]]. *)
Record ims_pos_xyz (F : Type) := Pos {
  pos_x : F;
  pos_y : F;
  pos_z : F;
}.
Arguments Pos {F}.
Arguments pos_x {F}.
Arguments pos_y {F}.
Arguments pos_z {F}.

Definition pos_v {F} (p : ims_pos_xyz F) (j : nat) : F :=
  match j with
  | O => pos_x p
  | S O => pos_y p
  | _ => pos_z p
  end.

Definition pos_set_v {F} (p : ims_pos_xyz F) (j : nat) (a : F) : ims_pos_xyz F :=
  match j with
  | O => Pos a (pos_y p) (pos_z p)
  | S O => Pos (pos_x p) a (pos_z p)
  | _ => Pos (pos_x p) (pos_y p) a
  end.

(** [int v[3]]: the room dimensions and a row of [echogram->order]. *)
Record int3 := Int3 {
  int3_0 : Z;
  int3_1 : Z;
  int3_2 : Z;
}.

Definition int3_get (v : int3) (j : nat) : Z :=
  match j with
  | O => int3_0 v
  | S O => int3_1 v
  | _ => int3_2 v
  end.

Definition int3_set (v : int3) (j : nat) (a : Z) : int3 :=
  match j with
  | O => Int3 a (int3_1 v) (int3_2 v)
  | S O => Int3 (int3_0 v) a (int3_2 v)
  | _ => Int3 (int3_0 v) (int3_1 v) a
  end.

Definition int3_eqb (a b : int3) : bool :=
  (int3_0 a =? int3_0 b) && (int3_1 a =? int3_1 b) && (int3_2 a =? int3_2 b).

(** [echogram_data] *)
Record echogram_data (F : Type) := Echogram {
  ec_numImageSources : Z;
  ec_nChannels : Z;
  ec_value : list (list F);          (* numImageSources x nChannels *)
  ec_time : list F;                  (* numImageSources x 1 *)
  ec_order : list int3;              (* numImageSources x 3 *)
  ec_coords : list (ims_pos_xyz F);  (* numImageSources x 1 *)
  ec_sortedIdx : list Z;             (* numImageSources x 1 *)
}.
Arguments Echogram {F}.
Arguments ec_numImageSources {F}.
Arguments ec_nChannels {F}.
Arguments ec_value {F}.
Arguments ec_time {F}.
Arguments ec_order {F}.
Arguments ec_coords {F}.
Arguments ec_sortedIdx {F}.

(** [ims_core_workspace] *)
Record ims_core_workspace (F : Type) := Workspace {
  wrk_d_max : F;
  wrk_lengthVec : Z;
  wrk_numImageSources : Z;
  wrk_room : int3;
  wrk_Nx : Z;
  wrk_Ny : Z;
  wrk_Nz : Z;
  wrk_src : ims_pos_xyz F;
  wrk_rec : ims_pos_xyz F;
  wrk_nBands : Z;
  wrk_validIDs : list Z;
  wrk_II : list F;
  wrk_JJ : list F;
  wrk_KK : list F;
  wrk_s_x : list F;
  wrk_s_y : list F;
  wrk_s_z : list F;
  wrk_s_d : list F;
  wrk_s_t : list F;
  wrk_s_att : list F;
  wrk_refreshEchogramFLAG : Z;
  wrk_hEchogram : echogram_data F;
  wrk_hEchogram_rec : echogram_data F;
  wrk_hEchogram_abs : list (echogram_data F);
  wrk_refreshRIRFLAG : Z;
  wrk_rir_len_samples : Z;
  wrk_rir_len_seconds : F;
  wrk_rir_bands : list (list (list F));   (* nBands x nChannels x rir_len_samples *)
}.
Arguments Workspace {F}.
Arguments wrk_d_max {F}.
Arguments wrk_lengthVec {F}.
Arguments wrk_numImageSources {F}.
Arguments wrk_room {F}.
Arguments wrk_Nx {F}.
Arguments wrk_Ny {F}.
Arguments wrk_Nz {F}.
Arguments wrk_src {F}.
Arguments wrk_rec {F}.
Arguments wrk_nBands {F}.
Arguments wrk_validIDs {F}.
Arguments wrk_II {F}.
Arguments wrk_JJ {F}.
Arguments wrk_KK {F}.
Arguments wrk_s_x {F}.
Arguments wrk_s_y {F}.
Arguments wrk_s_z {F}.
Arguments wrk_s_d {F}.
Arguments wrk_s_t {F}.
Arguments wrk_s_att {F}.
Arguments wrk_refreshEchogramFLAG {F}.
Arguments wrk_hEchogram {F}.
Arguments wrk_hEchogram_rec {F}.
Arguments wrk_hEchogram_abs {F}.
Arguments wrk_refreshRIRFLAG {F}.
Arguments wrk_rir_len_samples {F}.
Arguments wrk_rir_len_seconds {F}.
Arguments wrk_rir_bands {F}.

(** [a[i]] and [a[i] = v] for an index held in a C [int]; an index outside
    the array is undefined behaviour in C: the read is indeterminate and
    the write is dropped. *)
Definition at_int {A} `{Inhabited A} (a : list A) (i : Z) : A :=
  if i <? 0 then inhabitant else a !!! Z.to_nat i.

Definition set_int {A} (a : list A) (i : Z) (v : A) : list A :=
  if i <? 0 then a else <[Z.to_nat i := v]> a.

(** [ims_rir] *)
Record ims_rir (F : Type) := Rir {
  rir_data : list F;      (* FLAT: nChannels x length *)
  rir_length : Z;
  rir_nChannels : Z;
}.
Arguments Rir {F}.
Arguments rir_data {F}.
Arguments rir_length {F}.
Arguments rir_nChannels {F}.

(** The collaborators of the simulator in saf_sh and saf_utilities, which
    are not among the sources at hand, taken as parameters. *)
Class Collaborators (F : Type) := {
  SAF_PI : F;
  (* unit Cartesian vector to (azimuth, elevation), in radians *)
  unitCart2Sph : ims_pos_xyz F → F * F;
  (* real spherical harmonics up to an order at (azimuth, inclination) *)
  getSHreal_recur : Z → F * F → list F;
  IMS_FIR_FILTERBANK_ORDER : Z;
  (* fftconv(x, h, x_len, h_len, nCH): the linear convolution *)
  fftconv : list F → list F → Z → Z → Z → list F;
}.

(** ** The simulator *)

Section Model.
Context {F : Type} `{FloatOps F} `{MathOps F} `{Indeterminate F} `{Collaborators F}.

Definition indet_pos : ims_pos_xyz F := Pos indet_float indet_float indet_float.
Definition indet_int3 : int3 := Int3 indet_int indet_int indet_int.

#[local] Instance float_inhabited : Inhabited F := populate indet_float.
#[local] Instance pos_inhabited : Inhabited (ims_pos_xyz F) := populate indet_pos.
#[local] Instance int3_inhabited : Inhabited int3 := populate indet_int3.

(** *** Echogram containers *)

Definition ims_shoebox_echogramCreate : echogram_data F :=
  Echogram 0 0 [] [] [] [] [].

Definition ims_shoebox_echogramResize
    (ec : echogram_data F) (numImageSources nChannels : Z) : echogram_data F :=
  if negb (ec_nChannels ec =? nChannels)
     || negb (ec_numImageSources ec =? numImageSources)
  then
    Echogram numImageSources nChannels
      (realloc2d indet_float (ec_value ec) numImageSources nChannels)
      (realloc1d indet_float (ec_time ec) numImageSources)
      (realloc1d indet_int3 (ec_order ec) numImageSources)
      (realloc1d indet_pos (ec_coords ec) numImageSources)
      (realloc1d indet_int (ec_sortedIdx ec) numImageSources)
  else ec.

#[local] Instance echogram_inhabited : Inhabited (echogram_data F) :=
  populate ims_shoebox_echogramCreate.

(** *** Workspace *)

Definition ims_shoebox_coreWorkspaceCreate (nBands : Z) : ims_core_workspace F :=
  {| wrk_d_max := of_int 0;
     wrk_lengthVec := 0;
     wrk_numImageSources := 0;
     wrk_room := Int3 0 0 0;
     wrk_Nx := indet_int;
     wrk_Ny := indet_int;
     wrk_Nz := indet_int;
     (* outside the room (forces reinit) *)
     wrk_src := Pos (of_int (-1)) (of_int (-1)) (of_int (-1));
     wrk_rec := Pos (of_int (-1)) (of_int (-1)) (of_int (-1));
     wrk_nBands := nBands;
     wrk_validIDs := [];
     wrk_II := []; wrk_JJ := []; wrk_KK := [];
     wrk_s_x := []; wrk_s_y := []; wrk_s_z := []; wrk_s_d := [];
     wrk_s_t := []; wrk_s_att := [];
     wrk_refreshEchogramFLAG := 1;
     wrk_hEchogram := ims_shoebox_echogramCreate;
     wrk_hEchogram_rec := ims_shoebox_echogramCreate;
     wrk_hEchogram_abs := replicate (Z.to_nat nBands) ims_shoebox_echogramCreate;
     wrk_refreshRIRFLAG := 1;
     wrk_rir_len_samples := 0;
     wrk_rir_len_seconds := of_int 0;
     wrk_rir_bands := replicate (Z.to_nat nBands) [] |}.

(** *** ims_shoebox_coreInit *)

(** Modelled from the spec: [sortf] (saf_utilities) is not among the
    sources at hand.  [sortf(in_vec, NULL, new_idices, len, descendFLAG)]
    leaves [in_vec] as it is and returns in [new_idices] "the permutation
    sorting [time] ascending" (descending when the flag is set), as the
    unit test [test__sortf] reads it back; here by insertion, keeping
    the enumeration order among equal keys. *)
Fixpoint sortf_insert (before : F → F → bool) (in_vec : list F)
    (i : nat) (sorted : list nat) : list nat :=
  match sorted with
  | [] => [i]
  | j :: rest =>
      if before (in_vec !!! i) (in_vec !!! j) then i :: j :: rest
      else j :: sortf_insert before in_vec i rest
  end.

Definition sortf_data (before : F → F → bool) (in_vec : list F) (len : nat) : list nat :=
  foldr (sortf_insert before in_vec) [] (seq 0 len).

(** Index [i] may stand before index [j]. *)
Definition key_le (before : F → F → bool) (in_vec : list F) (i j : nat) : Prop :=
  before (in_vec !!! i) (in_vec !!! j) = true.

Definition sortf (in_vec : list F) (new_idices : list Z) (len : Z)
    (descendFLAG : Z) : list Z :=
  let before := if descendFLAG =? 0 then fle else (λ a b, fle b a) in
  map Z.of_nat (sortf_data before in_vec (Z.to_nat len))
  ++ drop (Z.to_nat len) new_idices.

(** Lines 201-203: has the maximum distance or the room changed? *)
Definition indices_changed (wrk : ims_core_workspace F) (room : int3) (d_max : F) : bool :=
  fne (wrk_d_max wrk) d_max
  || negb (int3_0 (wrk_room wrk) =? int3_0 room)
  || negb (int3_1 (wrk_room wrk) =? int3_1 room)
  || negb (int3_2 (wrk_room wrk) =? int3_2 room).

(** Lines 217-233: one turn of the odometer. *)
Definition indices_body (Nx Ny Nz : Z) (imsrc : nat)
    (st : Z * Z * Z * (list F * list F * list F))
  : Z * Z * Z * (list F * list F * list F) :=
  let '(ii, jj, kk, (II, JJ, KK)) := st in
  let II := <[imsrc := of_int ii]> II in
  let JJ := <[imsrc := of_int jj]> JJ in
  let KK := <[imsrc := of_int kk]> KK in
  let ii := ii + 1 in
  let '(ii, jj) := if Nx <? ii then (- Nx, jj + 1) else (ii, jj) in
  let '(jj, kk) := if Ny <? jj then (- Ny, kk + 1) else (jj, kk) in
  let kk := if Nz <? kk then - Nz else kk in
  (ii, jj, kk, (II, JJ, KK)).

(** Lines 204-243. *)
Definition update_indices (wrk : ims_core_workspace F) (room : int3) (d_max : F)
  : ims_core_workspace F :=
  let Nx := to_int (fadd (fdiv d_max (of_int (int3_0 room))) (of_int 1)) in (* ceil *)
  let Ny := to_int (fadd (fdiv d_max (of_int (int3_1 room))) (of_int 1)) in (* ceil *)
  let Nz := to_int (fadd (fdiv d_max (of_int (int3_2 room))) (of_int 1)) in (* ceil *)
  let lengthVec := (2 * Nx + 1) * (2 * Ny + 1) * (2 * Nz + 1) in
  let II := realloc1d indet_float (wrk_II wrk) lengthVec in
  let JJ := realloc1d indet_float (wrk_JJ wrk) lengthVec in
  let KK := realloc1d indet_float (wrk_KK wrk) lengthVec in
  let '(_, _, _, (II, JJ, KK)) :=
    for_loop (Z.to_nat lengthVec) (indices_body Nx Ny Nz)
             (- Nx, - Ny, - Nz, (II, JJ, KK)) in
  {| wrk_d_max := d_max;
     wrk_lengthVec := lengthVec;
     wrk_numImageSources := wrk_numImageSources wrk;
     wrk_room := room;
     wrk_Nx := Nx; wrk_Ny := Ny; wrk_Nz := Nz;
     wrk_src := wrk_src wrk;
     wrk_rec := wrk_rec wrk;
     wrk_nBands := wrk_nBands wrk;
     wrk_validIDs := realloc1d indet_int (wrk_validIDs wrk) lengthVec;
     wrk_II := II; wrk_JJ := JJ; wrk_KK := KK;
     wrk_s_x := realloc1d indet_float (wrk_s_x wrk) lengthVec;
     wrk_s_y := realloc1d indet_float (wrk_s_y wrk) lengthVec;
     wrk_s_z := realloc1d indet_float (wrk_s_z wrk) lengthVec;
     wrk_s_d := realloc1d indet_float (wrk_s_d wrk) lengthVec;
     wrk_s_t := realloc1d indet_float (wrk_s_t wrk) lengthVec;
     wrk_s_att := realloc1d indet_float (wrk_s_att wrk) lengthVec;
     wrk_refreshEchogramFLAG := wrk_refreshEchogramFLAG wrk;
     wrk_hEchogram := wrk_hEchogram wrk;
     wrk_hEchogram_rec := wrk_hEchogram_rec wrk;
     wrk_hEchogram_abs := wrk_hEchogram_abs wrk;
     wrk_refreshRIRFLAG := wrk_refreshRIRFLAG wrk;
     wrk_rir_len_samples := wrk_rir_len_samples wrk;
     wrk_rir_len_seconds := wrk_rir_len_seconds wrk;
     wrk_rir_bands := wrk_rir_bands wrk |}.

(** Lines 246-248: have the centred positions or the room changed? *)
Definition echogram_changed (wrk : ims_core_workspace F) (room : int3)
    (src_orig rec_orig : ims_pos_xyz F) : bool :=
  fne (pos_x (wrk_rec wrk)) (pos_x rec_orig)
  || fne (pos_y (wrk_rec wrk)) (pos_y rec_orig)
  || fne (pos_z (wrk_rec wrk)) (pos_z rec_orig)
  || fne (pos_x (wrk_src wrk)) (pos_x src_orig)
  || fne (pos_y (wrk_src wrk)) (pos_y src_orig)
  || fne (pos_z (wrk_src wrk)) (pos_z src_orig)
  || negb (int3_0 (wrk_room wrk) =? int3_0 room)
  || negb (int3_1 (wrk_room wrk) =? int3_1 room)
  || negb (int3_2 (wrk_room wrk) =? int3_2 room).

(** The right-hand sides of lines 256-258 and of line 259. *)
Definition image_coord (L : Z) (idx src_c rec_c : F) : F :=
  fsub (fadd (fmul idx (of_int L)) (fmul (powf (of_int (-1)) idx) src_c)) rec_c.

Definition image_dist (sx sy sz : F) : F :=
  sqrtf (fadd (fadd (powf sx (of_int 2)) (powf sy (of_int 2))) (powf sz (of_int 2))).

(** Lines 255-260. *)
Definition coords_body (II JJ KK : list F) (room : int3)
    (src_orig rec_orig : ims_pos_xyz F) (imsrc : nat)
    (st : list F * list F * list F * list F)
  : list F * list F * list F * list F :=
  let '(s_x, s_y, s_z, s_d) := st in
  let s_x := <[imsrc := image_coord (int3_0 room) (II !!! imsrc)
                          (pos_x src_orig) (pos_x rec_orig)]> s_x in
  let s_y := <[imsrc := image_coord (int3_1 room) (JJ !!! imsrc)
                          (pos_y src_orig) (pos_y rec_orig)]> s_y in
  let s_z := <[imsrc := image_coord (int3_2 room) (KK !!! imsrc)
                          (pos_z src_orig) (pos_z rec_orig)]> s_z in
  let s_d := <[imsrc := image_dist (s_x !!! imsrc) (s_y !!! imsrc) (s_z !!! imsrc)]> s_d in
  (s_x, s_y, s_z, s_d).

(** Lines 263-270. *)
Definition valid_body (s_d : list F) (d_max : F) (imsrc : nat)
    (st : list Z * Z) : list Z * Z :=
  let '(validIDs, numImageSources) := st in
  if flt (s_d !!! imsrc) d_max
  then (<[imsrc := 1]> validIDs, numImageSources + 1) (* within maximum distance *)
  else (<[imsrc := 0]> validIDs, numImageSources).

(** Lines 276-295. *)
Definition copy_body (validIDs : list Z) (II JJ KK s_x s_y s_z s_d : list F)
    (c_ms : F) (imsrc : nat) (st : nat * echogram_data F)
  : nat * echogram_data F :=
  let '(vIdx, echogram) := st in
  if negb (validIDs !!! imsrc =? 0) then
    (S vIdx,
     Echogram (ec_numImageSources echogram) (ec_nChannels echogram)
       (<[vIdx := <[O := if fle (s_d !!! imsrc) (of_int 1) then of_int 1
                         else fdiv (of_int 1) (s_d !!! imsrc)]>
                    (ec_value echogram !!! vIdx)]> (ec_value echogram))
       (<[vIdx := fdiv (s_d !!! imsrc) c_ms]> (ec_time echogram))
       (<[vIdx := Int3 (to_int (fadd (II !!! imsrc) f_half))   (* round *)
                       (to_int (fadd (JJ !!! imsrc) f_half))
                       (to_int (fadd (KK !!! imsrc) f_half))]> (ec_order echogram))
       (<[vIdx := Pos (s_x !!! imsrc) (s_y !!! imsrc) (s_z !!! imsrc)]>
          (ec_coords echogram))
       (ec_sortedIdx echogram))
  else st.

(** Lines 250-298. *)
Definition update_echogram (wrk : ims_core_workspace F) (room : int3)
    (src_orig rec_orig : ims_pos_xyz F) (d_max c_ms : F) : ims_core_workspace F :=
  let n := Z.to_nat (wrk_lengthVec wrk) in
  let '(s_x, s_y, s_z, s_d) :=
    for_loop n (coords_body (wrk_II wrk) (wrk_JJ wrk) (wrk_KK wrk) room src_orig rec_orig)
             (wrk_s_x wrk, wrk_s_y wrk, wrk_s_z wrk, wrk_s_d wrk) in
  let '(validIDs, numImageSources) :=
    for_loop n (valid_body s_d d_max) (wrk_validIDs wrk, 0) in
  let echogram := ims_shoebox_echogramResize (wrk_hEchogram wrk) numImageSources 1 in
  let '(_, echogram) :=
    for_loop n (copy_body validIDs (wrk_II wrk) (wrk_JJ wrk) (wrk_KK wrk) s_x s_y s_z s_d c_ms)
             (O, echogram) in
  let echogram :=
    Echogram (ec_numImageSources echogram) (ec_nChannels echogram)
      (ec_value echogram) (ec_time echogram) (ec_order echogram) (ec_coords echogram)
      (sortf (ec_time echogram) (ec_sortedIdx echogram) (ec_numImageSources echogram) 0) in
  {| wrk_d_max := wrk_d_max wrk;
     wrk_lengthVec := wrk_lengthVec wrk;
     wrk_numImageSources := numImageSources;
     wrk_room := room;
     wrk_Nx := wrk_Nx wrk; wrk_Ny := wrk_Ny wrk; wrk_Nz := wrk_Nz wrk;
     wrk_src := src_orig;
     wrk_rec := rec_orig;
     wrk_nBands := wrk_nBands wrk;
     wrk_validIDs := validIDs;
     wrk_II := wrk_II wrk; wrk_JJ := wrk_JJ wrk; wrk_KK := wrk_KK wrk;
     wrk_s_x := s_x; wrk_s_y := s_y; wrk_s_z := s_z; wrk_s_d := s_d;
     wrk_s_t := wrk_s_t wrk;
     wrk_s_att := wrk_s_att wrk;
     wrk_refreshEchogramFLAG := wrk_refreshEchogramFLAG wrk;
     wrk_hEchogram := echogram;
     wrk_hEchogram_rec := wrk_hEchogram_rec wrk;
     wrk_hEchogram_abs := wrk_hEchogram_abs wrk;
     wrk_refreshRIRFLAG := wrk_refreshRIRFLAG wrk;
     wrk_rir_len_samples := wrk_rir_len_samples wrk;
     wrk_rir_len_seconds := wrk_rir_len_seconds wrk;
     wrk_rir_bands := wrk_rir_bands wrk |}.

(** Lines 191-199: the maximum distance and the centred positions. *)
Definition centre (room : int3) (p : ims_pos_xyz F) : ims_pos_xyz F :=
  Pos (fsub (pos_x p) (fdiv (of_int (int3_0 room)) (of_int 2)))
      (fsub (fdiv (of_int (int3_1 room)) (of_int 2)) (pos_y p))
      (fsub (pos_z p) (fdiv (of_int (int3_2 room)) (of_int 2))).

(** Lines 202-243: the first conditional block. *)
Definition refresh_indices (wrk : ims_core_workspace F) (room : int3) (d_max : F)
  : ims_core_workspace F :=
  if indices_changed wrk room d_max then update_indices wrk room d_max else wrk.

Definition ims_shoebox_coreInit (wrk : ims_core_workspace F) (room : int3)
    (src rec : ims_pos_xyz F) (maxTime_s c_ms : F) : ims_core_workspace F :=
  let d_max := fmul maxTime_s c_ms in
  (* move origin to the centre of the room *)
  let src_orig := centre room src in
  let rec_orig := centre room rec in
  (* Update indices only if the maximum permitted delay or room dimensions have changed *)
  let wrk := refresh_indices wrk room d_max in
  (* Update echogram only if the source/receiver positions or room dimensions have changed *)
  if echogram_changed wrk room src_orig rec_orig
  then update_echogram wrk room src_orig rec_orig d_max c_ms
  else wrk.

(** *** ims_shoebox_coreRecModuleSH *)

(** Modelled from the spec: the macro [ORDER2NSH] (saf_sh.h) is not among
    the sources at hand; a receiver of spherical-harmonic order N has
    (N+1)² channels. *)
Definition ORDER2NSH (order : Z) : Z := (order + 1) * (order + 1).

(** Lines 321-328. *)
Definition rec_copy_body (echogram : echogram_data F) (i : nat)
    (echogram_rec : echogram_data F) : echogram_data F :=
  let k := at_int (ec_sortedIdx echogram) (Z.of_nat i) in
  let time := <[i := at_int (ec_time echogram) k]> (ec_time echogram_rec) in
  let '(order, coords) :=
    for_loop 3
      (λ j '(order, coords),
         (<[i := int3_set (order !!! i) j (int3_get (at_int (ec_order echogram) k) j)]> order,
          <[i := pos_set_v (coords !!! i) j (pos_v (at_int (ec_coords echogram) k) j)]> coords))
      (ec_order echogram_rec, ec_coords echogram_rec) in
  Echogram (ec_numImageSources echogram_rec) (ec_nChannels echogram_rec)
    (ec_value echogram_rec) time order coords
    (<[i := Z.of_nat i]> (ec_sortedIdx echogram_rec)).

(** Lines 332-333. *)
Definition rec_omni_body (echogram : echogram_data F) (i : nat)
    (value : list (list F)) : list (list F) :=
  let k := at_int (ec_sortedIdx echogram) (Z.of_nat i) in
  <[i := <[O := at_int (ec_value echogram) k !!! O]> (value !!! i)]> value.

(** Lines 338-347. *)
Definition rec_sh_body (echogram : echogram_data F) (coords : list (ims_pos_xyz F))
    (sh_order nSH : Z) (i : nat) (value : list (list F)) : list (list F) :=
  let k := at_int (ec_sortedIdx echogram) (Z.of_nat i) in
  (* Cartesian coordinates to spherical coordinates *)
  let '(azi, elev) := unitCart2Sph (coords !!! i) in
  (* AziElev to AziInclination conversion *)
  let aziElev_rad := (azi, fsub (fdiv SAF_PI (of_int 2)) elev) in
  (* Apply spherical harmonic weights *)
  let sh_gains := getSHreal_recur sh_order aziElev_rad in
  for_loop (Z.to_nat nSH)
    (λ j value,
       <[i := <[j := fmul (sh_gains !!! j) (at_int (ec_value echogram) k !!! O)]>
                (value !!! i)]> value)
    value.

Definition ims_shoebox_coreRecModuleSH (wrk : ims_core_workspace F) (sh_order : Z)
  : ims_core_workspace F :=
  let echogram := wrk_hEchogram wrk in
  let nSH := ORDER2NSH sh_order in
  (* Resize container (only done if needed) *)
  let echogram_rec :=
    ims_shoebox_echogramResize (wrk_hEchogram_rec wrk) (ec_numImageSources echogram) nSH in
  let n := Z.to_nat (ec_numImageSources echogram_rec) in
  (* Copy 'time', 'coord', 'order', except in accending order w.r.t propogation time *)
  let echogram_rec := for_loop n (rec_copy_body echogram) echogram_rec in
  let value :=
    if sh_order =? 0
    then for_loop n (rec_omni_body echogram) (ec_value echogram_rec)
    else for_loop n (rec_sh_body echogram (ec_coords echogram_rec) sh_order nSH)
                  (ec_value echogram_rec) in
  let echogram_rec :=
    Echogram (ec_numImageSources echogram_rec) (ec_nChannels echogram_rec) value
      (ec_time echogram_rec) (ec_order echogram_rec) (ec_coords echogram_rec)
      (ec_sortedIdx echogram_rec) in
  {| wrk_d_max := wrk_d_max wrk;
     wrk_lengthVec := wrk_lengthVec wrk;
     wrk_numImageSources := wrk_numImageSources wrk;
     wrk_room := wrk_room wrk;
     wrk_Nx := wrk_Nx wrk; wrk_Ny := wrk_Ny wrk; wrk_Nz := wrk_Nz wrk;
     wrk_src := wrk_src wrk;
     wrk_rec := wrk_rec wrk;
     wrk_nBands := wrk_nBands wrk;
     wrk_validIDs := wrk_validIDs wrk;
     wrk_II := wrk_II wrk; wrk_JJ := wrk_JJ wrk; wrk_KK := wrk_KK wrk;
     wrk_s_x := wrk_s_x wrk; wrk_s_y := wrk_s_y wrk; wrk_s_z := wrk_s_z wrk;
     wrk_s_d := wrk_s_d wrk;
     wrk_s_t := wrk_s_t wrk;
     wrk_s_att := wrk_s_att wrk;
     wrk_refreshEchogramFLAG := wrk_refreshEchogramFLAG wrk;
     wrk_hEchogram := wrk_hEchogram wrk;
     wrk_hEchogram_rec := echogram_rec;
     wrk_hEchogram_abs := wrk_hEchogram_abs wrk;
     wrk_refreshRIRFLAG := wrk_refreshRIRFLAG wrk;
     wrk_rir_len_samples := wrk_rir_len_samples wrk;
     wrk_rir_len_seconds := wrk_rir_len_seconds wrk;
     wrk_rir_bands := wrk_rir_bands wrk |}.

(** *** ims_shoebox_coreAbsorptionModule *)

(** Modelled from the spec: [utility_svsmul(a, s, len, NULL)]
    (saf_utilities) is not among the sources at hand; it multiplies
    "every channel of that arrival's gain vector by this scalar in
    place". *)
Definition utility_svsmul (a : list F) (s : F) (len : Z) : list F :=
  map (λ v, fmul v s) (take (Z.to_nat len) a) ++ drop (Z.to_nat len) a.

(** Lines 391-396 for the x axis, 399-404 for y and 407-412 for z: the
    attenuation by the two walls across one axis, from the signed
    reflection order [m] on that axis. *)
Definition axis_absorption (r0 r1 : F) (m : Z) : F :=
  if Z.rem m 2 =? 0 then  (* ISEVEN *)
    fmul (powf r0 (fdiv (of_int (Z.abs m)) (of_int 2)))
         (powf r1 (fdiv (of_int (Z.abs m)) (of_int 2)))
  else if 0 <? m then  (* ISODD AND positive *)
    fmul (powf r0 (ceilf (fdiv (of_int m) (of_int 2))))
         (powf r1 (floorf (fdiv (of_int m) (of_int 2))))
  else  (* ISODD AND NEGATIVE *)
    fmul (powf r0 (floorf (fdiv (of_int (Z.abs m)) (of_int 2))))
         (powf r1 (ceilf (fdiv (of_int (Z.abs m)) (of_int 2)))).

(** Lines 390-415: the attenuation of an arrival, from the reflection
    coefficients of the three wall pairs and its reflection orders. *)
Definition total_absorption (r_x r_y r_z : F * F) (order : int3) : F :=
  let abs_x := axis_absorption (fst r_x) (snd r_x) (int3_0 order) in
  let abs_y := axis_absorption (fst r_y) (snd r_y) (int3_1 order) in
  let abs_z := axis_absorption (fst r_z) (snd r_z) (int3_2 order) in
  fmul (fmul abs_x abs_y) abs_z.

(** Lines 389-417. *)
Definition absorption_body (r_x r_y r_z : F * F) (i : nat)
    (echogram_abs : echogram_data F) : echogram_data F :=
  (* Apply Absorption *)
  let s_abs_tot := total_absorption r_x r_y r_z (ec_order echogram_abs !!! i) in
  Echogram (ec_numImageSources echogram_abs) (ec_nChannels echogram_abs)
    (<[i := utility_svsmul (ec_value echogram_abs !!! i) s_abs_tot
                           (ec_nChannels echogram_abs)]> (ec_value echogram_abs))
    (ec_time echogram_abs) (ec_order echogram_abs) (ec_coords echogram_abs)
    (ec_sortedIdx echogram_abs).

(** Lines 380-385: reflection coefficients of a wall pair, from the
    absorption coefficients of the band. *)
Definition reflection_pair (a : list F) (lo hi : nat) : F * F :=
  (sqrtf (fsub (of_int 1) (a !!! lo)), sqrtf (fsub (of_int 1) (a !!! hi))).

(** Lines 366-417: the echogram of one octave band.  The
    two-dimensional arrays are copied row by row. *)
Definition absorption_echogram (echogram_rec : echogram_data F)
    (abs_wall : list (list F)) (band : nat) (echogram_abs : echogram_data F)
  : echogram_data F :=
  (* Resize container (only done if needed) *)
  let echogram_abs :=
    ims_shoebox_echogramResize echogram_abs
      (ec_numImageSources echogram_rec) (ec_nChannels echogram_rec) in
  (* Copy data *)
  let n := ec_numImageSources echogram_abs in
  let echogram_abs :=
    Echogram n (ec_nChannels echogram_abs)
      (memcpy (ec_value echogram_abs) (ec_value echogram_rec) n)
      (memcpy (ec_time echogram_abs) (ec_time echogram_rec) n)
      (memcpy (ec_order echogram_abs) (ec_order echogram_rec) n)
      (memcpy (ec_coords echogram_abs) (ec_coords echogram_rec) n)
      (memcpy (ec_sortedIdx echogram_abs) (ec_sortedIdx echogram_rec) n) in
  (* Reflection coefficients given the absorption coefficients *)
  let a := abs_wall !!! band in
  let r_x := reflection_pair a 0 1 in
  let r_y := reflection_pair a 2 3 in
  let r_z := reflection_pair a 4 5 in
  for_loop (Z.to_nat n) (absorption_body r_x r_y r_z) echogram_abs.

Definition absorption_band (echogram_rec : echogram_data F) (abs_wall : list (list F))
    (band : nat) (hEchogram_abs : list (echogram_data F)) : list (echogram_data F) :=
  <[band := absorption_echogram echogram_rec abs_wall band (hEchogram_abs !!! band)]>
    hEchogram_abs.

Definition set_hEchogram_abs (wrk : ims_core_workspace F)
    (hEchogram_abs : list (echogram_data F)) : ims_core_workspace F :=
  {| wrk_d_max := wrk_d_max wrk;
     wrk_lengthVec := wrk_lengthVec wrk;
     wrk_numImageSources := wrk_numImageSources wrk;
     wrk_room := wrk_room wrk;
     wrk_Nx := wrk_Nx wrk; wrk_Ny := wrk_Ny wrk; wrk_Nz := wrk_Nz wrk;
     wrk_src := wrk_src wrk;
     wrk_rec := wrk_rec wrk;
     wrk_nBands := wrk_nBands wrk;
     wrk_validIDs := wrk_validIDs wrk;
     wrk_II := wrk_II wrk; wrk_JJ := wrk_JJ wrk; wrk_KK := wrk_KK wrk;
     wrk_s_x := wrk_s_x wrk; wrk_s_y := wrk_s_y wrk; wrk_s_z := wrk_s_z wrk;
     wrk_s_d := wrk_s_d wrk;
     wrk_s_t := wrk_s_t wrk;
     wrk_s_att := wrk_s_att wrk;
     wrk_refreshEchogramFLAG := wrk_refreshEchogramFLAG wrk;
     wrk_hEchogram := wrk_hEchogram wrk;
     wrk_hEchogram_rec := wrk_hEchogram_rec wrk;
     wrk_hEchogram_abs := hEchogram_abs;
     wrk_refreshRIRFLAG := wrk_refreshRIRFLAG wrk;
     wrk_rir_len_samples := wrk_rir_len_samples wrk;
     wrk_rir_len_seconds := wrk_rir_len_seconds wrk;
     wrk_rir_bands := wrk_rir_bands wrk |}.

Definition ims_shoebox_coreAbsorptionModule (wrk : ims_core_workspace F)
    (abs_wall : list (list F)) : ims_core_workspace F :=
  set_hEchogram_abs wrk
    (for_loop (Z.to_nat (wrk_nBands wrk))
              (absorption_band (wrk_hEchogram_rec wrk) abs_wall)
              (wrk_hEchogram_abs wrk)).

(** *** ims_shoebox_renderRIR *)

Definition set_rir (wrk : ims_core_workspace F) (rir_len_samples : Z)
    (rir_len_seconds : F) (rir_bands : list (list (list F))) : ims_core_workspace F :=
  {| wrk_d_max := wrk_d_max wrk;
     wrk_lengthVec := wrk_lengthVec wrk;
     wrk_numImageSources := wrk_numImageSources wrk;
     wrk_room := wrk_room wrk;
     wrk_Nx := wrk_Nx wrk; wrk_Ny := wrk_Ny wrk; wrk_Nz := wrk_Nz wrk;
     wrk_src := wrk_src wrk;
     wrk_rec := wrk_rec wrk;
     wrk_nBands := wrk_nBands wrk;
     wrk_validIDs := wrk_validIDs wrk;
     wrk_II := wrk_II wrk; wrk_JJ := wrk_JJ wrk; wrk_KK := wrk_KK wrk;
     wrk_s_x := wrk_s_x wrk; wrk_s_y := wrk_s_y wrk; wrk_s_z := wrk_s_z wrk;
     wrk_s_d := wrk_s_d wrk;
     wrk_s_t := wrk_s_t wrk;
     wrk_s_att := wrk_s_att wrk;
     wrk_refreshEchogramFLAG := wrk_refreshEchogramFLAG wrk;
     wrk_hEchogram := wrk_hEchogram wrk;
     wrk_hEchogram_rec := wrk_hEchogram_rec wrk;
     wrk_hEchogram_abs := wrk_hEchogram_abs wrk;
     wrk_refreshRIRFLAG := wrk_refreshRIRFLAG wrk;
     wrk_rir_len_samples := rir_len_samples;
     wrk_rir_len_seconds := rir_len_seconds;
     wrk_rir_bands := rir_bands |}.

(** Lines 441-442: the last arrival and the length of the impulse train. *)
Definition rir_endtime (echogram_abs : echogram_data F) : F :=
  at_int (ec_time echogram_abs) (ec_numImageSources echogram_abs - 1).

Definition rir_length_of (echogram_abs : echogram_data F) (fs : F) : Z :=
  to_int (fadd (fmul (rir_endtime echogram_abs) fs) (of_int 1)) + 1. (* ceil + 1 *)

(** Line 458: the sample an arrival is added to. *)
Definition refl_index (echogram_abs : echogram_data F) (fs : F) (i : nat) : Z :=
  to_int (fadd (fmul (ec_time echogram_abs !!! i) fs) f_half). (* round *)

(** Lines 457-461. *)
Definition accumulate_body (echogram_abs : echogram_data F) (fs : F) (i : nat)
    (rir_band : list (list F)) : list (list F) :=
  let refl_idx := refl_index echogram_abs fs i in
  for_loop (Z.to_nat (ec_nChannels echogram_abs))
    (λ j rir_band,
       <[j := set_int (rir_band !!! j) refl_idx
                (fadd (at_int (rir_band !!! j) refl_idx)
                      ((ec_value echogram_abs !!! i) !!! j))]> rir_band)
    rir_band.

(** Lines 451-461: the impulse train of one band, in the storage of
    the one rendered before. *)
Definition impulse_train (echogram_abs : echogram_data F) (fs : F)
    (rir_band : list (list F)) : list (list F) :=
  (* Resize RIR vector, then flush *)
  let rir_band :=
    realloc2d indet_float rir_band
              (ec_nChannels echogram_abs) (rir_length_of echogram_abs fs) in
  let rir_band := map (map (λ _, of_int 0)) rir_band in
  (* Accumulate 'values' for each image source *)
  for_loop (Z.to_nat (ec_numImageSources echogram_abs))
           (accumulate_body echogram_abs fs) rir_band.

(** Lines 438-462: one octave band. *)
Definition render_band (fractionalDelayFLAG : Z) (fs : F) (band : nat)
    (wrk : ims_core_workspace F) : ims_core_workspace F :=
  let echogram_abs := wrk_hEchogram_abs wrk !!! band in
  (* Determine length of rir *)
  let rir_len_samples := rir_length_of echogram_abs fs in
  let rir_len_seconds := fdiv (of_int rir_len_samples) fs in
  if negb (fractionalDelayFLAG =? 0) then wrk (* TODO: implement *)
  else
    set_rir wrk rir_len_samples rir_len_seconds
      (<[band := impulse_train echogram_abs fs (wrk_rir_bands wrk !!! band)]>
         (wrk_rir_bands wrk)).

(** Modelled from the spec: [utility_svvadd(a, b, len, c)] (saf_utilities)
    is not among the sources at hand; it sums the vectors [a] and [b],
    here onto the [len] cells of [data] from [off] on. *)
Definition utility_svvadd_at (data : list F) (off : Z) (b : list F) (len : Z) : list F :=
  take (Z.to_nat off) data
  ++ zip_with fadd (take (Z.to_nat len) (drop (Z.to_nat off) data)) (take (Z.to_nat len) b)
  ++ drop (Z.to_nat (off + len)) data.

(** Lines 477-487: the filtered band goes to the scratch buffer [temp],
    which is freed at the end; the sum takes the band as rendered. *)
Definition sum_band (wrk : ims_core_workspace F) (H_filt : list (list F)) (band : nat)
    (data : list F) : list F :=
  let echogram_abs := wrk_hEchogram_abs wrk !!! band in
  let len := wrk_rir_len_samples wrk in
  let temp :=
    for_loop (Z.to_nat (ec_nChannels echogram_abs))
      (λ j _, fftconv ((wrk_rir_bands wrk !!! band) !!! j) (H_filt !!! band) len
                      (IMS_FIR_FILTERBANK_ORDER + 1) 1)
      (replicate (Z.to_nat (len + IMS_FIR_FILTERBANK_ORDER)) indet_float) in
  for_loop (Z.to_nat (ec_nChannels echogram_abs))
    (λ i data,
       utility_svvadd_at data (Z.of_nat i * len) ((wrk_rir_bands wrk !!! band) !!! i) len)
    data.

Definition ims_shoebox_renderRIR (wrk : ims_core_workspace F) (fractionalDelayFLAG : Z)
    (fs : F) (H_filt : list (list F)) (rir : ims_rir F)
  : ims_core_workspace F * ims_rir F :=
  (* Render RIR for each octave band *)
  let wrk := for_loop (Z.to_nat (wrk_nBands wrk)) (render_band fractionalDelayFLAG fs) wrk in
  (* Resize rir->data if needed, then flush with 0s *)
  let echogram_abs := wrk_hEchogram_abs wrk !!! O in
  let size := ec_nChannels echogram_abs * wrk_rir_len_samples wrk in
  let rir :=
    if negb (ec_nChannels echogram_abs =? rir_nChannels rir)
       || negb (wrk_rir_len_samples wrk =? rir_length rir)
    then Rir (realloc1d indet_float (rir_data rir) size)
             (wrk_rir_len_samples wrk) (ec_nChannels echogram_abs)
    else rir in
  let data :=
    replicate (Z.to_nat size) (of_int 0) ++ drop (Z.to_nat size) (rir_data rir) in
  (* Apply filterbank to rir_bands and sum them up *)
  let data := for_loop (Z.to_nat (wrk_nBands wrk)) (sum_band wrk H_filt) data in
  (wrk, Rir data (rir_length rir) (rir_nChannels rir)).

(** *** The points of the lattice

    The indices of point [n] when the odometer of lines 216-233 starts at
    (-Nx, -Ny, -Nz), [i] running fastest. *)
Definition lattice_i (Nx : Z) (n : Z) : Z := - Nx + n mod (2 * Nx + 1).

Definition lattice_j (Nx Ny : Z) (n : Z) : Z :=
  - Ny + (n / (2 * Nx + 1)) mod (2 * Ny + 1).

Definition lattice_k (Nx Ny Nz : Z) (n : Z) : Z :=
  - Nz + (n / (2 * Nx + 1) / (2 * Ny + 1)) mod (2 * Nz + 1).

(** *** The image sources of the lattice

    The image source of lattice point [imsrc], as lines 256-259 compute
    it from the stored indices and the centred positions. *)
Definition image_x (wrk : ims_core_workspace F) (room : int3)
    (src_orig rec_orig : ims_pos_xyz F) (imsrc : nat) : F :=
  image_coord (int3_0 room) (wrk_II wrk !!! imsrc) (pos_x src_orig) (pos_x rec_orig).

Definition image_y (wrk : ims_core_workspace F) (room : int3)
    (src_orig rec_orig : ims_pos_xyz F) (imsrc : nat) : F :=
  image_coord (int3_1 room) (wrk_JJ wrk !!! imsrc) (pos_y src_orig) (pos_y rec_orig).

Definition image_z (wrk : ims_core_workspace F) (room : int3)
    (src_orig rec_orig : ims_pos_xyz F) (imsrc : nat) : F :=
  image_coord (int3_2 room) (wrk_KK wrk !!! imsrc) (pos_z src_orig) (pos_z rec_orig).

Definition image_d (wrk : ims_core_workspace F) (room : int3)
    (src_orig rec_orig : ims_pos_xyz F) (imsrc : nat) : F :=
  image_dist (image_x wrk room src_orig rec_orig imsrc)
             (image_y wrk room src_orig rec_orig imsrc)
             (image_z wrk room src_orig rec_orig imsrc).

(** The lattice points closer than [d_max], in enumeration order. *)
Definition valid_points (wrk : ims_core_workspace F) (room : int3)
    (src_orig rec_orig : ims_pos_xyz F) (d_max : F) : list nat :=
  List.filter (λ imsrc, flt (image_d wrk room src_orig rec_orig imsrc) d_max)
              (seq 0 (Z.to_nat (wrk_lengthVec wrk))).

(** Lines 278-292: what an arrival stores. *)
Definition arrival_gain (d : F) : F :=
  if fle d (of_int 1) then of_int 1 else fdiv (of_int 1) d.

Definition arrival_order (i j k : F) : int3 :=
  Int3 (to_int (fadd i f_half)) (to_int (fadd j f_half)) (to_int (fadd k f_half)).

End Model.

(** ** Well-formed states *)

Section WellFormed.
Context {F : Type}.

(** The arrays of an echogram have the sizes [ims_shoebox_echogramResize]
    gave them. *)
Record echogram_wf (ec : echogram_data F) : Prop := {
  ewf_n : 0 ≤ ec_numImageSources ec;
  ewf_c : 0 ≤ ec_nChannels ec;
  ewf_value : length (ec_value ec) = Z.to_nat (ec_numImageSources ec);
  ewf_rows : Forall (λ row, length row = Z.to_nat (ec_nChannels ec)) (ec_value ec);
  ewf_time : length (ec_time ec) = Z.to_nat (ec_numImageSources ec);
  ewf_order : length (ec_order ec) = Z.to_nat (ec_numImageSources ec);
  ewf_coords : length (ec_coords ec) = Z.to_nat (ec_numImageSources ec);
  ewf_sortedIdx : length (ec_sortedIdx ec) = Z.to_nat (ec_numImageSources ec);
}.

(** The lattice arrays have [lengthVec] cells. *)
Record lattice_wf (wrk : ims_core_workspace F) : Prop := {
  lwf_validIDs : length (wrk_validIDs wrk) = Z.to_nat (wrk_lengthVec wrk);
  lwf_II : length (wrk_II wrk) = Z.to_nat (wrk_lengthVec wrk);
  lwf_JJ : length (wrk_JJ wrk) = Z.to_nat (wrk_lengthVec wrk);
  lwf_KK : length (wrk_KK wrk) = Z.to_nat (wrk_lengthVec wrk);
  lwf_s_x : length (wrk_s_x wrk) = Z.to_nat (wrk_lengthVec wrk);
  lwf_s_y : length (wrk_s_y wrk) = Z.to_nat (wrk_lengthVec wrk);
  lwf_s_z : length (wrk_s_z wrk) = Z.to_nat (wrk_lengthVec wrk);
  lwf_s_d : length (wrk_s_d wrk) = Z.to_nat (wrk_lengthVec wrk);
}.

(** [echogram_wf], decided. *)
Definition echogram_wfb (ec : echogram_data F) : bool :=
  let n := Z.to_nat (ec_numImageSources ec) in
  (0 <=? ec_numImageSources ec) && (0 <=? ec_nChannels ec)
  && (length (ec_value ec) =? n)%nat
  && forallb (λ row, (length row =? Z.to_nat (ec_nChannels ec))%nat) (ec_value ec)
  && (length (ec_time ec) =? n)%nat && (length (ec_order ec) =? n)%nat
  && (length (ec_coords ec) =? n)%nat && (length (ec_sortedIdx ec) =? n)%nat.

End WellFormed.

(** ** The contents of an array after a loop *)

(** [for (i = 0; i < n; i++) a[i] = f(i)] *)
Definition fill {A} (f : nat → A) (n : nat) (a : list A) : list A :=
  map f (seq 0 n) ++ drop n a.

(** The cells [0 .. length idxs) after a compacting copy: cell [v]
    becomes [g i old] for the [v]-th index [i] of [idxs]. *)
Definition scatter {A B} (g : B → A → A) (idxs : list B) (a : list A) : list A :=
  zip_with g idxs (take (length idxs) a) ++ drop (length idxs) a.

(** ** Read-outs of the loops, and sequences of calls *)

Section ModelMore.
Context {F : Type} `{FloatOps F} `{MathOps F} `{Indeterminate F} `{Collaborators F}.

(** Lines 340-344: the spherical-harmonic weights of the direction an
    arrival comes from. *)
Definition sh_weights (sh_order : Z) (c : ims_pos_xyz F) : list F :=
  let '(azi, elev) := unitCart2Sph c in
  getSHreal_recur sh_order (azi, fsub (fdiv SAF_PI (of_int 2)) elev).

(** Lines 380-415: the attenuation of an arrival in a band, from the
    absorption coefficients of the band and the arrival's reflection
    orders. *)
Definition band_absorption (abs_wall : list (list F)) (band : nat) (order : int3) : F :=
  let a := abs_wall !!! band in
  total_absorption (reflection_pair a 0 1) (reflection_pair a 2 3)
                   (reflection_pair a 4 5) order.

End ModelMore.

Section ModelRender.
Context {F : Type} `{FloatOps F} `{Indeterminate F}.

#[local] Existing Instance float_inhabited.

(** Lines 457-461, read at one cell: what the accumulation loop has
    added to sample [k] of channel [j] once the first [n] arrivals are
    in, starting from the flushed buffer. *)
Definition accumulated (echogram_abs : echogram_data F) (fs : F) (j : nat) (k : Z)
    (n : nat) : F :=
  for_loop n
    (λ i acc, if refl_index echogram_abs fs i =? k
              then fadd acc ((ec_value echogram_abs !!! i) !!! j) else acc)
    (of_int 0).

(** Lines 474-487, read at one cell: sample [k] of channel [c] of the
    output once the first [n] bands are summed, starting from the flushed
    vector. *)
Definition band_sum (rir_bands : list (list (list F))) (c k n : nat) : F :=
  for_loop n (λ band acc, fadd acc (((rir_bands !!! band) !!! c) !!! k)) (of_int 0).

End ModelRender.

(** *** Calls and the states they reach *)

Section Calls.
Context {F : Type} `{FloatOps F} `{MathOps F} `{Indeterminate F} `{Collaborators F}.

(** The sizes of all arrays of a workspace agree with its counters. *)
Record workspace_wf (wrk : ims_core_workspace F) : Prop := {
  wwf_lattice : lattice_wf wrk;
  wwf_raw : echogram_wf (wrk_hEchogram wrk);
  wwf_rec : echogram_wf (wrk_hEchogram_rec wrk);
  wwf_abs : Forall echogram_wf (wrk_hEchogram_abs wrk);
  wwf_bands : length (wrk_hEchogram_abs wrk) = Z.to_nat (wrk_nBands wrk);
  wwf_rir : length (wrk_rir_bands wrk) = Z.to_nat (wrk_nBands wrk);
  wwf_count : ec_numImageSources (wrk_hEchogram wrk) = wrk_numImageSources wrk;
}.

(** A call of one of the three core functions that build echograms,
    with its arguments. *)
Inductive core_call : Type :=
  | CallCoreInit (room : int3) (src rec : ims_pos_xyz F) (maxTime_s c_ms : F)
  | CallCoreRecModuleSH (sh_order : Z)
  | CallCoreAbsorptionModule (abs_wall : list (list F)).

Definition run_call (wrk : ims_core_workspace F) (call : core_call)
  : ims_core_workspace F :=
  match call with
  | CallCoreInit room src rec maxTime_s c_ms =>
      ims_shoebox_coreInit wrk room src rec maxTime_s c_ms
  | CallCoreRecModuleSH sh_order => ims_shoebox_coreRecModuleSH wrk sh_order
  | CallCoreAbsorptionModule abs_wall => ims_shoebox_coreAbsorptionModule wrk abs_wall
  end.

End Calls.

(** ** A scenario of the reference tests, on binary32

    Room 10 x 7 x 3 m, speed of sound 343 m/s, source at (5.1, 6.0, 1.1),
    receiver at (8.8, 5.5, 0.9), as in [test__ims_shoebox_RIR]; the
    maximum delay is shortened to 20 ms to keep the lattice small. *)
Module Scenario.
Import Binary32.

(** Stand-ins for the collaborators: the order-0 harmonic on every
    channel, and a filter that passes its input. *)
#[export] Instance float32_collab : Collaborators float32 :=
  {| SAF_PI := S754_finite false 13176795 (-22);
     unitCart2Sph := λ _, (S754_zero false, S754_zero false);
     getSHreal_recur := λ order _,
       replicate (Z.to_nat ((order + 1) * (order + 1)))
                 (S754_finite false 9465345 (-25));
     IMS_FIR_FILTERBANK_ORDER := 400;
     fftconv := λ x _ _ _ _, x |}.

(** The [float] nearest to the decimal [n / d]. *)
Definition ratio (n d : Z) : float32 := SFdiv prec emax (of_Z n) (of_Z d).

Definition room : int3 := Int3 10 7 3.
Definition src_pos : ims_pos_xyz float32 := Pos (ratio 51 10) (of_Z 6) (ratio 11 10).
Definition rec_pos : ims_pos_xyz float32 := Pos (ratio 88 10) (ratio 55 10) (ratio 9 10).
Definition c_ms : float32 := of_Z 343.
Definition maxTime_s : float32 := ratio 2 100.

Definition wrk0 : ims_core_workspace float32 := ims_shoebox_coreWorkspaceCreate 2.
Abbreviation wrk1 := (ims_shoebox_coreInit wrk0 room src_pos rec_pos maxTime_s c_ms).

(** Two octave bands: lossless walls, and walls that absorb. *)
Definition abs_wall : list (list float32) :=
  [ replicate 6 (of_Z 0);
    [ratio 18 100; ratio 21 100; ratio 13 100; ratio 23 100; ratio 21 100; ratio 24 100] ].
Definition fs : float32 := of_Z 48000.
Definition H_filt : list (list float32) := [[of_Z 1]; [of_Z 1]].
Definition rir0 : ims_rir float32 := Rir [] 0 0.

Abbreviation wrk2 := (ims_shoebox_coreRecModuleSH wrk1 0).
Abbreviation wrk3 := (ims_shoebox_coreAbsorptionModule wrk2 abs_wall).
Abbreviation wrk4 := (fst (ims_shoebox_renderRIR wrk3 0 fs H_filt rir0)).

(** The room grows by 2 m along z while source and receiver move up by
    1 m: the centred positions stay the same. *)
Definition roomA : int3 := Int3 10 7 3.
Definition srcA : ims_pos_xyz float32 := Pos (of_Z 5) (ratio 35 10) (ratio 15 10).
Definition recA : ims_pos_xyz float32 := Pos (of_Z 6) (ratio 35 10) (ratio 15 10).
Definition roomB : int3 := Int3 10 7 5.
Definition srcB : ims_pos_xyz float32 := Pos (of_Z 5) (ratio 35 10) (ratio 25 10).
Definition recB : ims_pos_xyz float32 := Pos (of_Z 6) (ratio 35 10) (ratio 25 10).

Abbreviation wrkA := (ims_shoebox_coreInit wrk0 roomA srcA recA maxTime_s c_ms).
Abbreviation wrkB := (ims_shoebox_coreInit wrkA roomB srcB recB maxTime_s c_ms).

(** A maximum distance of exactly 7 m: 20 ms at 350 m/s. *)
Definition c_ms_350 : float32 := of_Z 350.
Abbreviation wrk7 := (ims_shoebox_coreInit wrk0 room src_pos rec_pos maxTime_s c_ms_350).

(** Source and receiver together at (4, 4.5, 0.5): with the room centred,
    both are at (-1, -1, -1). *)
Definition at_cached : ims_pos_xyz float32 := Pos (of_Z 4) (ratio 45 10) (ratio 5 10).

(** A maximum delay of 40 ms instead of 20 ms. *)
Definition maxTime_long : float32 := ratio 4 100.

(** Walls that reflect everything, in both bands. *)
Definition abs_none : list (list float32) := [replicate 6 (of_Z 0); replicate 6 (of_Z 0)].

Abbreviation wrk1_sh := (ims_shoebox_coreRecModuleSH wrk1 1).

(** A band of one arrival after 0.75 s, and a negative sample rate. *)
Definition band_one : echogram_data float32 :=
  Echogram 1 1 [[of_Z 1]] [ratio 3 4] [Int3 0 0 0]
           [Pos (of_Z 0) (of_Z 0) (of_Z 0)] [0].
Definition wrk_one : ims_core_workspace float32 :=
  set_hEchogram_abs (ims_shoebox_coreWorkspaceCreate 1) [band_one].
Definition fs_neg : float32 := of_Z (-2).

(** A band of one arrival after 50000 s. *)
Definition band_long : echogram_data float32 :=
  Echogram 1 1 [[of_Z 1]] [of_Z 50000] [Int3 0 0 0]
           [Pos (of_Z 0) (of_Z 0) (of_Z 0)] [0].

End Scenario.

(** * Proofs *)

Section WellFormedFacts.
Context {F : Type}.

Lemma echogram_wfb_correct (ec : echogram_data F) :
  echogram_wfb ec = true → echogram_wf ec.
Proof.
  unfold echogram_wfb. rewrite !andb_true_iff.
  intros [[[[[[[Hn Hc] Hv] Hr] Ht] Ho] Hco] Hs].
  apply Z.leb_le in Hn, Hc. apply Nat.eqb_eq in Hv, Ht, Ho, Hco, Hs.
  split; try assumption.
  apply Forall_forall. intros row Hrow. rewrite forallb_forall in Hr.
  apply Nat.eqb_eq. apply Hr. apply list_elem_of_In. exact Hrow.
Qed.

End WellFormedFacts.

(** ** Loops over arrays *)

Section Loops.
Context {A : Type}.

Lemma for_loop_0 {St} (body : nat → St → St) (s : St) : for_loop 0 body s = s.
Proof. reflexivity. Qed.

Lemma for_loop_S {St} (n : nat) (body : nat → St → St) (s : St) :
  for_loop (S n) body s = body n (for_loop n body s).
Proof. unfold for_loop. rewrite seq_S, foldl_snoc. reflexivity. Qed.

(** An invariant that every turn keeps holds at the end. *)
Lemma for_loop_ind {St} (P : nat → St → Prop) (n : nat) (body : nat → St → St) (s : St) :
  P O s →
  (∀ i t, (i < n)%nat → P i t → P (S i) (body i t)) →
  P n (for_loop n body s).
Proof.
  intros H0 Hstep. induction n as [|n IH]; [exact H0|].
  rewrite for_loop_S. apply Hstep; [lia|]. apply IH.
  intros i t Hi. apply Hstep. lia.
Qed.

Lemma fill_length (f : nat → A) n (a : list A) : (n ≤ length a)%nat → length (fill f n a) = length a.
Proof.
  intros Hn. unfold fill. rewrite length_app, length_map, length_seq, length_drop. lia.
Qed.

Lemma fill_S (f : nat → A) n (a : list A) :
  (n < length a)%nat → <[n := f n]> (fill f n a) = fill f (S n) a.
Proof.
  intros Hn. unfold fill.
  rewrite insert_app_r_alt by (rewrite length_map, length_seq; lia).
  rewrite length_map, length_seq, Nat.sub_diag.
  destruct (lookup_lt_is_Some_2 a n Hn) as [y Hy].
  rewrite (drop_S _ _ _ Hy), seq_S, map_app, <- app_assoc. reflexivity.
Qed.

Lemma fill_all (f : nat → A) n (a : list A) : length a = n → fill f n a = map f (seq 0 n).
Proof. intros <-. unfold fill. rewrite drop_all, app_nil_r. reflexivity. Qed.

Lemma fill_lookup `{Inhabited A} (f : nat → A) n (a : list A) i : (i < n)%nat → fill f n a !!! i = f i.
Proof.
  intros Hi. unfold fill. rewrite lookup_total_app_l by (rewrite length_map, length_seq; lia).
  apply list_lookup_total_correct. rewrite list_lookup_fmap, lookup_seq_lt by lia.
  reflexivity.
Qed.

Lemma for_loop_fill (f : nat → A) n a :
  (n ≤ length a)%nat → for_loop n (λ i a, <[i := f i]> a) a = fill f n a.
Proof.
  induction n as [|n IH]; intros Hn.
  - unfold fill. simpl. rewrite drop_0. reflexivity.
  - rewrite for_loop_S, IH by lia. apply fill_S. lia.
Qed.

Lemma scatter_length {B} (g : B → A → A) idxs a :
  (length idxs ≤ length a)%nat → length (scatter g idxs a) = length a.
Proof.
  intros Hn. unfold scatter.
  rewrite length_app, length_zip_with, length_take, length_drop. lia.
Qed.

Lemma scatter_next `{Inhabited A} {B} (g : B → A → A) idxs a :
  (length idxs < length a)%nat → scatter g idxs a !!! length idxs = a !!! length idxs.
Proof.
  intros Hn. unfold scatter.
  rewrite lookup_total_app_r by (rewrite length_zip_with, length_take; lia).
  rewrite length_zip_with, length_take.
  replace (length idxs - length idxs `min` (length idxs `min` length a))%nat with O by lia.
  rewrite lookup_total_drop. f_equal. lia.
Qed.

Lemma scatter_snoc `{Inhabited A} {B} (g : B → A → A) idxs k a :
  (length idxs < length a)%nat →
  <[length idxs := g k (a !!! length idxs)]> (scatter g idxs a)
  = scatter g (idxs ++ [k]) a.
Proof.
  intros Hn. unfold scatter.
  rewrite insert_app_r_alt by (rewrite length_zip_with, length_take; lia).
  rewrite length_zip_with, length_take.
  replace (length idxs - length idxs `min` (length idxs `min` length a))%nat with O by lia.
  rewrite length_app. simpl.
  replace (length idxs + 1)%nat with (S (length idxs)) by lia.
  destruct (lookup_lt_is_Some_2 a (length idxs) Hn) as [y Hy].
  rewrite (take_S_r _ _ _ Hy), (drop_S _ _ _ Hy).
  rewrite (list_lookup_total_correct _ _ _ Hy). simpl.
  rewrite zip_with_app by (rewrite length_take; lia).
  rewrite <- app_assoc. reflexivity.
Qed.

Lemma scatter_all {B} (g : B → A → A) idxs a :
  length a = length idxs → scatter g idxs a = zip_with g idxs a.
Proof.
  intros Hn. unfold scatter. rewrite <- Hn, firstn_all, drop_all, app_nil_r. reflexivity.
Qed.

End Loops.

(** ** The stages of ims_shoebox_coreInit *)

Section CoreInit.
Context {F : Type} `{FloatOps F} `{MathOps F} `{Indeterminate F}.

#[local] Existing Instance float_inhabited.
#[local] Existing Instance pos_inhabited.
#[local] Existing Instance int3_inhabited.

Lemma for_loop_ext {St} (n : nat) (body body' : nat → St → St) (s : St) :
  (∀ i t, (i < n)%nat → body i t = body' i t) →
  for_loop n body s = for_loop n body' s.
Proof.
  induction n as [|n IH]; intros Hext; [reflexivity|].
  rewrite !for_loop_S, IH by (intros; apply Hext; lia). apply Hext. lia.
Qed.

(** *** Resizing *)

Lemma echogramResize_dims (ec : echogram_data F) n c :
  ec_numImageSources (ims_shoebox_echogramResize ec n c) = n
  ∧ ec_nChannels (ims_shoebox_echogramResize ec n c) = c.
Proof.
  unfold ims_shoebox_echogramResize.
  destruct (ec_nChannels ec =? c) eqn:Hc, (ec_numImageSources ec =? n) eqn:Hn;
    simpl; try (split; reflexivity).
  apply Z.eqb_eq in Hc, Hn. split; assumption.
Qed.

Lemma echogramResize_wf (ec : echogram_data F) n c :
  0 ≤ n → 0 ≤ c → echogram_wf ec → echogram_wf (ims_shoebox_echogramResize ec n c).
Proof.
  intros Hn Hc Hwf. unfold ims_shoebox_echogramResize.
  destruct (negb (ec_nChannels ec =? c) || negb (ec_numImageSources ec =? n));
    [|exact Hwf].
  split; simpl; unfold realloc1d, realloc2d; rewrite ?length_resize; try done.
  apply Forall_resize.
  - apply length_replicate.
  - apply Forall_forall. intros row Hrow. apply list_elem_of_fmap in Hrow as (r & -> & _).
    apply length_resize.
Qed.

(** *** Lines 255-260: coordinates and distances *)

Lemma coords_loop wrk room so ro (n : nat) s_x s_y s_z s_d :
  (n ≤ length s_x)%nat → (n ≤ length s_y)%nat → (n ≤ length s_z)%nat →
  (n ≤ length s_d)%nat →
  for_loop n (coords_body (wrk_II wrk) (wrk_JJ wrk) (wrk_KK wrk) room so ro)
           (s_x, s_y, s_z, s_d)
  = (fill (image_x wrk room so ro) n s_x, fill (image_y wrk room so ro) n s_y,
     fill (image_z wrk room so ro) n s_z, fill (image_d wrk room so ro) n s_d).
Proof.
  intros Hx Hy Hz Hd. induction n as [|n IH].
  - unfold fill. simpl. rewrite !drop_0. reflexivity.
  - rewrite for_loop_S, IH by lia.
    rewrite <- !fill_S by lia. unfold coords_body.
    rewrite !list_lookup_total_insert_eq by (rewrite fill_length; lia).
    reflexivity.
Qed.

(** *** Lines 263-270: culling *)

Lemma valid_loop (s_d : list F) d_max (n : nat) validIDs :
  (n ≤ length validIDs)%nat →
  for_loop n (valid_body s_d d_max) (validIDs, 0)
  = (fill (λ i, if flt (s_d !!! i) d_max then 1 else 0) n validIDs,
     Z.of_nat (length (List.filter (λ i, flt (s_d !!! i) d_max) (seq 0 n)))).
Proof.
  intros Hv. induction n as [|n IH].
  - unfold fill. simpl. rewrite drop_0. reflexivity.
  - rewrite for_loop_S, IH by lia.
    rewrite <- fill_S by lia. unfold valid_body.
    rewrite seq_S, List.filter_app, length_app. simpl.
    destruct (flt (s_d !!! n) d_max); simpl; f_equal; lia.
Qed.

Lemma filter_seq_length_le (p : nat → bool) (k n : nat) :
  (k ≤ n)%nat →
  (length (List.filter p (seq 0 k)) ≤ length (List.filter p (seq 0 n)))%nat.
Proof.
  intros Hk. replace n with (k + (n - k))%nat by lia.
  rewrite seq_app, List.filter_app, length_app. lia.
Qed.

(** *** Lines 276-295: the compacting copy *)

Lemma copy_loop validIDs II JJ KK s_x s_y s_z s_d c_ms (n : nat) (ec : echogram_data F) :
  let valid i := negb (validIDs !!! i =? 0) in
  let idxs k := List.filter valid (seq 0 k) in
  (length (idxs n) ≤ length (ec_value ec))%nat →
  (length (idxs n) ≤ length (ec_time ec))%nat →
  (length (idxs n) ≤ length (ec_order ec))%nat →
  (length (idxs n) ≤ length (ec_coords ec))%nat →
  for_loop n (copy_body validIDs II JJ KK s_x s_y s_z s_d c_ms) (O, ec)
  = (length (idxs n),
     Echogram (ec_numImageSources ec) (ec_nChannels ec)
       (scatter (λ i row, <[O := arrival_gain (s_d !!! i)]> row) (idxs n) (ec_value ec))
       (scatter (λ i _, fdiv (s_d !!! i) c_ms) (idxs n) (ec_time ec))
       (scatter (λ i _, arrival_order (II !!! i) (JJ !!! i) (KK !!! i)) (idxs n)
                (ec_order ec))
       (scatter (λ i _, Pos (s_x !!! i) (s_y !!! i) (s_z !!! i)) (idxs n) (ec_coords ec))
       (ec_sortedIdx ec)).
Proof.
  intros valid idxs. induction n as [|n IH]; intros Hv Ht Ho Hc.
  - simpl. unfold scatter. simpl. rewrite !drop_0. destruct ec; reflexivity.
  - assert (Hle : (length (idxs n) ≤ length (idxs (S n)))%nat)
      by (apply filter_seq_length_le; lia).
    assert (Hsnoc : idxs (S n) = idxs n ++ (if valid n then [n] else [])).
    { unfold idxs. rewrite seq_S, List.filter_app. simpl.
      destruct (valid n); reflexivity. }
    rewrite for_loop_S, IH by lia. unfold copy_body. fold (valid n).
    rewrite Hsnoc in *. clear Hsnoc Hle.
    destruct (valid n) eqn:Hvalid; simpl.
    + rewrite length_app in *. simpl in *.
      replace (length (idxs n) + 1)%nat with (S (length (idxs n))) by lia.
      rewrite scatter_next by lia.
      rewrite <- !scatter_snoc by lia. reflexivity.
    + rewrite app_nil_r. reflexivity.
Qed.

Lemma zip_with_overwrite {A B} (t : A → B) (idxs : list A) (a : list B) :
  length a = length idxs → zip_with (λ i _, t i) idxs a = map t idxs.
Proof.
  revert a. induction idxs as [|i idxs IH]; intros [|y a] Hlen; simpl in *;
    try lia; try reflexivity.
  f_equal. apply IH. lia.
Qed.

Lemma zip_with_first_cell {A} (t : A → F) (idxs : list A) (a : list (list F)) :
  length a = length idxs → Forall (λ row, length row = 1%nat) a →
  zip_with (λ i row, <[O := t i]> row) idxs a = map (λ i, [t i]) idxs.
Proof.
  revert a. induction idxs as [|i idxs IH]; intros [|y a] Hlen Hrows; simpl in *;
    try lia; try reflexivity.
  apply Forall_cons in Hrows as [Hy Hrows].
  f_equal; [|apply IH; [lia|assumption]].
  destruct y as [|v [|? ?]]; simpl in *; try lia. reflexivity.
Qed.

Lemma seq_lookup_map {A} `{Inhabited A} (f : nat → A) (n i : nat) :
  (i < n)%nat → map f (seq 0 n) !!! i = f i.
Proof.
  intros Hi. apply list_lookup_total_correct.
  rewrite list_lookup_fmap, lookup_seq_lt by lia. reflexivity.
Qed.

(** *** Lines 250-298 as a whole *)

Lemma update_echogram_eq wrk room so ro d_max c_ms :
  lattice_wf wrk → echogram_wf (wrk_hEchogram wrk) →
  let n := Z.to_nat (wrk_lengthVec wrk) in
  let pts := valid_points wrk room so ro d_max in
  let time := map (λ i, fdiv (image_d wrk room so ro i) c_ms) pts in
  update_echogram wrk room so ro d_max c_ms
  = {| wrk_d_max := wrk_d_max wrk;
       wrk_lengthVec := wrk_lengthVec wrk;
       wrk_numImageSources := Z.of_nat (length pts);
       wrk_room := room;
       wrk_Nx := wrk_Nx wrk; wrk_Ny := wrk_Ny wrk; wrk_Nz := wrk_Nz wrk;
       wrk_src := so;
       wrk_rec := ro;
       wrk_nBands := wrk_nBands wrk;
       wrk_validIDs :=
         map (λ i, if flt (image_d wrk room so ro i) d_max then 1 else 0) (seq 0 n);
       wrk_II := wrk_II wrk; wrk_JJ := wrk_JJ wrk; wrk_KK := wrk_KK wrk;
       wrk_s_x := map (image_x wrk room so ro) (seq 0 n);
       wrk_s_y := map (image_y wrk room so ro) (seq 0 n);
       wrk_s_z := map (image_z wrk room so ro) (seq 0 n);
       wrk_s_d := map (image_d wrk room so ro) (seq 0 n);
       wrk_s_t := wrk_s_t wrk;
       wrk_s_att := wrk_s_att wrk;
       wrk_refreshEchogramFLAG := wrk_refreshEchogramFLAG wrk;
       wrk_hEchogram :=
         Echogram (Z.of_nat (length pts)) 1
           (map (λ i, [arrival_gain (image_d wrk room so ro i)]) pts)
           time
           (map (λ i, arrival_order (wrk_II wrk !!! i) (wrk_JJ wrk !!! i)
                                    (wrk_KK wrk !!! i)) pts)
           (map (λ i, Pos (image_x wrk room so ro i) (image_y wrk room so ro i)
                          (image_z wrk room so ro i)) pts)
           (map Z.of_nat (sortf_data fle time (length pts)));
       wrk_hEchogram_rec := wrk_hEchogram_rec wrk;
       wrk_hEchogram_abs := wrk_hEchogram_abs wrk;
       wrk_refreshRIRFLAG := wrk_refreshRIRFLAG wrk;
       wrk_rir_len_samples := wrk_rir_len_samples wrk;
       wrk_rir_len_seconds := wrk_rir_len_seconds wrk;
       wrk_rir_bands := wrk_rir_bands wrk |}.
Proof.
  intros Hl He n pts time. destruct Hl.
  unfold update_echogram. fold n.
  (* coordinates *)
  rewrite coords_loop by (unfold n; lia).
  rewrite !fill_all by assumption.
  (* culling *)
  rewrite valid_loop by (unfold n; lia).
  rewrite fill_all by assumption.
  assert (Hpts : List.filter (λ i, flt (map (image_d wrk room so ro) (seq 0 n) !!! i) d_max)
                             (seq 0 n) = pts).
  { apply List.filter_ext_in. intros i Hi. apply in_seq in Hi.
    rewrite seq_lookup_map by lia. reflexivity. }
  rewrite Hpts.
  assert (Hvalid : List.filter
            (λ i, negb (map (λ i, if flt (map (image_d wrk room so ro) (seq 0 n) !!! i) d_max
                                  then 1 else 0) (seq 0 n) !!! i =? 0)) (seq 0 n) = pts).
  { rewrite <- Hpts. apply List.filter_ext_in. intros i Hi. apply in_seq in Hi.
    rewrite seq_lookup_map by lia.
    destruct (flt (map (image_d wrk room so ro) (seq 0 n) !!! i) d_max); reflexivity. }
  (* the container *)
  set (ec := ims_shoebox_echogramResize (wrk_hEchogram wrk) (Z.of_nat (length pts)) 1).
  assert (Hwf : echogram_wf ec) by (apply echogramResize_wf; [lia|lia|assumption]).
  destruct (echogramResize_dims (wrk_hEchogram wrk) (Z.of_nat (length pts)) 1)
    as [Hdn Hdc]. fold ec in Hdn, Hdc.
  destruct Hwf as [_ _ Hv Hrows Ht Ho Hco Hsi].
  rewrite Hdn, Nat2Z.id in Hv, Ht, Ho, Hco, Hsi. rewrite Hdc in Hrows.
  (* the compacting copy *)
  pose proof (copy_loop
     (map (λ i, if flt (map (image_d wrk room so ro) (seq 0 n) !!! i) d_max
                then 1 else 0) (seq 0 n))
     (wrk_II wrk) (wrk_JJ wrk) (wrk_KK wrk)
     (map (image_x wrk room so ro) (seq 0 n)) (map (image_y wrk room so ro) (seq 0 n))
     (map (image_z wrk room so ro) (seq 0 n)) (map (image_d wrk room so ro) (seq 0 n))
     c_ms n ec) as Hcopy.
  cbv beta zeta in Hcopy. rewrite Hvalid in Hcopy.
  rewrite Hcopy by lia. clear Hcopy.
  rewrite !scatter_all by lia.
  rewrite Hdn, Hdc. simpl.
  assert (Hin : ∀ i, In i pts → (i < n)%nat).
  { intros i Hi. unfold pts, valid_points in Hi. apply List.filter_In in Hi as [Hi _].
    apply in_seq in Hi. unfold n. lia. }
  assert (Hvalue :
    zip_with (λ i row, <[O := arrival_gain (map (image_d wrk room so ro) (seq 0 n) !!! i)]> row)
             pts (ec_value ec)
    = map (λ i, [arrival_gain (image_d wrk room so ro i)]) pts).
  { rewrite (zip_with_first_cell
               (λ i, arrival_gain (map (image_d wrk room so ro) (seq 0 n) !!! i)))
      by assumption.
    apply map_ext_in. intros i Hi. rewrite seq_lookup_map by auto. reflexivity. }
  assert (Htime :
    zip_with (λ i _, fdiv (map (image_d wrk room so ro) (seq 0 n) !!! i) c_ms)
             pts (ec_time ec) = time).
  { rewrite (zip_with_overwrite
               (λ i, fdiv (map (image_d wrk room so ro) (seq 0 n) !!! i) c_ms))
      by assumption.
    apply map_ext_in. intros i Hi. rewrite seq_lookup_map by auto. reflexivity. }
  assert (Horder :
    zip_with (λ i _, arrival_order (wrk_II wrk !!! i) (wrk_JJ wrk !!! i) (wrk_KK wrk !!! i))
             pts (ec_order ec)
    = map (λ i, arrival_order (wrk_II wrk !!! i) (wrk_JJ wrk !!! i) (wrk_KK wrk !!! i)) pts).
  { apply (zip_with_overwrite
             (λ i, arrival_order (wrk_II wrk !!! i) (wrk_JJ wrk !!! i) (wrk_KK wrk !!! i))).
    assumption. }
  assert (Hcoords :
    zip_with (λ i _, Pos (map (image_x wrk room so ro) (seq 0 n) !!! i)
                         (map (image_y wrk room so ro) (seq 0 n) !!! i)
                         (map (image_z wrk room so ro) (seq 0 n) !!! i))
             pts (ec_coords ec)
    = map (λ i, Pos (image_x wrk room so ro i) (image_y wrk room so ro i)
                    (image_z wrk room so ro i)) pts).
  { rewrite (zip_with_overwrite
               (λ i, Pos (map (image_x wrk room so ro) (seq 0 n) !!! i)
                         (map (image_y wrk room so ro) (seq 0 n) !!! i)
                         (map (image_z wrk room so ro) (seq 0 n) !!! i)))
      by assumption.
    apply map_ext_in. intros i Hi. rewrite !seq_lookup_map by auto. reflexivity. }
  rewrite Hvalue, Htime, Horder, Hcoords.
  unfold sortf. simpl. rewrite Nat2Z.id.
  rewrite (drop_ge (ec_sortedIdx ec)) by lia. rewrite app_nil_r.
  assert (Hvids :
    map (λ i, if flt (map (image_d wrk room so ro) (seq 0 n) !!! i) d_max then 1 else 0)
        (seq 0 n)
    = map (λ i, if flt (image_d wrk room so ro i) d_max then 1 else 0) (seq 0 n)).
  { apply map_ext_in. intros i Hi. apply in_seq in Hi.
    rewrite seq_lookup_map by lia. reflexivity. }
  rewrite Hvids. reflexivity.
Qed.

(** *** Lines 204-243: the lattice arrays *)

Lemma indices_loop_lengths Nx Ny Nz (n : nat) ii jj kk (II JJ KK : list F) :
  match for_loop n (indices_body Nx Ny Nz) (ii, jj, kk, (II, JJ, KK)) with
  | (_, _, _, (II', JJ', KK')) =>
      length II' = length II ∧ length JJ' = length JJ ∧ length KK' = length KK
  end.
Proof.
  apply (for_loop_ind
           (λ _ st, match st with
                    | (_, _, _, (II', JJ', KK')) =>
                        length II' = length II ∧ length JJ' = length JJ
                        ∧ length KK' = length KK
                    end)); [auto|].
  intros i [[[ii' jj'] kk'] [[II' JJ'] KK']] _ (HI & HJ & HK).
  unfold indices_body.
  destruct (Nx <? ii' + 1); [destruct (Ny <? jj' + 1)|destruct (Ny <? jj')];
    rewrite !length_insert; auto.
Qed.

(** One more point: the remainder moves up, or wraps and carries. *)
Lemma odometer_step (a x : Z) :
  0 < a → 0 ≤ x →
  (x mod a < a - 1 ∧ (x + 1) mod a = x mod a + 1 ∧ (x + 1) / a = x / a)
  ∨ (x mod a = a - 1 ∧ (x + 1) mod a = 0 ∧ (x + 1) / a = x / a + 1).
Proof.
  intros Ha Hx.
  pose proof (Z.div_mod x a ltac:(lia)) as Hdm.
  pose proof (Z.mod_pos_bound x a Ha) as Hb.
  destruct (Z.eq_dec (x mod a) (a - 1)) as [He|Hne].
  - right. split; [exact He|].
    assert (Hq : (x + 1) / a = x / a + 1).
    { symmetry. apply (Z.div_unique (x + 1) a (x / a + 1) 0); lia. }
    split; [|exact Hq].
    symmetry. apply (Z.mod_unique (x + 1) a (x / a + 1) 0); lia.
  - left. split; [lia|].
    assert (Hq : (x + 1) / a = x / a).
    { symmetry. apply (Z.div_unique (x + 1) a (x / a) (x mod a + 1)); lia. }
    split; [|exact Hq].
    symmetry. apply (Z.mod_unique (x + 1) a (x / a) (x mod a + 1)); lia.
Qed.

Ltac odometer_close :=
  match goal with
  | |- (?i1, ?j1, ?k1, ?l) = (?i2, ?j2, ?k2, ?l) =>
      let Ei := fresh in
      let Ej := fresh in
      let Ek := fresh in
      assert (Ei : i1 = i2) by lia;
      assert (Ej : j1 = j2) by lia;
      assert (Ek : k1 = k2) by lia;
      exact (f_equal2 pair (f_equal2 pair (f_equal2 pair Ei Ej) Ek) eq_refl)
  end.

(** Lines 216-233: after [n] turns the counters and the cells written so
    far are the digits of [n] in the mixed radix (2Nx+1, 2Ny+1, 2Nz+1),
    shifted to start at (-Nx, -Ny, -Nz). *)
Lemma indices_loop_odometer Nx Ny Nz (n : nat) (II JJ KK : list F) :
  0 ≤ Nx → 0 ≤ Ny → 0 ≤ Nz →
  (n ≤ length II)%nat → (n ≤ length JJ)%nat → (n ≤ length KK)%nat →
  for_loop n (indices_body Nx Ny Nz) (- Nx, - Ny, - Nz, (II, JJ, KK))
  = (lattice_i Nx (Z.of_nat n), lattice_j Nx Ny (Z.of_nat n),
     lattice_k Nx Ny Nz (Z.of_nat n),
     (fill (λ m, of_int (lattice_i Nx (Z.of_nat m))) n II,
      fill (λ m, of_int (lattice_j Nx Ny (Z.of_nat m))) n JJ,
      fill (λ m, of_int (lattice_k Nx Ny Nz (Z.of_nat m))) n KK)).
Proof.
  intros HNx HNy HNz HI HJ HK. induction n as [|n IH].
  - unfold fill, lattice_i, lattice_j, lattice_k. simpl.
    rewrite !drop_0, !Z.div_0_l, !Z.mod_0_l, !Z.add_0_r by lia. reflexivity.
  - rewrite for_loop_S, IH by lia. unfold indices_body.
    rewrite <- !fill_S by lia.
    set (x := Z.of_nat n).
    replace (Z.of_nat (S n)) with (x + 1) by lia.
    assert (Hx : 0 ≤ x) by lia.
    unfold lattice_i, lattice_j, lattice_k.
    set (a := 2 * Nx + 1). set (b := 2 * Ny + 1). set (c := 2 * Nz + 1).
    assert (Hqa : 0 ≤ x / a) by (apply Z.div_pos; lia).
    assert (Hqb : 0 ≤ x / a / b) by (apply Z.div_pos; lia).
    pose proof (Z.mod_pos_bound (x / a) b ltac:(lia)) as Hb.
    pose proof (Z.mod_pos_bound (x / a / b) c ltac:(lia)) as Hc.
    destruct (odometer_step a x ltac:(lia) Hx) as [(I1 & I2 & I3)|(I1 & I2 & I3)];
      rewrite I2, I3.
    + (* no carry *)
      destruct (Z.ltb_spec Nx (- Nx + x mod a + 1)); [lia|].
      destruct (Z.ltb_spec Ny (- Ny + (x / a) mod b)); [lia|].
      destruct (Z.ltb_spec Nz (- Nz + (x / a / b) mod c)); [lia|].
      odometer_close.
    + (* carry into j *)
      destruct (Z.ltb_spec Nx (- Nx + x mod a + 1)); [|lia].
      destruct (odometer_step b (x / a) ltac:(lia) Hqa) as [(J1 & J2 & J3)|(J1 & J2 & J3)];
        rewrite J2, J3.
      * destruct (Z.ltb_spec Ny (- Ny + (x / a) mod b + 1)); [lia|].
        destruct (Z.ltb_spec Nz (- Nz + (x / a / b) mod c)); [lia|].
        odometer_close.
      * (* carry into k *)
        destruct (Z.ltb_spec Ny (- Ny + (x / a) mod b + 1)); [|lia].
        destruct (odometer_step c (x / a / b) ltac:(lia) Hqb)
          as [(K1 & K2 & K3)|(K1 & K2 & K3)]; rewrite K2.
        -- destruct (Z.ltb_spec Nz (- Nz + (x / a / b) mod c + 1)); [lia|].
           odometer_close.
        -- destruct (Z.ltb_spec Nz (- Nz + (x / a / b) mod c + 1)); [|lia].
           odometer_close.
Qed.

Lemma update_indices_wf wrk room d_max : lattice_wf (update_indices wrk room d_max).
Proof.
  unfold update_indices.
  match goal with
  | |- context [for_loop ?n (indices_body ?Nx ?Ny ?Nz) (?i, ?j, ?k, (?a, ?b, ?c))] =>
      pose proof (indices_loop_lengths Nx Ny Nz n i j k a b c) as Hlen;
      destruct (for_loop n (indices_body Nx Ny Nz) (i, j, k, (a, b, c)))
        as [[[? ?] ?] [[II' JJ'] KK']]
  end.
  destruct Hlen as (HI & HJ & HK). unfold realloc1d in *.
  rewrite length_resize in HI, HJ, HK.
  split; simpl; rewrite ?length_resize; auto.
Qed.

(** The lattice of lines 204-233: with bounds that are not negative it
    has (2Nx+1)(2Ny+1)(2Nz+1) points, and point [n] holds the indices the
    odometer reaches after [n] turns, [i] running fastest. *)
Lemma update_indices_odometer wrk room d_max :
  let w := update_indices wrk room d_max in
  0 ≤ wrk_Nx w → 0 ≤ wrk_Ny w → 0 ≤ wrk_Nz w →
  wrk_Nx w = to_int (fadd (fdiv d_max (of_int (int3_0 room))) (of_int 1))
  ∧ wrk_Ny w = to_int (fadd (fdiv d_max (of_int (int3_1 room))) (of_int 1))
  ∧ wrk_Nz w = to_int (fadd (fdiv d_max (of_int (int3_2 room))) (of_int 1))
  ∧ wrk_lengthVec w = (2 * wrk_Nx w + 1) * (2 * wrk_Ny w + 1) * (2 * wrk_Nz w + 1)
  ∧ wrk_II w = map (λ n, of_int (lattice_i (wrk_Nx w) (Z.of_nat n)))
                   (seq 0 (Z.to_nat (wrk_lengthVec w)))
  ∧ wrk_JJ w = map (λ n, of_int (lattice_j (wrk_Nx w) (wrk_Ny w) (Z.of_nat n)))
                   (seq 0 (Z.to_nat (wrk_lengthVec w)))
  ∧ wrk_KK w = map (λ n, of_int (lattice_k (wrk_Nx w) (wrk_Ny w) (wrk_Nz w) (Z.of_nat n)))
                   (seq 0 (Z.to_nat (wrk_lengthVec w))).
Proof.
  unfold update_indices. cbv zeta.
  set (Nx := to_int (fadd (fdiv d_max (of_int (int3_0 room))) (of_int 1))).
  set (Ny := to_int (fadd (fdiv d_max (of_int (int3_1 room))) (of_int 1))).
  set (Nz := to_int (fadd (fdiv d_max (of_int (int3_2 room))) (of_int 1))).
  set (lengthVec := (2 * Nx + 1) * (2 * Ny + 1) * (2 * Nz + 1)).
  destruct (for_loop (Z.to_nat lengthVec) (indices_body Nx Ny Nz)
              (- Nx, - Ny, - Nz,
               (realloc1d indet_float (wrk_II wrk) lengthVec,
                realloc1d indet_float (wrk_JJ wrk) lengthVec,
                realloc1d indet_float (wrk_KK wrk) lengthVec)))
    as [[[ii jj] kk] [[II JJ] KK]] eqn:Hloop.
  simpl. intros HNx HNy HNz.
  rewrite indices_loop_odometer in Hloop
    by (try assumption; unfold realloc1d; rewrite length_resize; lia).
  injection Hloop as _ _ _ <- <- <-.
  rewrite !fill_all by (unfold realloc1d; apply length_resize).
  repeat split; reflexivity.
Qed.

(** Every index triple within the bounds is the one of a lattice point. *)
Lemma lattice_covers (Nx Ny Nz i j k : Z) :
  - Nx ≤ i ≤ Nx → - Ny ≤ j ≤ Ny → - Nz ≤ k ≤ Nz →
  ∃ n, 0 ≤ n < (2 * Nx + 1) * (2 * Ny + 1) * (2 * Nz + 1)
       ∧ lattice_i Nx n = i ∧ lattice_j Nx Ny n = j ∧ lattice_k Nx Ny Nz n = k.
Proof.
  intros Hi Hj Hk.
  set (a := 2 * Nx + 1). set (b := 2 * Ny + 1). set (c := 2 * Nz + 1).
  set (q := (j + Ny) + b * (k + Nz)).
  exists ((i + Nx) + a * q).
  assert (Hq : 0 ≤ q) by (unfold q, b; nia).
  assert (Hdiv : ((i + Nx) + a * q) / a = q).
  { symmetry. apply (Z.div_unique _ a q (i + Nx)); unfold a; lia. }
  assert (Hmod : ((i + Nx) + a * q) mod a = i + Nx).
  { symmetry. apply (Z.mod_unique _ a q (i + Nx)); unfold a; lia. }
  assert (Hdivq : q / b = k + Nz).
  { symmetry. apply (Z.div_unique _ b (k + Nz) (j + Ny)); unfold q, b; lia. }
  assert (Hmodq : q mod b = j + Ny).
  { symmetry. apply (Z.mod_unique _ b (k + Nz) (j + Ny)); unfold q, b; lia. }
  unfold lattice_i, lattice_j, lattice_k. fold a b c.
  rewrite Hdiv, Hmod, Hdivq, Hmodq, (Z.mod_small (k + Nz) c) by (unfold c; lia).
  split; [|lia].
  assert (Hqc : q ≤ b * c - 1).
  { assert (b * (k + Nz) ≤ b * (c - 1)) by (apply Z.mul_le_mono_nonneg_l; unfold b, c; lia).
    unfold q. unfold b in *. lia. }
  assert (Haq : a * q ≤ a * (b * c - 1))
    by (apply Z.mul_le_mono_nonneg_l; unfold a; lia).
  assert (Haq0 : 0 ≤ a * q) by (apply Z.mul_nonneg_nonneg; unfold a; lia).
  replace (a * b * c) with (a * (b * c - 1) + a) by ring.
  unfold a in *. lia.
Qed.

(** The indices of every lattice point are within the bounds. *)
Lemma lattice_within (Nx Ny Nz n : Z) :
  0 ≤ Nx → 0 ≤ Ny → 0 ≤ Nz →
  - Nx ≤ lattice_i Nx n ≤ Nx ∧ - Ny ≤ lattice_j Nx Ny n ≤ Ny
  ∧ - Nz ≤ lattice_k Nx Ny Nz n ≤ Nz.
Proof.
  intros HNx HNy HNz. unfold lattice_i, lattice_j, lattice_k.
  pose proof (Z.mod_pos_bound n (2 * Nx + 1) ltac:(lia)).
  pose proof (Z.mod_pos_bound (n / (2 * Nx + 1)) (2 * Ny + 1) ltac:(lia)).
  pose proof (Z.mod_pos_bound (n / (2 * Nx + 1) / (2 * Ny + 1)) (2 * Nz + 1) ltac:(lia)).
  lia.
Qed.

Lemma update_indices_fields wrk room d_max :
  wrk_d_max (update_indices wrk room d_max) = d_max
  ∧ wrk_room (update_indices wrk room d_max) = room
  ∧ wrk_src (update_indices wrk room d_max) = wrk_src wrk
  ∧ wrk_rec (update_indices wrk room d_max) = wrk_rec wrk
  ∧ wrk_hEchogram (update_indices wrk room d_max) = wrk_hEchogram wrk.
Proof.
  unfold update_indices.
  match goal with
  | |- context [for_loop ?n ?b ?s] => destruct (for_loop n b s) as [[[? ?] ?] [[? ?] ?]]
  end.
  simpl. auto.
Qed.

Lemma refresh_indices_wf wrk room d_max :
  lattice_wf wrk → lattice_wf (refresh_indices wrk room d_max).
Proof.
  intros Hwf. unfold refresh_indices.
  destruct (indices_changed wrk room d_max); [apply update_indices_wf|exact Hwf].
Qed.

Lemma refresh_indices_hEchogram wrk room d_max :
  wrk_hEchogram (refresh_indices wrk room d_max) = wrk_hEchogram wrk.
Proof.
  unfold refresh_indices. destruct (indices_changed wrk room d_max); [|reflexivity].
  apply update_indices_fields.
Qed.

Lemma update_echogram_fields wrk room so ro d_max c_ms :
  wrk_d_max (update_echogram wrk room so ro d_max c_ms) = wrk_d_max wrk
  ∧ wrk_room (update_echogram wrk room so ro d_max c_ms) = room
  ∧ wrk_src (update_echogram wrk room so ro d_max c_ms) = so
  ∧ wrk_rec (update_echogram wrk room so ro d_max c_ms) = ro.
Proof.
  unfold update_echogram.
  repeat match goal with
  | |- context [for_loop ?n ?b ?s] =>
      first [destruct (for_loop n b s) as [[[? ?] ?] ?]
            |destruct (for_loop n b s) as [? ?]]
  end.
  simpl. auto.
Qed.

(** After the first conditional block the cached maximum distance and
    room are the current ones. *)
Lemma refresh_indices_current wrk room d_max :
  feq d_max d_max = true →
  indices_changed (refresh_indices wrk room d_max) room d_max = false.
Proof.
  intros Hd. unfold refresh_indices.
  destruct (indices_changed wrk room d_max) eqn:Hch; [|exact Hch].
  destruct (update_indices_fields wrk room d_max) as (Ed & Er & _).
  unfold indices_changed, fne. rewrite Ed, Er, Hd, !Z.eqb_refl. reflexivity.
Qed.

(** *** The call as a whole *)

Lemma coreInit_recomputed wrk room src rec maxTime_s c_ms :
  let d_max := fmul maxTime_s c_ms in
  let wrk1 := refresh_indices wrk room d_max in
  echogram_changed wrk1 room (centre room src) (centre room rec) = true →
  ims_shoebox_coreInit wrk room src rec maxTime_s c_ms
  = update_echogram wrk1 room (centre room src) (centre room rec) d_max c_ms.
Proof. intros d_max wrk1 Hch. unfold ims_shoebox_coreInit. fold d_max wrk1. rewrite Hch. reflexivity. Qed.

Lemma valid_points_In wrk room so ro d_max i :
  In i (valid_points wrk room so ro d_max)
  ↔ (i < Z.to_nat (wrk_lengthVec wrk))%nat ∧ flt (image_d wrk room so ro i) d_max = true.
Proof.
  unfold valid_points. rewrite List.filter_In, in_seq. intuition lia.
Qed.

(** *** sortf *)

Lemma sortf_insert_perm before (in_vec : list F) i l :
  sortf_insert before in_vec i l ≡ₚ i :: l.
Proof.
  induction l as [|j l IH]; simpl; [reflexivity|].
  destruct (before (in_vec !!! i) (in_vec !!! j)); [reflexivity|].
  rewrite IH. apply Permutation_swap.
Qed.

Lemma sortf_data_perm before (in_vec : list F) len :
  sortf_data before in_vec len ≡ₚ seq 0 len.
Proof.
  unfold sortf_data. induction (seq 0 len) as [|i l IH]; simpl; [reflexivity|].
  rewrite sortf_insert_perm, IH. reflexivity.
Qed.

Lemma sortf_data_length before (in_vec : list F) len :
  length (sortf_data before in_vec len) = len.
Proof. rewrite sortf_data_perm. apply length_seq. Qed.

Lemma sortf_insert_sorted before (in_vec : list F) i l :
  (∀ j, In j l → key_le before in_vec i j ∨ key_le before in_vec j i) →
  Sorted (key_le before in_vec) l →
  Sorted (key_le before in_vec) (sortf_insert before in_vec i l).
Proof.
  intros Htot Hs. induction Hs as [|j l Hs IH Hhd]; simpl.
  - repeat constructor.
  - destruct (before (in_vec !!! i) (in_vec !!! j)) eqn:Hij.
    + constructor; [constructor; assumption|]. constructor. exact Hij.
    + constructor.
      * apply IH. intros k Hk. apply Htot. right. exact Hk.
      * destruct (Htot j (or_introl eq_refl)) as [Hc|Hji];
          [unfold key_le in Hc; congruence|].
        destruct Hhd as [|k l' Hjk]; simpl.
        -- constructor. exact Hji.
        -- destruct (before (in_vec !!! i) (in_vec !!! k));
             constructor; assumption.
Qed.

Lemma sortf_data_sorted before (in_vec : list F) len :
  (∀ i j, (i < len)%nat → (j < len)%nat →
          key_le before in_vec i j ∨ key_le before in_vec j i) →
  Sorted (key_le before in_vec) (sortf_data before in_vec len).
Proof.
  intros Htot. unfold sortf_data.
  assert (Hlt : ∀ i, In i (seq 0 len) → (i < len)%nat)
    by (intros i Hi; apply in_seq in Hi; lia).
  induction (seq 0 len) as [|i l IH]; simpl; [constructor|].
  apply sortf_insert_sorted.
  - intros j Hj. apply Htot; [apply Hlt; left; reflexivity|].
    apply Hlt. right.
    assert (Hp : foldr (sortf_insert before in_vec) [] l ≡ₚ l).
    { clear. induction l as [|k l IH]; simpl; [reflexivity|].
      rewrite sortf_insert_perm, IH. reflexivity. }
    apply list_elem_of_In. rewrite <- Hp. apply list_elem_of_In. exact Hj.
  - apply IH. intros k Hk. apply Hlt. right. exact Hk.
Qed.

Lemma Sorted_consecutive {A} (R : A → A → Prop) (l : list A) k a b :
  Sorted R l → l !! k = Some a → l !! S k = Some b → R a b.
Proof.
  intros Hs. revert k. induction Hs as [|x l Hs IH Hhd]; intros k Ha Hb; [done|].
  destruct k as [|k]; simpl in *.
  - injection Ha as ->. destruct Hhd as [|y l' Hxy]; [done|].
    simpl in Hb. injection Hb as ->. exact Hxy.
  - eapply IH; eassumption.
Qed.

Lemma update_echogram_wf wrk room so ro d_max c_ms :
  lattice_wf wrk → echogram_wf (wrk_hEchogram wrk) →
  lattice_wf (update_echogram wrk room so ro d_max c_ms)
  ∧ echogram_wf (wrk_hEchogram (update_echogram wrk room so ro d_max c_ms)).
Proof.
  intros Hl He. rewrite update_echogram_eq by assumption. destruct Hl.
  split; split; simpl;
    rewrite ?length_map, ?sortf_data_length, ?length_seq, ?Nat2Z.id;
    try done; try lia.
  apply Forall_forall. intros row Hrow.
  apply list_elem_of_fmap in Hrow as (i & -> & _). reflexivity.
Qed.

Lemma coreInit_wf wrk room src rec maxTime_s c_ms :
  lattice_wf wrk → echogram_wf (wrk_hEchogram wrk) →
  lattice_wf (ims_shoebox_coreInit wrk room src rec maxTime_s c_ms)
  ∧ echogram_wf (wrk_hEchogram (ims_shoebox_coreInit wrk room src rec maxTime_s c_ms)).
Proof.
  intros Hl He. unfold ims_shoebox_coreInit.
  pose proof (refresh_indices_wf wrk room (fmul maxTime_s c_ms) Hl) as Hl1.
  pose proof (refresh_indices_hEchogram wrk room (fmul maxTime_s c_ms)) as He1.
  destruct (echogram_changed _ _ _ _).
  - apply update_echogram_wf; [assumption|]. rewrite He1. assumption.
  - split; [assumption|]. rewrite He1. assumption.
Qed.

(** C1: when a call recomputes the echogram, [numImageSources] is the
    number of lattice points whose distance to the receiver is strictly
    below [d_max] (a point at distance [d_max] exactly is not counted),
    and the raw echogram holds that many arrivals on one channel. *)
Theorem coreInit_numImageSources wrk room src rec maxTime_s c_ms :
  let d_max := fmul maxTime_s c_ms in
  let so := centre room src in
  let ro := centre room rec in
  let wrk' := ims_shoebox_coreInit wrk room src rec maxTime_s c_ms in
  let pts := valid_points wrk' room so ro d_max in
  lattice_wf wrk → echogram_wf (wrk_hEchogram wrk) →
  (∀ a : F, flt a a = false) →
  echogram_changed (refresh_indices wrk room d_max) room so ro = true →
  wrk_numImageSources wrk' = Z.of_nat (length pts)
  ∧ (∀ i, In i pts ↔ (i < Z.to_nat (wrk_lengthVec wrk'))%nat
                      ∧ flt (image_d wrk' room so ro i) d_max = true)
  ∧ (∀ i, image_d wrk' room so ro i = d_max → ¬ In i pts)
  ∧ wrk_s_d wrk' = map (image_d wrk' room so ro) (seq 0 (Z.to_nat (wrk_lengthVec wrk')))
  ∧ ec_numImageSources (wrk_hEchogram wrk') = Z.of_nat (length pts)
  ∧ ec_nChannels (wrk_hEchogram wrk') = 1
  ∧ echogram_wf (wrk_hEchogram wrk').
Proof.
  intros d_max so ro wrk' pts Hl He Hirr Hch.
  assert (Hwf : echogram_wf (wrk_hEchogram wrk')) by (apply coreInit_wf; assumption).
  assert (Hin : ∀ i, In i pts ↔ (i < Z.to_nat (wrk_lengthVec wrk'))%nat
                                 ∧ flt (image_d wrk' room so ro i) d_max = true)
    by (intros i; apply valid_points_In).
  assert (Eq : wrk' = update_echogram (refresh_indices wrk room d_max) room so ro d_max c_ms)
    by (apply coreInit_recomputed; exact Hch).
  pose proof (refresh_indices_wf wrk room d_max Hl) as Hl1.
  pose proof He as He1. rewrite <- (refresh_indices_hEchogram wrk room d_max) in He1.
  rewrite update_echogram_eq in Eq by assumption.
  refine (conj _ (conj Hin (conj _ (conj _ (conj _ (conj _ Hwf)))))).
  - unfold pts. rewrite Eq. reflexivity.
  - intros i Hi Hp. apply Hin in Hp as [_ Hp]. rewrite Hi, Hirr in Hp. discriminate.
  - rewrite Eq. reflexivity.
  - unfold pts. rewrite Eq. reflexivity.
  - rewrite Eq. reflexivity.
Qed.

(** C2: a second call with the inputs of the call before it finds
    nothing changed and leaves the workspace as it is. *)
Theorem coreInit_memoized wrk room src rec maxTime_s c_ms :
  let d_max := fmul maxTime_s c_ms in
  let so := centre room src in
  let ro := centre room rec in
  let wrk' := ims_shoebox_coreInit wrk room src rec maxTime_s c_ms in
  feq d_max d_max = true →
  feq (pos_x so) (pos_x so) = true → feq (pos_y so) (pos_y so) = true →
  feq (pos_z so) (pos_z so) = true →
  feq (pos_x ro) (pos_x ro) = true → feq (pos_y ro) (pos_y ro) = true →
  feq (pos_z ro) (pos_z ro) = true →
  indices_changed wrk' room d_max = false
  ∧ echogram_changed wrk' room so ro = false
  ∧ ims_shoebox_coreInit wrk' room src rec maxTime_s c_ms = wrk'.
Proof.
  intros d_max so ro wrk' Hd Hsx Hsy Hsz Hrx Hry Hrz.
  pose proof (refresh_indices_current wrk room d_max Hd) as Hi1.
  assert (Hi : indices_changed wrk' room d_max = false).
  { unfold wrk', ims_shoebox_coreInit. fold d_max so ro.
    destruct (echogram_changed (refresh_indices wrk room d_max) room so ro);
      [|exact Hi1].
    destruct (update_echogram_fields (refresh_indices wrk room d_max) room so ro d_max c_ms)
      as (Ed & Er & _).
    unfold indices_changed in *. rewrite Ed, Er, !Z.eqb_refl.
    destruct (fne _ d_max); [discriminate|reflexivity]. }
  assert (He : echogram_changed wrk' room so ro = false).
  { unfold wrk', ims_shoebox_coreInit. fold d_max so ro.
    destruct (echogram_changed (refresh_indices wrk room d_max) room so ro) eqn:Hch;
      [|exact Hch].
    destruct (update_echogram_fields (refresh_indices wrk room d_max) room so ro d_max c_ms)
      as (_ & Er & Es & Ere).
    unfold echogram_changed, fne. rewrite Er, Es, Ere, !Z.eqb_refl.
    rewrite Hsx, Hsy, Hsz, Hrx, Hry, Hrz. reflexivity. }
  split; [exact Hi|]. split; [exact He|].
  unfold ims_shoebox_coreInit at 1. fold d_max so ro.
  unfold refresh_indices. rewrite Hi, He. reflexivity.
Qed.

(** When the centred source or receiver differs from the cached one, the
    coordinates and distances of all lattice points are recomputed by the
    mirroring formula and the echogram is rebuilt from them. *)
Lemma coreInit_position_change wrk room src rec maxTime_s c_ms :
  let d_max := fmul maxTime_s c_ms in
  let so := centre room src in
  let ro := centre room rec in
  let wrk' := ims_shoebox_coreInit wrk room src rec maxTime_s c_ms in
  let n := Z.to_nat (wrk_lengthVec wrk') in
  lattice_wf wrk → echogram_wf (wrk_hEchogram wrk) →
  fne (pos_x (wrk_rec wrk)) (pos_x ro) || fne (pos_y (wrk_rec wrk)) (pos_y ro)
  || fne (pos_z (wrk_rec wrk)) (pos_z ro) || fne (pos_x (wrk_src wrk)) (pos_x so)
  || fne (pos_y (wrk_src wrk)) (pos_y so) || fne (pos_z (wrk_src wrk)) (pos_z so) = true →
  wrk_s_x wrk' = map (image_x wrk' room so ro) (seq 0 n)
  ∧ wrk_s_y wrk' = map (image_y wrk' room so ro) (seq 0 n)
  ∧ wrk_s_z wrk' = map (image_z wrk' room so ro) (seq 0 n)
  ∧ wrk_s_d wrk' = map (image_d wrk' room so ro) (seq 0 n)
  ∧ ec_coords (wrk_hEchogram wrk')
    = map (λ i, Pos (image_x wrk' room so ro i) (image_y wrk' room so ro i)
                    (image_z wrk' room so ro i))
          (valid_points wrk' room so ro d_max).
Proof.
  intros d_max so ro wrk' n Hl He Hmove.
  assert (Hch : echogram_changed (refresh_indices wrk room d_max) room so ro = true).
  { unfold echogram_changed.
    assert (Es : wrk_src (refresh_indices wrk room d_max) = wrk_src wrk
                 ∧ wrk_rec (refresh_indices wrk room d_max) = wrk_rec wrk).
    { unfold refresh_indices. destruct (indices_changed wrk room d_max); [|auto].
      destruct (update_indices_fields wrk room d_max) as (_ & _ & E1 & E2 & _). auto. }
    destruct Es as [-> ->]. rewrite Hmove. reflexivity. }
  assert (Eq : wrk' = update_echogram (refresh_indices wrk room d_max) room so ro d_max c_ms)
    by (apply coreInit_recomputed; exact Hch).
  pose proof (refresh_indices_wf wrk room d_max Hl) as Hl1.
  pose proof He as He1. rewrite <- (refresh_indices_hEchogram wrk room d_max) in He1.
  rewrite update_echogram_eq in Eq by assumption.
  unfold n. rewrite Eq. repeat split; reflexivity.
Qed.

Lemma at_int_of_nat {A} `{Inhabited A} (a : list A) (i : nat) :
  at_int a (Z.of_nat i) = a !!! i.
Proof.
  unfold at_int. destruct (Z.ltb_spec (Z.of_nat i) 0); [lia|].
  rewrite Nat2Z.id. reflexivity.
Qed.

(** C5: after a recomputation, [sortedIdx] lists every index below
    [numImageSources] once, the times read through it do not decrease,
    and the arrays themselves hold the arrivals in the order the lattice
    is enumerated. *)
Theorem coreInit_sortedIdx wrk room src rec maxTime_s c_ms :
  let d_max := fmul maxTime_s c_ms in
  let so := centre room src in
  let ro := centre room rec in
  let wrk' := ims_shoebox_coreInit wrk room src rec maxTime_s c_ms in
  let echogram := wrk_hEchogram wrk' in
  let n := Z.to_nat (ec_numImageSources echogram) in
  let pts := valid_points wrk' room so ro d_max in
  lattice_wf wrk → echogram_wf (wrk_hEchogram wrk) →
  (∀ a b : F, feq a a = true → feq b b = true → fle a b = true ∨ fle b a = true) →
  Forall (λ t, feq t t = true) (ec_time echogram) →
  echogram_changed (refresh_indices wrk room d_max) room so ro = true →
  ec_sortedIdx echogram ≡ₚ map Z.of_nat (seq 0 n)
  ∧ (∀ i, (S i < n)%nat →
          fle (at_int (ec_time echogram) (ec_sortedIdx echogram !!! i))
              (at_int (ec_time echogram) (ec_sortedIdx echogram !!! S i)) = true)
  ∧ ec_time echogram = map (λ i, fdiv (image_d wrk' room so ro i) c_ms) pts
  ∧ ec_value echogram = map (λ i, [arrival_gain (image_d wrk' room so ro i)]) pts
  ∧ ec_order echogram
    = map (λ i, arrival_order (wrk_II wrk' !!! i) (wrk_JJ wrk' !!! i) (wrk_KK wrk' !!! i))
          pts
  ∧ ec_coords echogram
    = map (λ i, Pos (image_x wrk' room so ro i) (image_y wrk' room so ro i)
                    (image_z wrk' room so ro i)) pts.
Proof.
  intros d_max so ro wrk' echogram n pts Hl He Htot Hnan Hch.
  assert (Eq : wrk' = update_echogram (refresh_indices wrk room d_max) room so ro d_max c_ms)
    by (apply coreInit_recomputed; exact Hch).
  pose proof (refresh_indices_wf wrk room d_max Hl) as Hl1.
  pose proof He as He1. rewrite <- (refresh_indices_hEchogram wrk room d_max) in He1.
  rewrite update_echogram_eq in Eq by assumption.
  set (pts1 := valid_points (refresh_indices wrk room d_max) room so ro d_max) in Eq.
  assert (Epts : pts = pts1) by (unfold pts; rewrite Eq; reflexivity).
  assert (En : n = length pts1) by (unfold n, echogram; rewrite Eq; simpl; lia).
  assert (Etime : ec_time echogram
                  = map (λ i, fdiv (image_d wrk' room so ro i) c_ms) pts).
  { rewrite Epts. unfold echogram. rewrite Eq. reflexivity. }
  assert (Esort : ec_sortedIdx echogram
                  = map Z.of_nat (sortf_data fle (ec_time echogram) n)).
  { rewrite En. unfold echogram. rewrite Eq. reflexivity. }
  assert (Hlen : length (ec_time echogram) = n).
  { rewrite Etime, length_map, Epts. symmetry. exact En. }
  refine (conj _ (conj _ (conj Etime (conj _ (conj _ _))))).
  - rewrite Esort. apply fmap_Permutation. apply sortf_data_perm.
  - intros i Hi. rewrite Esort.
    rewrite !(list_lookup_total_fmap Z.of_nat (sortf_data fle (ec_time echogram) n))
      by (rewrite sortf_data_length; lia).
    rewrite !at_int_of_nat.
    assert (Hs : Sorted (key_le fle (ec_time echogram))
                        (sortf_data fle (ec_time echogram) n)).
    { apply sortf_data_sorted. intros j k Hj Hk. apply Htot.
      - apply (Forall_lookup_1 _ _ j _ Hnan).
        apply list_lookup_lookup_total_lt. lia.
      - apply (Forall_lookup_1 _ _ k _ Hnan).
        apply list_lookup_lookup_total_lt. lia. }
    apply (Sorted_consecutive _ _ i _ _ Hs);
      apply list_lookup_lookup_total_lt; rewrite sortf_data_length; lia.
  - rewrite Epts. unfold echogram. rewrite Eq. reflexivity.
  - rewrite Epts. unfold echogram. rewrite Eq. reflexivity.
  - rewrite Epts. unfold echogram. rewrite Eq. reflexivity.
Qed.

End CoreInit.

(** ** The directivity encoder *)

Section RecModule.
Context {F : Type} `{FloatOps F} `{MathOps F} `{Indeterminate F} `{Collaborators F}.

#[local] Existing Instance float_inhabited.
#[local] Existing Instance pos_inhabited.
#[local] Existing Instance int3_inhabited.

Lemma ORDER2NSH_nonneg sh_order : 0 ≤ ORDER2NSH sh_order.
Proof. unfold ORDER2NSH. nia. Qed.

(** Lines 323-326: the three components, one by one. *)
Lemma rec_copy_components (order : list int3) (coords : list (ims_pos_xyz F))
    (i : nat) (o : int3) (c : ims_pos_xyz F) :
  (i < length order)%nat → (i < length coords)%nat →
  for_loop 3
    (λ j '(order, coords),
       (<[i := int3_set (order !!! i) j (int3_get o j)]> order,
        <[i := pos_set_v (coords !!! i) j (pos_v c j)]> coords))
    (order, coords)
  = (<[i := o]> order, <[i := c]> coords).
Proof.
  intros Ho Hc. unfold for_loop. simpl.
  rewrite !list_lookup_total_insert_eq by (rewrite ?length_insert; assumption).
  rewrite !list_insert_insert_eq.
  destruct o, c. reflexivity.
Qed.

(** Lines 321-328. *)
Lemma rec_copy_loop (echogram echogram_rec : echogram_data F) (n : nat) :
  (n ≤ length (ec_time echogram_rec))%nat →
  (n ≤ length (ec_order echogram_rec))%nat →
  (n ≤ length (ec_coords echogram_rec))%nat →
  (n ≤ length (ec_sortedIdx echogram_rec))%nat →
  for_loop n (rec_copy_body echogram) echogram_rec
  = Echogram (ec_numImageSources echogram_rec) (ec_nChannels echogram_rec)
      (ec_value echogram_rec)
      (fill (λ i, at_int (ec_time echogram) (ec_sortedIdx echogram !!! i)) n
            (ec_time echogram_rec))
      (fill (λ i, at_int (ec_order echogram) (ec_sortedIdx echogram !!! i)) n
            (ec_order echogram_rec))
      (fill (λ i, at_int (ec_coords echogram) (ec_sortedIdx echogram !!! i)) n
            (ec_coords echogram_rec))
      (fill Z.of_nat n (ec_sortedIdx echogram_rec)).
Proof.
  intros Ht Ho Hc Hs. induction n as [|n IH].
  - unfold fill. simpl. rewrite !drop_0. destruct echogram_rec; reflexivity.
  - rewrite for_loop_S, IH by lia. unfold rec_copy_body.
    cbn [ec_time ec_order ec_coords ec_sortedIdx ec_value ec_numImageSources
         ec_nChannels].
    rewrite rec_copy_components by (rewrite fill_length; lia).
    rewrite at_int_of_nat.
    rewrite <- !fill_S by lia. reflexivity.
Qed.

(** Lines 332-333, on rows of one channel. *)
Lemma rec_omni_loop (echogram : echogram_data F) (value : list (list F)) (n : nat) :
  (n ≤ length value)%nat → Forall (λ row, length row = 1%nat) value →
  for_loop n (rec_omni_body echogram) value
  = fill (λ i, [at_int (ec_value echogram) (ec_sortedIdx echogram !!! i) !!! O]) n value.
Proof.
  intros Hn Hrows. induction n as [|n IH].
  - unfold fill. simpl. rewrite drop_0. reflexivity.
  - rewrite for_loop_S, IH by lia. unfold rec_omni_body.
    rewrite at_int_of_nat. rewrite <- fill_S by lia. f_equal.
    assert (Hrow : length (fill
              (λ i, [at_int (ec_value echogram) (ec_sortedIdx echogram !!! i) !!! O])
              n value !!! n) = 1%nat).
    { unfold fill. rewrite lookup_total_app_r by (rewrite length_map, length_seq; lia).
      rewrite length_map, length_seq, Nat.sub_diag, lookup_total_drop, Nat.add_0_r.
      apply (Forall_lookup_1 _ _ n _ Hrows). apply list_lookup_lookup_total_lt. lia. }
    destruct (fill _ n value !!! n) as [|v [|? ?]]; simpl in Hrow; try lia.
    reflexivity.
Qed.

(** The value loops leave the other arrays alone: the encoded echogram
    after the call. *)
Lemma coreRecModuleSH_rec wrk sh_order :
  echogram_wf (wrk_hEchogram wrk) → echogram_wf (wrk_hEchogram_rec wrk) →
  let echogram := wrk_hEchogram wrk in
  let n := Z.to_nat (ec_numImageSources echogram) in
  let rec' := wrk_hEchogram_rec (ims_shoebox_coreRecModuleSH wrk sh_order) in
  ec_numImageSources rec' = ec_numImageSources echogram
  ∧ ec_nChannels rec' = ORDER2NSH sh_order
  ∧ ec_time rec'
    = map (λ i, at_int (ec_time echogram) (ec_sortedIdx echogram !!! i)) (seq 0 n)
  ∧ ec_order rec'
    = map (λ i, at_int (ec_order echogram) (ec_sortedIdx echogram !!! i)) (seq 0 n)
  ∧ ec_coords rec'
    = map (λ i, at_int (ec_coords echogram) (ec_sortedIdx echogram !!! i)) (seq 0 n)
  ∧ ec_sortedIdx rec' = map Z.of_nat (seq 0 n)
  ∧ (sh_order = 0 →
     ec_value rec'
     = map (λ i, [at_int (ec_value echogram) (ec_sortedIdx echogram !!! i) !!! O])
           (seq 0 n)).
Proof.
  intros He Hr echogram n rec'.
  pose proof (ORDER2NSH_nonneg sh_order) as Hc.
  pose proof (ewf_n _ He) as Hn.
  pose proof (echogramResize_wf (wrk_hEchogram_rec wrk)
                (ec_numImageSources echogram) (ORDER2NSH sh_order) Hn Hc Hr) as Hwf.
  destruct (echogramResize_dims (wrk_hEchogram_rec wrk)
              (ec_numImageSources echogram) (ORDER2NSH sh_order)) as [Hdn Hdc].
  unfold rec', ims_shoebox_coreRecModuleSH. simpl.
  fold echogram.
  set (r := ims_shoebox_echogramResize (wrk_hEchogram_rec wrk)
              (ec_numImageSources echogram) (ORDER2NSH sh_order)) in *.
  destruct Hwf as [_ _ Hv Hrows Ht Ho Hco Hs].
  rewrite Hdn in *. fold n in Hv, Ht, Ho, Hco, Hs. fold n.
  rewrite rec_copy_loop by lia. simpl.
  rewrite !fill_all by assumption.
  rewrite Hdn, Hdc.
  repeat (split; [reflexivity|]).
  intros ->. rewrite Z.eqb_refl.
  rewrite rec_omni_loop; [apply fill_all; assumption|lia|].
  rewrite Hdc in Hrows. exact Hrows.
Qed.

(** C6: after the encoder has run, the times of the encoded echogram do
    not decrease along the array, its [sortedIdx] is the identity, and
    its times, orders and coordinates are those of the raw echogram
    read through the raw echogram's [sortedIdx]. *)
Theorem coreRecModuleSH_time_ordered wrk sh_order :
  let echogram := wrk_hEchogram wrk in
  let n := Z.to_nat (ec_numImageSources echogram) in
  let rec' := wrk_hEchogram_rec (ims_shoebox_coreRecModuleSH wrk sh_order) in
  echogram_wf echogram → echogram_wf (wrk_hEchogram_rec wrk) →
  (∀ i, (S i < n)%nat →
        fle (at_int (ec_time echogram) (ec_sortedIdx echogram !!! i))
            (at_int (ec_time echogram) (ec_sortedIdx echogram !!! S i)) = true) →
  ec_numImageSources rec' = ec_numImageSources echogram
  ∧ (∀ i, (S i < n)%nat → fle (ec_time rec' !!! i) (ec_time rec' !!! S i) = true)
  ∧ ec_sortedIdx rec' = map Z.of_nat (seq 0 n)
  ∧ ec_time rec'
    = map (λ i, at_int (ec_time echogram) (ec_sortedIdx echogram !!! i)) (seq 0 n)
  ∧ ec_order rec'
    = map (λ i, at_int (ec_order echogram) (ec_sortedIdx echogram !!! i)) (seq 0 n)
  ∧ ec_coords rec'
    = map (λ i, at_int (ec_coords echogram) (ec_sortedIdx echogram !!! i)) (seq 0 n).
Proof.
  intros echogram n rec' He Hr Hsorted.
  destruct (coreRecModuleSH_rec wrk sh_order He Hr) as (En & _ & Et & Eo & Ec & Es & _).
  fold echogram n rec' in En, Et, Eo, Ec, Es.
  refine (conj En (conj _ (conj Es (conj Et (conj Eo Ec))))).
  intros i Hi. rewrite Et.
  rewrite !(seq_lookup_map _ n) by lia. apply Hsorted. exact Hi.
Qed.

(** C7: at spherical-harmonic order 0 the encoded echogram has one
    channel, and the gain of each arrival is the gain of the raw
    echogram read through [sortedIdx], with no weight applied. *)
Theorem coreRecModuleSH_order0 wrk :
  let echogram := wrk_hEchogram wrk in
  let n := Z.to_nat (ec_numImageSources echogram) in
  let rec' := wrk_hEchogram_rec (ims_shoebox_coreRecModuleSH wrk 0) in
  echogram_wf echogram → echogram_wf (wrk_hEchogram_rec wrk) →
  ec_nChannels rec' = 1
  ∧ ec_numImageSources rec' = ec_numImageSources echogram
  ∧ ec_value rec'
    = map (λ i, [at_int (ec_value echogram) (ec_sortedIdx echogram !!! i) !!! O])
          (seq 0 n).
Proof.
  intros echogram n rec' He Hr.
  destruct (coreRecModuleSH_rec wrk 0 He Hr) as (En & Ec & _ & _ & _ & _ & Ev).
  fold echogram n rec' in En, Ec, Ev.
  refine (conj Ec (conj En (Ev eq_refl))).
Qed.

End RecModule.

(** ** The absorption module *)

Section Absorption.
Context {F : Type} `{FloatOps F} `{MathOps F} `{Indeterminate F}.

#[local] Existing Instance float_inhabited.
#[local] Existing Instance pos_inhabited.
#[local] Existing Instance int3_inhabited.
#[local] Existing Instance echogram_inhabited.

(** A loop that rewrites cell [b] at turn [b]. *)
Lemma for_loop_scatter {A} `{Inhabited A} (g : nat → A → A) (n : nat) (a : list A) :
  (n ≤ length a)%nat →
  for_loop n (λ b a, <[b := g b (a !!! b)]> a) a = scatter g (seq 0 n) a.
Proof.
  induction n as [|n IH]; intros Hn.
  - unfold scatter. simpl. rewrite drop_0. reflexivity.
  - rewrite for_loop_S, IH by lia.
    pose proof (scatter_next g (seq 0 n) a) as Hnext.
    pose proof (scatter_snoc g (seq 0 n) n a) as Hsnoc.
    rewrite length_seq in Hnext, Hsnoc.
    rewrite Hnext, Hsnoc by lia. rewrite seq_S. reflexivity.
Qed.

Lemma scatter_seq_lookup {A} `{Inhabited A} (g : nat → A → A) (n b : nat) (a : list A) :
  (b < n)%nat → (n ≤ length a)%nat → scatter g (seq 0 n) a !!! b = g b (a !!! b).
Proof.
  intros Hb Hn. unfold scatter. rewrite length_seq.
  rewrite lookup_total_app_l
    by (rewrite length_zip_with, length_seq, length_take; lia).
  apply list_lookup_total_correct. apply lookup_zip_with_Some.
  exists b, (a !!! b). split; [reflexivity|]. split.
  - apply lookup_seq_lt. lia.
  - rewrite lookup_take_lt by lia. apply list_lookup_lookup_total_lt. lia.
Qed.

Lemma memcpy_all {A} (dst src : list A) (n : Z) :
  length dst = Z.to_nat n → length src = Z.to_nat n → memcpy dst src n = src.
Proof.
  intros Hd Hs. unfold memcpy. rewrite <- Hs at 1.
  rewrite firstn_all, drop_ge, app_nil_r by lia. reflexivity.
Qed.

(** Lossless walls: the laws of the arithmetic the module relies on. *)
Section Lossless.
Hypothesis sqrt_one : sqrtf (fsub (of_int 1) (of_int 0)) = of_int 1.
Hypothesis pow_one : ∀ y : F, powf (of_int 1) y = of_int 1.
Hypothesis mul_one_one : fmul (of_int 1) (of_int 1) = of_int 1.

Lemma axis_absorption_lossless (m : Z) :
  axis_absorption (of_int 1) (of_int 1) m = of_int 1.
Proof.
  unfold axis_absorption.
  destruct (Z.rem m 2 =? 0); [|destruct (0 <? m)];
    rewrite !pow_one; exact mul_one_one.
Qed.

Lemma total_absorption_lossless (a : list F) (order : int3) :
  a = replicate 6 (of_int 0) →
  total_absorption (reflection_pair a 0 1) (reflection_pair a 2 3)
                   (reflection_pair a 4 5) order = of_int 1.
Proof.
  intros ->. unfold total_absorption, reflection_pair. simpl.
  rewrite !sqrt_one, !axis_absorption_lossless, !mul_one_one. reflexivity.
Qed.

Lemma utility_svsmul_one (row : list F) (len : Z) :
  Forall (λ v, fmul v (of_int 1) = v) row → utility_svsmul row (of_int 1) len = row.
Proof.
  intros Hrow. unfold utility_svsmul.
  rewrite <- (take_drop (Z.to_nat len) row) at 3. f_equal.
  apply Forall_take with (n := Z.to_nat len) in Hrow.
  induction Hrow as [|v l Hv _ IH]; simpl; [reflexivity|]. rewrite Hv, IH. reflexivity.
Qed.

Lemma absorption_echogram_lossless echogram_rec abs_wall band echogram_abs :
  echogram_wf echogram_rec → echogram_wf echogram_abs →
  abs_wall !!! band = replicate 6 (of_int 0) →
  Forall (Forall (λ v, fmul v (of_int 1) = v)) (ec_value echogram_rec) →
  absorption_echogram echogram_rec abs_wall band echogram_abs = echogram_rec.
Proof.
  intros Hr Ha Hzero Hgain. unfold absorption_echogram.
  pose proof (echogramResize_wf echogram_abs (ec_numImageSources echogram_rec)
                (ec_nChannels echogram_rec) (ewf_n _ Hr) (ewf_c _ Hr) Ha) as Hwf.
  destruct (echogramResize_dims echogram_abs (ec_numImageSources echogram_rec)
              (ec_nChannels echogram_rec)) as [Hdn Hdc].
  set (r := ims_shoebox_echogramResize echogram_abs (ec_numImageSources echogram_rec)
              (ec_nChannels echogram_rec)) in *.
  destruct Hwf as [_ _ Hv _ Ht Ho Hco Hs]. destruct Hr as [_ _ Hv' _ Ht' Ho' Hco' Hs'].
  rewrite Hdn in *. rewrite Hdc.
  rewrite !memcpy_all by assumption.
  apply (for_loop_ind (λ _ ec, ec = echogram_rec)).
  - destruct echogram_rec; reflexivity.
  - intros i ec Hi ->. unfold absorption_body.
    rewrite total_absorption_lossless by exact Hzero.
    rewrite utility_svsmul_one.
    + rewrite list_insert_id; [destruct echogram_rec; reflexivity|].
      apply list_lookup_lookup_total_lt. lia.
    + apply (Forall_lookup_1 _ _ i _ Hgain). apply list_lookup_lookup_total_lt. lia.
Qed.

(** C8: when the six absorption coefficients of a band are 0, the
    attenuation of every arrival is 1 whatever its reflection orders,
    and the echogram of the band is the encoded echogram, gain for
    gain. *)
Theorem coreAbsorptionModule_lossless wrk abs_wall band :
  let echogram_rec := wrk_hEchogram_rec wrk in
  let a := abs_wall !!! band in
  let wrk' := ims_shoebox_coreAbsorptionModule wrk abs_wall in
  echogram_wf echogram_rec →
  length (wrk_hEchogram_abs wrk) = Z.to_nat (wrk_nBands wrk) →
  Forall echogram_wf (wrk_hEchogram_abs wrk) →
  (band < Z.to_nat (wrk_nBands wrk))%nat →
  a = replicate 6 (of_int 0) →
  Forall (Forall (λ v, fmul v (of_int 1) = v)) (ec_value echogram_rec) →
  (∀ order : int3,
     total_absorption (reflection_pair a 0 1) (reflection_pair a 2 3)
                      (reflection_pair a 4 5) order = of_int 1)
  ∧ ec_value (wrk_hEchogram_abs wrk' !!! band) = ec_value echogram_rec
  ∧ wrk_hEchogram_abs wrk' !!! band = echogram_rec.
Proof.
  intros echogram_rec a wrk' Hr Hlen Habs Hband Hzero Hgain.
  assert (Eq : wrk_hEchogram_abs wrk' !!! band = echogram_rec).
  { unfold wrk', ims_shoebox_coreAbsorptionModule. simpl.
    unfold absorption_band.
    rewrite (for_loop_scatter
               (λ b ec, absorption_echogram (wrk_hEchogram_rec wrk) abs_wall b ec))
      by lia.
    rewrite scatter_seq_lookup by lia.
    apply absorption_echogram_lossless; try assumption.
    apply (Forall_lookup_1 _ _ band _ Habs). apply list_lookup_lookup_total_lt. lia. }
  split; [intros order; apply total_absorption_lossless; exact Hzero|].
  split; [rewrite Eq; reflexivity|exact Eq].
Qed.

End Lossless.

End Absorption.

(** ** The impulse trains of the renderer *)

Section Render.
Context {F : Type} `{FloatOps F} `{Indeterminate F} `{Collaborators F}.

#[local] Existing Instance float_inhabited.
#[local] Existing Instance echogram_inhabited.

Lemma set_int_length {A} (a : list A) (i : Z) (v : A) :
  length (set_int a i v) = length a.
Proof. unfold set_int. destruct (i <? 0); [reflexivity|apply length_insert]. Qed.

(** Lines 457-461 keep the shape of the buffer. *)
Lemma accumulate_body_shape echogram_abs fs (i : nat) (rir_band : list (list F)) (L : nat) :
  Forall (λ row, length row = L) rir_band →
  length (accumulate_body echogram_abs fs i rir_band) = length rir_band
  ∧ Forall (λ row, length row = L) (accumulate_body echogram_abs fs i rir_band).
Proof.
  intros Hrows. unfold accumulate_body.
  apply (for_loop_ind
           (λ _ r, length r = length rir_band ∧ Forall (λ row, length row = L) r));
    [split; [reflexivity|assumption]|].
  intros j r _ [Hlen Hr]. split; [rewrite length_insert; exact Hlen|].
  destruct (decide (j < length r)%nat) as [Hj|Hj].
  - apply Forall_insert; [assumption|]. rewrite set_int_length.
    apply (Forall_lookup_1 _ _ j _ Hr). apply list_lookup_lookup_total_lt. exact Hj.
  - rewrite list_insert_ge by lia. assumption.
Qed.

(** Lines 451-461: the buffer has one row per channel and
    [rir_len_samples] cells per row. *)
Lemma impulse_train_shape echogram_abs fs (rir_band : list (list F)) :
  length (impulse_train echogram_abs fs rir_band) = Z.to_nat (ec_nChannels echogram_abs)
  ∧ Forall (λ row, length row = Z.to_nat (rir_length_of echogram_abs fs))
           (impulse_train echogram_abs fs rir_band).
Proof.
  unfold impulse_train.
  set (L := Z.to_nat (rir_length_of echogram_abs fs)).
  set (r0 := map (map (λ _, of_int 0))
                 (realloc2d indet_float rir_band (ec_nChannels echogram_abs)
                            (rir_length_of echogram_abs fs))).
  assert (Hlen0 : length r0 = Z.to_nat (ec_nChannels echogram_abs)).
  { unfold r0, realloc2d. rewrite length_map, length_resize. reflexivity. }
  assert (Hrows0 : Forall (λ row, length row = L) r0).
  { unfold r0, realloc2d. apply Forall_fmap. apply Forall_resize.
    - simpl. rewrite length_map, length_replicate. reflexivity.
    - apply Forall_fmap. apply Forall_forall. intros row _. simpl.
      rewrite length_map, length_resize. reflexivity. }
  apply (for_loop_ind
           (λ _ r, length r = Z.to_nat (ec_nChannels echogram_abs)
                   ∧ Forall (λ row, length row = L) r));
    [split; assumption|].
  intros i r _ [Hlen Hr].
  destruct (accumulate_body_shape echogram_abs fs i r L Hr) as [Hl' Hr'].
  split; [rewrite Hl'; exact Hlen|exact Hr'].
Qed.

(** Lines 437-463: the bands, one after the other. *)
Lemma render_bands_loop wrk fs (k : nat) :
  (k ≤ length (wrk_rir_bands wrk))%nat →
  let w := for_loop k (render_band 0 fs) wrk in
  wrk_hEchogram_abs w = wrk_hEchogram_abs wrk
  ∧ wrk_nBands w = wrk_nBands wrk
  ∧ wrk_rir_bands w
    = scatter (λ b old, impulse_train (wrk_hEchogram_abs wrk !!! b) fs old)
              (seq 0 k) (wrk_rir_bands wrk)
  ∧ (∀ k', k = S k' →
           wrk_rir_len_samples w = rir_length_of (wrk_hEchogram_abs wrk !!! k') fs).
Proof.
  induction k as [|k IH]; intros Hk w.
  - refine (conj eq_refl (conj eq_refl (conj _ _))); [|discriminate].
    unfold scatter. simpl. rewrite drop_0. reflexivity.
  - destruct (IH ltac:(lia)) as (Ea & En & Er & _). clear IH.
    unfold w. rewrite for_loop_S. unfold render_band at 1. simpl.
    rewrite Ea, Er.
    pose proof (scatter_next
                  (λ b old, impulse_train (wrk_hEchogram_abs wrk !!! b) fs old)
                  (seq 0 k) (wrk_rir_bands wrk)) as Hnext.
    pose proof (scatter_snoc
                  (λ b old, impulse_train (wrk_hEchogram_abs wrk !!! b) fs old)
                  (seq 0 k) k (wrk_rir_bands wrk)) as Hsnoc.
    rewrite length_seq in Hnext, Hsnoc.
    rewrite Hnext by lia. cbv beta in Hsnoc. rewrite Hsnoc by lia.
    change (O :: seq 1 k) with (seq 0 (S k)). rewrite seq_S. simpl.
    refine (conj eq_refl (conj En (conj eq_refl _))). intros k' [= <-]. reflexivity.
Qed.

Lemma renderRIR_workspace wrk fs H_filt rir :
  fst (ims_shoebox_renderRIR wrk 0 fs H_filt rir)
  = for_loop (Z.to_nat (wrk_nBands wrk)) (render_band 0 fs) wrk.
Proof. reflexivity. Qed.

Lemma renderRIR_band_shape wrk fs H_filt rir (band : nat) :
  let echogram_abs := wrk_hEchogram_abs wrk !!! band in
  let wrk' := fst (ims_shoebox_renderRIR wrk 0 fs H_filt rir) in
  length (wrk_rir_bands wrk) = Z.to_nat (wrk_nBands wrk) →
  (band < Z.to_nat (wrk_nBands wrk))%nat →
  length (wrk_rir_bands wrk' !!! band) = Z.to_nat (ec_nChannels echogram_abs)
  ∧ Forall (λ row, length row = Z.to_nat (rir_length_of echogram_abs fs))
           (wrk_rir_bands wrk' !!! band).
Proof.
  intros echogram_abs wrk' Hlen Hband. unfold wrk'. rewrite renderRIR_workspace.
  destruct (render_bands_loop wrk fs (Z.to_nat (wrk_nBands wrk)) ltac:(lia))
    as (_ & _ & Er & _).
  rewrite Er, scatter_seq_lookup by lia. apply impulse_train_shape.
Qed.

Lemma rir_endtime_last echogram_abs :
  1 ≤ ec_numImageSources echogram_abs →
  length (ec_time echogram_abs) = Z.to_nat (ec_numImageSources echogram_abs) →
  last (ec_time echogram_abs) = Some (rir_endtime echogram_abs)
  ∧ rir_endtime echogram_abs
    = ec_time echogram_abs !!! Z.to_nat (ec_numImageSources echogram_abs - 1).
Proof.
  intros Hn Hlen. unfold rir_endtime, at_int.
  destruct (Z.ltb_spec (ec_numImageSources echogram_abs - 1) 0); [lia|].
  split; [|reflexivity]. rewrite last_lookup.
  replace (pred (length (ec_time echogram_abs)))
    with (Z.to_nat (ec_numImageSources echogram_abs - 1)) by lia.
  apply list_lookup_lookup_total_lt. lia.
Qed.

(** C9, as the code has it: for a band with at least one arrival,
    [endtime] is the time of the last arrival and every channel of the
    band's impulse train has [(int)(endtime * fs + 1.0f) + 1] samples,
    in the arithmetic of the floats as the line is written: one more
    than the integer part of the rounded sum.  The workspace keeps the
    length of the last band. *)
Theorem renderRIR_length wrk fs H_filt rir (band : nat) :
  let echogram_abs := wrk_hEchogram_abs wrk !!! band in
  let wrk' := fst (ims_shoebox_renderRIR wrk 0 fs H_filt rir) in
  length (wrk_rir_bands wrk) = Z.to_nat (wrk_nBands wrk) →
  (band < Z.to_nat (wrk_nBands wrk))%nat →
  1 ≤ ec_numImageSources echogram_abs →
  length (ec_time echogram_abs) = Z.to_nat (ec_numImageSources echogram_abs) →
  ∃ endtime,
    last (ec_time echogram_abs) = Some endtime
    ∧ length (wrk_rir_bands wrk' !!! band) = Z.to_nat (ec_nChannels echogram_abs)
    ∧ Forall (λ row, length row
                     = Z.to_nat (to_int (fadd (fmul endtime fs) (of_int 1)) + 1))
             (wrk_rir_bands wrk' !!! band)
    ∧ (Z.of_nat band = wrk_nBands wrk - 1 →
       wrk_rir_len_samples wrk' = to_int (fadd (fmul endtime fs) (of_int 1)) + 1).
Proof.
  intros echogram_abs wrk' Hlen Hband Hn Htime.
  exists (rir_endtime echogram_abs).
  destruct (rir_endtime_last echogram_abs Hn Htime) as [Hlast _].
  destruct (renderRIR_band_shape wrk fs H_filt rir band Hlen Hband) as [Hch Hrows].
  refine (conj Hlast (conj Hch (conj Hrows _))).
  intros Hb. unfold wrk'. rewrite renderRIR_workspace.
  destruct (render_bands_loop wrk fs (Z.to_nat (wrk_nBands wrk)) ltac:(lia))
    as (_ & _ & _ & El).
  rewrite (El band) by lia. reflexivity.
Qed.

Section InBounds.
Context `{!FiniteArithmetic F}.

Lemma val_nonneg (t : F) : proper t → fle (of_int 0) t = true → (0 <= val t)%Q.
Proof.
  intros Ht Hle. destruct proper_zero as [P0 V0].
  pose proof (val_le _ _ P0 Ht Hle). lra.
Qed.

Lemma time_val_mono echogram_abs (i j : nat) :
  Forall proper (ec_time echogram_abs) →
  (j < length (ec_time echogram_abs))%nat →
  (∀ k, (S k < length (ec_time echogram_abs))%nat →
        fle (ec_time echogram_abs !!! k) (ec_time echogram_abs !!! S k) = true) →
  (i ≤ j)%nat →
  (val (ec_time echogram_abs !!! i) <= val (ec_time echogram_abs !!! j))%Q.
Proof.
  intros Hp Hj Hstep Hij. induction j as [|j IH].
  - replace i with O by lia. lra.
  - destruct (decide (i = S j)) as [->|Hne]; [lra|].
    apply Qle_trans with (val (ec_time echogram_abs !!! j)).
    + apply IH; lia.
    + apply val_le.
      * apply (Forall_lookup_1 _ _ j _ Hp), list_lookup_lookup_total_lt. lia.
      * apply (Forall_lookup_1 _ _ (S j) _ Hp), list_lookup_lookup_total_lt. lia.
      * apply Hstep. lia.
Qed.

(** C10: on the path without fractional delays, for a band that holds
    at least one arrival, whose times are finite floats, not negative
    and not decreasing, and a sample rate that is a finite float and
    not negative: if no product [time * fs] and no sum [time * fs +
    0.5f] or [endtime * fs + 1.0f] overflows the floats and the length
    fits an [int], then the sample every arrival is added to lies in
    the band's impulse train, and the read of [endtime] lies in the
    array of times. *)
Theorem renderRIR_in_bounds wrk fs H_filt rir (band i : nat) :
  let echogram_abs := wrk_hEchogram_abs wrk !!! band in
  let n := Z.to_nat (ec_numImageSources echogram_abs) in
  let wrk' := fst (ims_shoebox_renderRIR wrk 0 fs H_filt rir) in
  length (wrk_rir_bands wrk) = Z.to_nat (wrk_nBands wrk) →
  (band < Z.to_nat (wrk_nBands wrk))%nat →
  1 ≤ ec_numImageSources echogram_abs →
  length (ec_time echogram_abs) = n →
  proper fs →
  fle (of_int 0) fs = true →
  Forall proper (ec_time echogram_abs) →
  Forall (λ t, fle (of_int 0) t = true) (ec_time echogram_abs) →
  (∀ k, (S k < n)%nat →
        fle (ec_time echogram_abs !!! k) (ec_time echogram_abs !!! S k) = true) →
  Forall (λ t, finite (fadd (fmul t fs) f_half)) (ec_time echogram_abs) →
  finite (fadd (fmul (rir_endtime echogram_abs) fs) (of_int 1)) →
  rir_length_of echogram_abs fs ≤ 2147483647 →
  (i < n)%nat →
  (0 ≤ refl_index echogram_abs fs i
   ∧ refl_index echogram_abs fs i < rir_length_of echogram_abs fs
   ∧ rir_length_of echogram_abs fs ≤ 2147483647)
  ∧ Forall (λ row, (Z.to_nat (refl_index echogram_abs fs i) < length row)%nat)
           (wrk_rir_bands wrk' !!! band)
  ∧ 0 ≤ ec_numImageSources echogram_abs - 1
  ∧ (Z.to_nat (ec_numImageSources echogram_abs - 1) < length (ec_time echogram_abs))%nat.
Proof.
  intros echogram_abs n wrk' Hlen Hband Hn Htime Hfsp Hfs Hprop Hpos Hmono
         Hfin Hend Hint Hi.
  destruct (rir_endtime_last echogram_abs Hn Htime) as [_ Eend].
  replace (Z.to_nat (ec_numImageSources echogram_abs - 1)) with (n - 1)%nat in Eend
    by (unfold n; lia).
  assert (Hlk : ∀ k, (k < n)%nat →
            ec_time echogram_abs !! k = Some (ec_time echogram_abs !!! k)).
  { intros k Hk. apply list_lookup_lookup_total_lt. lia. }
  set (t := ec_time echogram_abs !!! i).
  set (tn := ec_time echogram_abs !!! (n - 1)%nat).
  assert (Pt : proper t) by (apply (Forall_lookup_1 _ _ i _ Hprop), Hlk; lia).
  assert (Ptn : proper tn)
    by (apply (Forall_lookup_1 _ _ (n - 1)%nat _ Hprop), Hlk; lia).
  assert (Vfs : (0 <= val fs)%Q) by (apply val_nonneg; assumption).
  assert (Vt : (0 <= val t)%Q).
  { apply val_nonneg; [exact Pt|].
    apply (Forall_lookup_1 _ _ i _ Hpos), Hlk. lia. }
  assert (Vtn : (val t <= val tn)%Q).
  { apply time_val_mono; [exact Hprop|lia| |lia].
    intros k Hk. apply Hmono. lia. }
  destruct proper_half as [Ph Vh]. destruct proper_one as [P1 V1].
  assert (Fs : finite (fadd (fmul t fs) f_half)).
  { apply (Forall_lookup_1 _ _ i _ Hfin), Hlk. lia. }
  assert (Fsn : finite (fadd (fmul tn fs) f_half)).
  { apply (Forall_lookup_1 _ _ (n - 1)%nat _ Hfin), Hlk. lia. }
  rewrite Eend in Hend. fold tn in Hend.
  assert (Fp : finite (fmul t fs)) by (apply (fadd_finite _ f_half); assumption).
  assert (Fpn : finite (fmul tn fs)) by (apply (fadd_finite _ f_half); assumption).
  destruct (fmul_val t tn fs Pt Ptn Hfsp Vt Vtn Vfs Fp Fpn) as [Vp Vpn].
  destruct (fadd_val (fmul t fs) (fmul tn fs) f_half (of_int 1)
              Fp Fpn Ph P1 Vp Vpn ltac:(lra) ltac:(lra) Fs Hend) as [Vs Vsn].
  assert (Hlo : 0 ≤ refl_index echogram_abs fs i).
  { unfold refl_index. fold t. rewrite (to_int_val _ Fs Vs).
    change 0 with (Qfloor 0). apply Qfloor_resp_le. exact Vs. }
  assert (Hhi : refl_index echogram_abs fs i < rir_length_of echogram_abs fs).
  { unfold rir_length_of, refl_index. rewrite Eend. fold t tn.
    rewrite (to_int_val _ Fs Vs), (to_int_val _ Hend ltac:(lra)).
    pose proof (Qfloor_resp_le _ _ Vsn). lia. }
  destruct (renderRIR_band_shape wrk fs H_filt rir band Hlen Hband) as [_ Hrows].
  refine (conj (conj Hlo (conj Hhi Hint)) (conj _ (conj _ _))).
  - eapply Forall_impl; [exact Hrows|]. intros row Hrow. simpl in Hrow.
    rewrite Hrow. fold echogram_abs. lia.
  - lia.
  - lia.
Qed.

End InBounds.

End Render.

(** ** Facts about binary32 *)

Section Binary32Facts.
Import Binary32.

Lemma b32_compare_refl (a : float32) :
  SFcompare a a = None ∨ SFcompare a a = Some Eq.
Proof.
  destruct a as [s|s| |s m e]; simpl; auto.
  - destruct s; auto.
  - rewrite Z.compare_refl, Pos.compare_cont_refl. destruct s; auto.
Qed.

Lemma b32_lt_irrefl (a : float32) : flt a a = false.
Proof.
  simpl. unfold SFltb. destruct (b32_compare_refl a) as [-> | ->]; reflexivity.
Qed.

Lemma b32_compare_antisym (a b : float32) c :
  SFcompare a b = Some c → SFcompare b a = Some (CompOpp c).
Proof.
  destruct a as [sa|sa| |sa ma ea], b as [sb|sb| |sb mb eb]; simpl;
    try discriminate; intros [= <-];
    try (destruct sa; reflexivity); try (destruct sb; reflexivity);
    try (destruct sa, sb; reflexivity).
  destruct sa, sb; try reflexivity;
    rewrite (Z.compare_antisym ea eb);
    destruct (ea ?= eb); simpl; try reflexivity;
    rewrite (Pos.compare_cont_antisym ma mb Eq); reflexivity.
Qed.

(** Two floats that are not NaN are comparable. *)
Lemma b32_le_total (a b : float32) :
  feq a a = true → feq b b = true → fle a b = true ∨ fle b a = true.
Proof.
  simpl. unfold SFeqb, SFleb. intros Ha Hb.
  destruct (SFcompare a b) as [c|] eqn:Hc.
  - rewrite (b32_compare_antisym a b c Hc). destruct c; simpl; auto.
  - destruct a, b; simpl in *; discriminate.
Qed.

End Binary32Facts.

(** ** Rounding to nearest even *)

Section Nearest.
Import Binary32.

Lemma rne_bounds (N P : Z) : N / P ≤ rne N P ≤ N / P + 1.
Proof.
  unfold rne. destruct (2 * (N mod P) ?= P); [destruct (Z.even (N / P))| |]; lia.
Qed.

Lemma rne_exact (N P : Z) : 0 < P → N mod P = 0 → rne N P = N / P.
Proof.
  intros HP Hr. unfold rne. rewrite Hr.
  destruct (Z.compare_spec (2 * 0) P); lia.
Qed.

Lemma rne_ge_multiple (N P K : Z) : 0 < P → K * P ≤ N → K ≤ rne N P.
Proof.
  intros HP HK. pose proof (rne_bounds N P).
  assert (K ≤ N / P) by (apply Z.div_le_lower_bound; lia). lia.
Qed.

Lemma rne_le_multiple (N P K : Z) : 0 < P → N ≤ K * P → rne N P ≤ K.
Proof.
  intros HP HK. pose proof (rne_bounds N P) as Hb.
  destruct (Z_lt_le_dec (N / P) K) as [Hlt|Hge]; [lia|].
  assert (HN : K * P ≤ N).
  { pose proof (Z.mul_div_le N P HP). nia. }
  assert (EN : N = K * P) by lia.
  rewrite rne_exact; subst N; rewrite ?Z.mod_mul, ?Z.div_mul by lia; lia.
Qed.

Lemma rne_mono (N N' P : Z) : 0 < P → N ≤ N' → rne N P ≤ rne N' P.
Proof.
  intros HP HN.
  pose proof (rne_bounds N P) as Hb. pose proof (rne_bounds N' P) as Hb'.
  assert (Hq : N / P ≤ N' / P) by (apply Z.div_le_mono; lia).
  destruct (Z.eq_dec (N / P) (N' / P)) as [Eq|Ne]; [|lia].
  assert (Hr : N mod P ≤ N' mod P).
  { rewrite (Z.mod_eq N P), (Z.mod_eq N' P) by lia. rewrite Eq. lia. }
  unfold rne. rewrite <- Eq.
  destruct (Z.compare_spec (2 * (N mod P)) P), (Z.compare_spec (2 * (N' mod P)) P);
    destruct (Z.even (N / P)); lia.
Qed.

Lemma rne_scale (N P c : Z) : 0 < P → 0 < c → rne (N * c) (P * c) = rne N P.
Proof.
  intros HP Hc. unfold rne.
  rewrite Z.div_mul_cancel_r by lia.
  rewrite Zmult_mod_distr_r.
  replace (2 * (N mod P * c)) with (2 * (N mod P) * c) by ring.
  rewrite <- Zmult_compare_compat_r by lia. reflexivity.
Qed.

End Nearest.

Section Digits.

Lemma digits2_pos_size (p : positive) : digits2_pos p = Pos.size p.
Proof. induction p as [p IH|p IH|]; simpl; rewrite ?IH; reflexivity. Qed.

Lemma Zdigits2_log2 (N : Z) : 0 < N → Zdigits2 N = Z.log2 N + 1.
Proof.
  destruct N as [|p|p]; try lia. intros _. simpl.
  rewrite digits2_pos_size.
  destruct p as [p|p|]; simpl; rewrite ?Pos2Z.inj_succ; lia.
Qed.

Lemma Zdigits2_nonneg (N : Z) : 0 ≤ Zdigits2 N.
Proof. destruct N; simpl; lia. Qed.

Lemma Zdigits2_pos (N : Z) : 0 < N → 0 < Zdigits2 N.
Proof. destruct N; simpl; lia. Qed.

Lemma Zdigits2_bounds (N : Z) :
  0 < N → 2 ^ (Zdigits2 N - 1) ≤ N < 2 ^ Zdigits2 N.
Proof.
  intros HN. rewrite Zdigits2_log2 by exact HN.
  replace (Z.log2 N + 1 - 1) with (Z.log2 N) by lia.
  replace (Z.log2 N + 1) with (Z.succ (Z.log2 N)) by lia.
  apply Z.log2_spec. exact HN.
Qed.

Lemma Zdigits2_mono (N N' : Z) : 0 ≤ N ≤ N' → Zdigits2 N ≤ Zdigits2 N'.
Proof.
  intros [H0 Hle]. destruct (Z.eq_dec N 0) as [->|Hne]; [apply Zdigits2_nonneg|].
  rewrite !Zdigits2_log2 by lia.
  pose proof (Z.log2_le_mono N N' Hle). lia.
Qed.

Lemma Zdigits2_scale (N k : Z) : 0 < N → 0 ≤ k → Zdigits2 (N * 2 ^ k) = Zdigits2 N + k.
Proof.
  intros HN Hk. assert (0 < 2 ^ k) by (apply Z.pow_pos_nonneg; lia).
  rewrite !Zdigits2_log2 by nia. rewrite Z.log2_mul_pow2 by lia. lia.
Qed.

End Digits.

Section Grid.
Import Binary32.

Lemma fexp_eq (e : Z) : fexp prec emax e = Z.max (e - 24) (-149).
Proof. reflexivity. Qed.

Lemma grid_nonneg c N : 0 ≤ grid c N.
Proof. unfold grid. lia. Qed.

Lemma grid_mono c N N' : 0 ≤ N ≤ N' → grid c N ≤ grid c N'.
Proof.
  intros HN. pose proof (Zdigits2_mono N N' HN). unfold grid. rewrite !fexp_eq. lia.
Qed.

Lemma round_at_mono (c N N' : Z) : 0 ≤ N ≤ N' → round_at c N ≤ round_at c N'.
Proof.
  intros HN. pose proof (grid_mono c N N' HN) as HG.
  pose proof (grid_nonneg c N) as HG0.
  unfold round_at.
  destruct (Z.eq_dec (grid c N) (grid c N')) as [Eq|Ne].
  - rewrite <- Eq.
    assert (HP : 0 < 2 ^ grid c N) by (apply Z.pow_pos_nonneg; lia).
    pose proof (rne_mono N N' (2 ^ grid c N) HP (proj2 HN)). nia.
  - assert (Hlt : grid c N < grid c N') by lia.
    pose proof (Zdigits2_nonneg N) as Hd0.
    assert (Hd : Zdigits2 N < Zdigits2 N' ∧ grid c N' = Zdigits2 N' - 24).
    { revert Hlt. unfold grid. rewrite !fexp_eq. lia. }
    destruct Hd as [Hd EG'].
    assert (HN' : 0 < N').
    { destruct (Z.eq_dec N' 0) as [->|]; [simpl in Hd; lia|lia]. }
    set (S := 2 ^ (Zdigits2 N' - 1)).
    assert (HS' : S ≤ N') by (apply Zdigits2_bounds; exact HN').
    assert (HS : N ≤ S).
    { destruct (Z.eq_dec N 0) as [->|Hne]; [apply Z.pow_nonneg; lia|].
      pose proof (Zdigits2_bounds N ltac:(lia)) as [_ Hub].
      assert (2 ^ Zdigits2 N ≤ S) by (apply Z.pow_le_mono_r; lia). lia. }
    assert (E' : S = 2 ^ (Zdigits2 N' - 1 - grid c N') * 2 ^ grid c N').
    { unfold S. rewrite <- Z.pow_add_r by lia. f_equal. lia. }
    assert (E : S = 2 ^ (Zdigits2 N' - 1 - grid c N) * 2 ^ grid c N).
    { unfold S. rewrite <- Z.pow_add_r by lia. f_equal. lia. }
    assert (HP : 0 < 2 ^ grid c N) by (apply Z.pow_pos_nonneg; lia).
    assert (HP' : 0 < 2 ^ grid c N') by (apply Z.pow_pos_nonneg; lia).
    pose proof (rne_le_multiple N (2 ^ grid c N) (2 ^ (Zdigits2 N' - 1 - grid c N)) HP
                  ltac:(rewrite <- E; exact HS)) as Hlo.
    pose proof (rne_ge_multiple N' (2 ^ grid c N') (2 ^ (Zdigits2 N' - 1 - grid c N')) HP'
                  ltac:(rewrite <- E'; exact HS')) as Hhi.
    apply Z.le_trans with S.
    + apply Z.le_trans with (2 ^ (Zdigits2 N' - 1 - grid c N) * 2 ^ grid c N); [|lia].
      apply Z.mul_le_mono_nonneg_r; lia.
    + apply Z.le_trans with (2 ^ (Zdigits2 N' - 1 - grid c N') * 2 ^ grid c N'); [lia|].
      apply Z.mul_le_mono_nonneg_r; lia.
Qed.

End Grid.

(** ** The shifts of [SpecFloat] *)

Section ShiftRight.
Import Binary32.

Lemma iter_pos_nat {A} (f : A → A) (p : positive) (x : A) :
  SpecFloat.iter_pos f p x = Nat.iter (Pos.to_nat p) f x.
Proof.
  revert x. induction p as [p IH|p IH|]; intros x.
  - change (SpecFloat.iter_pos f p~1 x)
      with (SpecFloat.iter_pos f p (SpecFloat.iter_pos f p (f x))).
    rewrite !IH. rewrite Pos2Nat.inj_xI.
    replace (S (2 * Pos.to_nat p)) with (Pos.to_nat p + (Pos.to_nat p + 1))%nat by lia.
    rewrite !Nat.iter_add. reflexivity.
  - change (SpecFloat.iter_pos f p~0 x)
      with (SpecFloat.iter_pos f p (SpecFloat.iter_pos f p x)).
    rewrite !IH. rewrite Pos2Nat.inj_xO.
    replace (2 * Pos.to_nat p)%nat with (Pos.to_nat p + Pos.to_nat p)%nat by lia.
    rewrite Nat.iter_add. reflexivity.
  - reflexivity.
Qed.

Lemma shr_1_spec (m : Z) (r s : bool) :
  0 ≤ m →
  shr_1 (Build_shr_record m r s) = Build_shr_record (m / 2) (Z.odd m) (r || s).
Proof.
  intros Hm. rewrite <- Z.div2_div.
  destruct m as [|[p|p|]|p]; try lia; reflexivity.
Qed.

Lemma shr_iter (M : Z) (k : nat) :
  0 ≤ M →
  let mrs := Nat.iter k shr_1 (Build_shr_record M false false) in
  shr_m mrs = M / 2 ^ Z.of_nat k
  ∧ loc_of_shr_record mrs = loc_of_rem (M mod 2 ^ Z.of_nat k) (2 ^ Z.of_nat k).
Proof.
  intros HM. induction k as [|k IH].
  - simpl. rewrite Z.div_1_r, Z.mod_1_r. split; reflexivity.
  - cbv zeta in *. rewrite Nat.iter_succ.
    destruct (Nat.iter k shr_1 (Build_shr_record M false false)) as [m r s].
    simpl in IH. destruct IH as [Em El].
    assert (HP : 0 < 2 ^ Z.of_nat k) by (apply Z.pow_pos_nonneg; lia).
    assert (Hm : 0 ≤ m) by (rewrite Em; apply Z.div_pos; lia).
    rewrite shr_1_spec by exact Hm.
    replace (Z.of_nat (S k)) with (Z.of_nat k + 1) by lia.
    rewrite Z.pow_add_r, Z.pow_1_r by lia.
    assert (Equo : M / (2 ^ Z.of_nat k * 2) = m / 2).
    { rewrite <- Z.div_div by lia. rewrite Em. reflexivity. }
    assert (Er : M mod (2 ^ Z.of_nat k * 2)
                 = (if Z.odd m then 2 ^ Z.of_nat k else 0) + M mod 2 ^ Z.of_nat k).
    { pose proof (Z.mod_pos_bound M (2 ^ Z.of_nat k) HP) as Hb.
      pose proof (Z.div_mod M (2 ^ Z.of_nat k) ltac:(lia)) as HMk.
      rewrite <- Em in HMk.
      pose proof (Zdiv2_odd_eqn m) as Hodd. rewrite Z.div2_div in Hodd.
      symmetry. apply Z.mod_unique with (m / 2); [destruct (Z.odd m); lia|].
      destruct (Z.odd m); nia. }
    split; [simpl; symmetry; exact Equo|].
    rewrite Er. simpl.
    assert (Hrs : r || s = negb (M mod 2 ^ Z.of_nat k =? 0)).
    { unfold loc_of_rem in El.
      destruct (M mod 2 ^ Z.of_nat k =? 0), r, s; simpl in *; congruence. }
    rewrite Hrs. unfold loc_of_rem.
    pose proof (Z.mod_pos_bound M (2 ^ Z.of_nat k) HP) as Hb.
    destruct (Z.odd m); destruct (Z.eqb_spec (M mod 2 ^ Z.of_nat k) 0) as [E0|E0]; simpl.
    + rewrite E0, Z.add_0_r.
      destruct (Z.eqb_spec (2 ^ Z.of_nat k) 0); [lia|].
      replace (2 * 2 ^ Z.of_nat k ?= 2 ^ Z.of_nat k * 2) with Eq; [reflexivity|].
      symmetry. apply Z.compare_eq_iff. lia.
    + destruct (Z.eqb_spec (2 ^ Z.of_nat k + M mod 2 ^ Z.of_nat k) 0); [lia|].
      replace (2 * (2 ^ Z.of_nat k + M mod 2 ^ Z.of_nat k) ?= 2 ^ Z.of_nat k * 2) with Gt;
        [reflexivity|].
      symmetry. apply Z.compare_gt_iff. lia.
    + rewrite E0. reflexivity.
    + destruct (Z.eqb_spec (0 + M mod 2 ^ Z.of_nat k) 0); [lia|].
      replace (2 * (0 + M mod 2 ^ Z.of_nat k) ?= 2 ^ Z.of_nat k * 2) with Lt;
        [reflexivity|].
      symmetry. apply Z.compare_lt_iff. lia.
Qed.

Lemma round_nearest_even_rem (M P : Z) :
  0 < P → round_nearest_even (M / P) (loc_of_rem (M mod P) P) = rne M P.
Proof.
  intros HP. unfold loc_of_rem, rne.
  destruct (Z.eqb_spec (M mod P) 0) as [E0|E0].
  - rewrite E0. cbn [round_nearest_even].
    destruct (Z.compare_spec (2 * 0) P); [lia|reflexivity|lia].
  - cbn [round_nearest_even]. destruct (2 * (M mod P) ?= P); reflexivity.
Qed.

(** [shr] of a non-negative mantissa that carries no remainder yet. *)
Lemma shr_spec (M e n : Z) :
  0 ≤ M →
  let '(mrs, e') := shr (Build_shr_record M false false) e n in
  e' = e + Z.max 0 n
  ∧ shr_m mrs = M / 2 ^ Z.max 0 n
  ∧ round_nearest_even (shr_m mrs) (loc_of_shr_record mrs) = rne M (2 ^ Z.max 0 n).
Proof.
  intros HM. destruct n as [|p|p]; simpl shr.
  - simpl. rewrite Z.div_1_r. split; [lia|]. split; [reflexivity|].
    rewrite rne_exact by (rewrite ?Z.mod_1_r; lia). rewrite Z.div_1_r. reflexivity.
  - rewrite iter_pos_nat.
    destruct (shr_iter M (Pos.to_nat p) HM) as [Em El].
    rewrite positive_nat_Z in Em, El.
    replace (Z.max 0 (Zpos p)) with (Zpos p) by lia.
    split; [reflexivity|]. split; [exact Em|].
    rewrite El, Em. apply round_nearest_even_rem. apply Z.pow_pos_nonneg; lia.
  - simpl. rewrite Z.div_1_r. split; [lia|]. split; [reflexivity|].
    rewrite rne_exact by (rewrite ?Z.mod_1_r; lia). rewrite Z.div_1_r. reflexivity.
Qed.

End ShiftRight.

(** ** [binary_round_aux] rounds to nearest even *)

Section RoundAux.
Import Binary32.

(** The mantissa after rounding fills the format at most: a second
    shift, if there is one, is by one binary place and drops a zero. *)
Lemma renormalize_exact (M : positive) (E : Z) :
  let g := fexp prec emax (Zdigits2 (Zpos M) + E) in
  let m := rne (Zpos M) (2 ^ (g - E)) in
  let k := Z.max 0 (fexp prec emax (Zdigits2 m + g) - g) in
  E ≤ g → m / 2 ^ k * 2 ^ k = m.
Proof.
  intros g m k Hn.
  destruct (Z.eq_dec k 0) as [->|Hk]; [rewrite Z.pow_0_r, Z.div_1_r; lia|].
  assert (HM : 0 < Zpos M) by lia.
  pose proof (Zdigits2_bounds (Zpos M) HM) as [_ HMub].
  set (d := Zdigits2 (Zpos M)) in *.
  assert (HP : 0 < 2 ^ (g - E)) by (apply Z.pow_pos_nonneg; lia).
  pose proof (rne_bounds (Zpos M) (2 ^ (g - E))) as [Hlo Hhi]. fold m in Hlo, Hhi.
  assert (Hq0 : 0 ≤ Zpos M / 2 ^ (g - E)) by (apply Z.div_pos; lia).
  assert (Hdm : 25 ≤ Zdigits2 m).
  { revert Hk. unfold k. rewrite fexp_eq. unfold g. rewrite fexp_eq. lia. }
  assert (Hm0 : 0 < m).
  { destruct (Z.eq_dec m 0) as [E0|]; [rewrite E0 in Hdm; simpl in Hdm; lia|lia]. }
  pose proof (Zdigits2_bounds m Hm0) as [Hmlb _].
  assert (Hm24 : 2 ^ 24 ≤ m).
  { apply Z.le_trans with (2 ^ (Zdigits2 m - 1)); [|exact Hmlb].
    apply Z.pow_le_mono_r; lia. }
  assert (Hg : g = Z.max (d + E - 24) (-149)) by (unfold g; rewrite fexp_eq; reflexivity).
  assert (Hq : Zpos M / 2 ^ (g - E) < 2 ^ 24 ∧ g = d + E - 24).
  { destruct (Z_le_gt_dec (-149) (d + E - 24)) as [Hnorm|Hsub].
    - assert (Eg : g = d + E - 24) by lia. split; [|exact Eg].
      apply Z.div_lt_upper_bound; [lia|].
      rewrite <- Z.pow_add_r by lia. replace (g - E + 24) with d by lia. exact HMub.
    - exfalso. assert (Eg : g = -149) by lia.
      assert (Zpos M / 2 ^ (g - E) < 2 ^ 23); [|lia].
      apply Z.div_lt_upper_bound; [lia|].
      rewrite <- Z.pow_add_r by lia.
      apply Z.lt_le_trans with (2 ^ d); [exact HMub|].
      apply Z.pow_le_mono_r; lia. }
  destruct Hq as [Hq Eg].
  assert (Em : m = 2 ^ 24) by lia.
  assert (Ek : k = 1).
  { unfold k. rewrite Em. change (Zdigits2 (2 ^ 24)) with 25. rewrite fexp_eq. lia. }
  rewrite Ek, Em. reflexivity.
Qed.

Lemma binary_round_aux_spec (M : positive) (E : Z) :
  let g := fexp prec emax (Zdigits2 (Zpos M) + E) in
  let m := rne (Zpos M) (2 ^ (g - E)) in
  E ≤ g →
  match binary_round_aux prec emax false (Zpos M) E loc_Exact with
  | S754_zero s => s = false ∧ m = 0
  | S754_finite s mf ef => s = false ∧ g ≤ ef ∧ Zpos mf * 2 ^ (ef - g) = m
  | S754_infinity s => s = false
  | S754_nan => False
  end.
Proof.
  intros g m Hn.
  pose proof (renormalize_exact M E Hn) as Hexact. fold g m in Hexact. cbv zeta in Hexact.
  unfold binary_round_aux, shr_fexp. fold g.
  change (shr_record_of_loc (Zpos M) loc_Exact) with (Build_shr_record (Zpos M) false false).
  pose proof (shr_spec (Zpos M) E (g - E) ltac:(lia)) as H1.
  destruct (shr (Build_shr_record (Zpos M) false false) E (g - E)) as [mrs' e'].
  destruct H1 as (Ee' & _ & Er).
  replace (Z.max 0 (g - E)) with (g - E) in Ee', Er by lia.
  fold m in Er. rewrite Er.
  assert (Ee : e' = g) by lia. rewrite Ee. clear Ee Ee' e' Er mrs'.
  assert (Hm : 0 ≤ m).
  { pose proof (rne_bounds (Zpos M) (2 ^ (g - E))) as [Hlo _]. fold m in Hlo.
    assert (0 ≤ Zpos M / 2 ^ (g - E)); [|lia].
    apply Z.div_pos; [lia|apply Z.pow_pos_nonneg; lia]. }
  change (shr_record_of_loc m loc_Exact) with (Build_shr_record m false false).
  pose proof (shr_spec m g (fexp prec emax (Zdigits2 m + g) - g) Hm) as H2.
  destruct (shr (Build_shr_record m false false) g (fexp prec emax (Zdigits2 m + g) - g))
    as [mrs'' e''].
  destruct H2 as (Ee'' & Em'' & _).
  set (k := Z.max 0 (fexp prec emax (Zdigits2 m + g) - g)) in *.
  assert (Hk : 0 ≤ k) by (unfold k; lia).
  assert (HPk : 0 < 2 ^ k) by (apply Z.pow_pos_nonneg; lia).
  rewrite Em''.
  destruct (m / 2 ^ k) as [|mf|mf] eqn:Eq.
  - split; [reflexivity|]. lia.
  - destruct (e'' <=? emax - prec); [|reflexivity].
    split; [reflexivity|]. split; [lia|].
    replace (e'' - g) with k by lia. exact Hexact.
  - assert (0 ≤ m / 2 ^ k) by (apply Z.div_pos; lia). lia.
Qed.

Lemma round_at_link (M : positive) (E c : Z) :
  let g := fexp prec emax (Zdigits2 (Zpos M) + E) in
  c ≤ E → E ≤ g →
  round_at c (Zpos M * 2 ^ (E - c)) = rne (Zpos M) (2 ^ (g - E)) * 2 ^ (g - c).
Proof.
  intros g Hc Hn. unfold round_at.
  assert (EG : grid c (Zpos M * 2 ^ (E - c)) = g - c).
  { unfold grid. rewrite Zdigits2_scale by lia.
    replace (Zdigits2 (Zpos M) + (E - c) + c) with (Zdigits2 (Zpos M) + E) by lia.
    fold g. lia. }
  rewrite EG. f_equal.
  replace (2 ^ (g - c)) with (2 ^ (g - E) * 2 ^ (E - c))
    by (rewrite <- Z.pow_add_r by lia; f_equal; lia).
  apply rne_scale; apply Z.pow_pos_nonneg; lia.
Qed.

(** What [binary_round_aux] returns on a positive number whose exponent
    is not above the grid, when it does not overflow. *)
Lemma binary_round_aux_units (M : positive) (E c : Z) :
  let r := binary_round_aux prec emax false (Zpos M) E loc_Exact in
  c ≤ E → E ≤ fexp prec emax (Zdigits2 (Zpos M) + E) →
  is_finite r = true →
  units c r = round_at c (Zpos M * 2 ^ (E - c))
  ∧ (∀ mf ef, r = S754_finite true mf ef → False)
  ∧ (∀ s mf ef, r = S754_finite s mf ef → c ≤ ef).
Proof.
  intros r Hc Hn Hfin.
  pose proof (binary_round_aux_spec M E Hn) as Hspec. fold r in Hspec. cbv zeta in Hspec.
  rewrite round_at_link by assumption.
  set (g := fexp prec emax (Zdigits2 (Zpos M) + E)) in *.
  destruct r as [s|s| |s mf ef]; try discriminate Hfin.
  - destruct Hspec as [-> Em]. rewrite Em. simpl.
    split; [reflexivity|]. split; intros; discriminate.
  - destruct Hspec as (-> & Hge & Em). simpl. rewrite <- Em.
    split; [|split].
    + rewrite <- Z.mul_assoc, <- Z.pow_add_r by lia. do 2 f_equal. lia.
    + intros ? ? Hc'. discriminate Hc'.
    + intros ? ? ? [= _ _ <-]. lia.
Qed.

End RoundAux.

(** ** Products and sums of numbers that are not negative *)

Section Operations.
Import Binary32.

Lemma Zdigits2_pow2 (k : Z) : 0 ≤ k → Zdigits2 (2 ^ k) = k + 1.
Proof.
  intros Hk. rewrite Zdigits2_log2 by (apply Z.pow_pos_nonneg; lia).
  rewrite Z.log2_pow2 by exact Hk. reflexivity.
Qed.

Lemma Zdigits2_mul (a b : positive) :
  Zdigits2 (Zpos a) + Zdigits2 (Zpos b) - 1 ≤ Zdigits2 (Zpos a * Zpos b).
Proof.
  pose proof (Zdigits2_bounds (Zpos a) ltac:(lia)) as [Ha _].
  pose proof (Zdigits2_bounds (Zpos b) ltac:(lia)) as [Hb _].
  pose proof (Zdigits2_pos (Zpos a) ltac:(lia)) as Hda.
  pose proof (Zdigits2_pos (Zpos b) ltac:(lia)) as Hdb.
  set (da := Zdigits2 (Zpos a)) in *. set (db := Zdigits2 (Zpos b)) in *.
  assert (Hp : 2 ^ (da + db - 2) ≤ Zpos a * Zpos b).
  { replace (da + db - 2) with ((da - 1) + (db - 1)) by lia.
    rewrite Z.pow_add_r by lia.
    apply Z.mul_le_mono_nonneg; try assumption; apply Z.pow_nonneg; lia. }
  assert (Hd : Zdigits2 (2 ^ (da + db - 2)) ≤ Zdigits2 (Zpos a * Zpos b)).
  { apply Zdigits2_mono. split; [apply Z.pow_nonneg; lia|exact Hp]. }
  rewrite Zdigits2_pow2 in Hd by lia. lia.
Qed.

Lemma valid_binary_canonical (s : bool) (m : positive) (e : Z) :
  valid_binary prec emax (S754_finite s m e) = true →
  fexp prec emax (Zdigits2 (Zpos m) + e) = e.
Proof.
  simpl. unfold bounded, canonical_mantissa. intros Hv.
  apply andb_true_iff in Hv as [Hc _]. apply Z.eqb_eq in Hc. exact Hc.
Qed.

(** Lines of [SFmul] for two positive numbers of the format. *)
Lemma SFmul_units (ma mc : positive) (ea ec c : Z) :
  let r := SFmul prec emax (S754_finite false ma ea) (S754_finite false mc ec) in
  valid_binary prec emax (S754_finite false ma ea) = true →
  valid_binary prec emax (S754_finite false mc ec) = true →
  c ≤ ea + ec → is_finite r = true →
  units c r = round_at c (Zpos ma * Zpos mc * 2 ^ (ea + ec - c))
  ∧ nonneg r = true ∧ exp_ge c r.
Proof.
  intros r Ha Hc Hle Hfin.
  apply valid_binary_canonical in Ha, Hc.
  pose proof (Zdigits2_mul ma mc) as Hd.
  pose proof (Zdigits2_pos (Zpos ma) ltac:(lia)) as Hda.
  pose proof (Zdigits2_pos (Zpos mc) ltac:(lia)) as Hdc.
  rewrite fexp_eq in Ha, Hc.
  assert (Hn : ea + ec ≤ fexp prec emax (Zdigits2 (Zpos (ma * mc)) + (ea + ec))).
  { rewrite fexp_eq, Pos2Z.inj_mul. lia. }
  unfold r, SFmul in *. cbn [xorb] in *.
  destruct (binary_round_aux_units (ma * mc) (ea + ec) c Hle Hn Hfin) as (Hu & Hs & He).
  rewrite Pos2Z.inj_mul in Hu. split; [exact Hu|].
  destruct (binary_round_aux prec emax false (Zpos (ma * mc)) (ea + ec) loc_Exact)
    as [s|s| |[|] mf ef]; try discriminate Hfin.
  - split; [reflexivity|exact I].
  - exfalso. exact (Hs mf ef eq_refl).
  - split; [reflexivity|]. exact (He false mf ef eq_refl).
Qed.

Lemma iter_xO (m d : positive) : Zpos (Pos.iter xO m d) = Zpos m * 2 ^ Zpos d.
Proof.
  induction d as [|d IH] using Pos.peano_ind.
  - change (Pos.iter xO m 1) with (m~0)%positive. lia.
  - rewrite Pos.iter_succ, Pos2Z.inj_xO, IH, Pos2Z.inj_succ, Z.pow_succ_r by lia. ring.
Qed.

Lemma shl_align_spec (m : positive) (e e' : Z) :
  snd (shl_align m e e') = Z.min e e'
  ∧ Zpos (fst (shl_align m e e')) = Zpos m * 2 ^ (e - Z.min e e').
Proof.
  unfold shl_align. destruct (e' - e) as [|d|d] eqn:Ed; simpl.
  - replace (Z.min e e') with e by lia. rewrite Z.sub_diag. split; lia.
  - replace (Z.min e e') with e by lia. rewrite Z.sub_diag. split; lia.
  - replace (Z.min e e') with e' by lia. split; [reflexivity|].
    rewrite iter_xO. f_equal. f_equal. lia.
Qed.

(** [binary_round] on a positive number. *)
Lemma binary_round_units (M : positive) (E c : Z) :
  let r := binary_round prec emax false M E in
  c ≤ E → c ≤ -149 → is_finite r = true →
  units c r = round_at c (Zpos M * 2 ^ (E - c)) ∧ nonneg r = true ∧ exp_ge c r.
Proof.
  intros r Hc Hmin Hfin. unfold r, binary_round in *.
  change (Zpos (digits2_pos M)) with (Zdigits2 (Zpos M)) in *.
  set (g := fexp prec emax (Zdigits2 (Zpos M) + E)) in *.
  destruct (shl_align_spec M E g) as [Ee Em].
  destruct (shl_align M E g) as [mz ez]. simpl in Ee, Em. subst ez.
  assert (Hg : -149 ≤ g) by (unfold g; rewrite fexp_eq; lia).
  assert (Hd : Zdigits2 (Zpos mz) + Z.min E g = Zdigits2 (Zpos M) + E).
  { rewrite Em, Zdigits2_scale by lia. lia. }
  assert (Hn : Z.min E g ≤ fexp prec emax (Zdigits2 (Zpos mz) + Z.min E g)).
  { rewrite Hd. fold g. lia. }
  destruct (binary_round_aux_units mz (Z.min E g) c ltac:(lia) Hn Hfin) as (Hu & Hs & He).
  assert (EN : Zpos mz * 2 ^ (Z.min E g - c) = Zpos M * 2 ^ (E - c)).
  { rewrite Em, <- Z.mul_assoc, <- Z.pow_add_r by lia. do 2 f_equal. lia. }
  rewrite EN in Hu. split; [exact Hu|].
  destruct (binary_round_aux prec emax false (Zpos mz) (Z.min E g) loc_Exact)
    as [s|s| |[|] mf ef]; try discriminate Hfin.
  - split; [reflexivity|exact I].
  - exfalso. exact (Hs mf ef eq_refl).
  - split; [reflexivity|]. exact (He false mf ef eq_refl).
Qed.

(** A number of the format is its own rounding. *)
Lemma round_at_canonical (m : positive) (e c : Z) :
  fexp prec emax (Zdigits2 (Zpos m) + e) = e → c ≤ e →
  round_at c (Zpos m * 2 ^ (e - c)) = Zpos m * 2 ^ (e - c).
Proof.
  intros Hcan Hc. rewrite round_at_link by lia. rewrite Hcan, Z.sub_diag.
  rewrite rne_exact by (rewrite ?Z.mod_1_r; simpl; lia).
  rewrite Z.pow_0_r, Z.div_1_r. reflexivity.
Qed.

Lemma round_at_0 (c : Z) : round_at c 0 = 0.
Proof.
  unfold round_at. rewrite rne_exact.
  - rewrite Z.div_0_l; [reflexivity|].
    pose proof (grid_nonneg c 0). assert (0 < 2 ^ grid c 0) by (apply Z.pow_pos_nonneg; lia).
    lia.
  - apply Z.pow_pos_nonneg; [lia|apply grid_nonneg].
  - apply Z.mod_0_l. pose proof (grid_nonneg c 0).
    assert (0 < 2 ^ grid c 0) by (apply Z.pow_pos_nonneg; lia). lia.
Qed.

(** Lines of [SFadd] for a number that is not negative and a positive
    number of the format. *)
Lemma SFadd_units (a b : float32) (c : Z) :
  let r := SFadd prec emax a b in
  is_finite a = true → nonneg a = true →
  (∃ mb eb, b = S754_finite false mb eb) → valid_binary prec emax b = true →
  exp_ge c a → exp_ge c b → c ≤ -149 → is_finite r = true →
  units c r = round_at c (units c a + units c b) ∧ nonneg r = true ∧ exp_ge c r.
Proof.
  intros r Hfa Hna (mb & eb & ->) Hvb Hca Hcb Hmin Hfin.
  simpl in Hcb.
  destruct a as [s|s| |[|] ma ea]; try discriminate Hfa; try discriminate Hna.
  - (* 0 + b *)
    assert (E : r = S754_finite false mb eb) by reflexivity.
    rewrite E. cbn [units nonneg exp_ge]. rewrite Z.add_0_l.
    rewrite round_at_canonical;
      [|apply valid_binary_canonical with false; exact Hvb|exact Hcb].
    split; [reflexivity|]. split; [reflexivity|exact Hcb].
  - (* a + b, both positive *)
    simpl in Hca. unfold r, SFadd in *. cbn [cond_Zopp] in *.
    destruct (shl_align_spec ma ea (Z.min ea eb)) as [_ Ema].
    destruct (shl_align_spec mb eb (Z.min ea eb)) as [_ Emb].
    replace (Z.min ea (Z.min ea eb)) with (Z.min ea eb) in Ema by lia.
    replace (Z.min eb (Z.min ea eb)) with (Z.min ea eb) in Emb by lia.
    set (ma' := fst (shl_align ma ea (Z.min ea eb))) in *.
    set (mb' := fst (shl_align mb eb (Z.min ea eb))) in *.
    change (Zpos ma' + Zpos mb') with (Zpos (ma' + mb')) in *.
    cbn [binary_normalize] in *.
    destruct (binary_round_units (ma' + mb') (Z.min ea eb) c ltac:(lia) Hmin Hfin)
      as (Hu & Hs & He).
    split; [|split; assumption].
    rewrite Hu. f_equal. cbn [units].
    rewrite Pos2Z.inj_add, Ema, Emb, Z.mul_add_distr_r.
    rewrite <- !Z.mul_assoc, <- !Z.pow_add_r by lia.
    f_equal; do 2 f_equal; lia.
Qed.

End Operations.

(** ** The values of products and sums *)

Section Values.
Import Binary32.

Lemma pow2_pos (e : Z) : (0 < 2 ^ e)%Q.
Proof. apply Qpower_0_lt. reflexivity. Qed.

Lemma pow2_split (e c : Z) : c ≤ e → (2 ^ e == inject_Z (2 ^ (e - c)) * 2 ^ c)%Q.
Proof.
  intros Hc. rewrite Zpower_Qpower by lia.
  change (inject_Z 2) with 2%Q.
  rewrite <- Qpower_plus by discriminate.
  replace (e - c + c) with e by lia. reflexivity.
Qed.

Lemma mag_pos (m : positive) (e : Z) : (0 < inject_Z (Zpos m) * 2 ^ e)%Q.
Proof.
  apply Qmult_lt_0_compat; [|apply pow2_pos].
  change 0%Q with (inject_Z 0). rewrite <- Zlt_Qlt. lia.
Qed.

Lemma B2Q_units (a : float32) (c : Z) :
  nonneg a = true → exp_ge c a → (B2Q a == inject_Z (units c a) * 2 ^ c)%Q.
Proof.
  destruct a as [s|s| |[|] m e]; try discriminate; intros _ Hc; cbn [units B2Q].
  - change (inject_Z 0) with 0%Q. ring.
  - simpl in Hc. rewrite inject_Z_mult, (pow2_split e c Hc). ring.
Qed.

Lemma B2Q_le_units (a b : float32) (c : Z) :
  nonneg a = true → nonneg b = true → exp_ge c a → exp_ge c b →
  (B2Q a <= B2Q b)%Q ↔ units c a ≤ units c b.
Proof.
  intros Ha Hb Hca Hcb.
  rewrite (B2Q_units a c Ha Hca), (B2Q_units b c Hb Hcb).
  rewrite Qmult_le_r by apply pow2_pos. rewrite <- Zle_Qle. reflexivity.
Qed.

Lemma B2Q_nonneg (a : float32) : nonneg a = true → (0 <= B2Q a)%Q.
Proof.
  destruct a as [s|s| |[|] m e]; intros H; try discriminate H; cbn [B2Q].
  - lra.
  - pose proof (mag_pos m e). lra.
Qed.

Lemma B2Q_nonneg_inv (a : float32) :
  is_finite a = true → (0 <= B2Q a)%Q → nonneg a = true.
Proof.
  destruct a as [s|s| |[|] m e]; intros Hf H; try discriminate Hf; try reflexivity.
  cbn [B2Q] in H. pose proof (mag_pos m e). lra.
Qed.

Lemma units_nonneg (c : Z) (a : float32) : exp_ge c a → 0 ≤ units c a.
Proof.
  destruct a as [s|s| |[|] m e]; cbn [units exp_ge]; intros Hc; try lia.
  all: assert (0 < 2 ^ (e - c)) by (apply Z.pow_pos_nonneg; lia); lia.
Qed.

(** [(int)a] is the floor of the value of a number that is not negative. *)
Lemma to_Z_floor (a : float32) : nonneg a = true → to_Z a = Qfloor (B2Q a).
Proof.
  destruct a as [s|s| |[|] m e]; try discriminate; intros _; try reflexivity.
  cbn [to_Z B2Q]. destruct e as [|p|p]; unfold trunc_mag.
  - rewrite (Qfloor_comp _ (inject_Z (Zpos m))); [rewrite Qfloor_Z; reflexivity|].
    change (2 ^ 0)%Q with 1%Q. ring.
  - rewrite Z.shiftl_mul_pow2 by lia.
    rewrite (Qfloor_comp _ (inject_Z (Zpos m * 2 ^ Zpos p)));
      [rewrite Qfloor_Z; reflexivity|].
    rewrite inject_Z_mult, Zpower_Qpower by lia. reflexivity.
  - rewrite Z.shiftr_div_pow2 by lia. rewrite Zdiv_Qdiv.
    apply Qfloor_comp. rewrite Zpower_Qpower by lia.
    change (Zneg p) with (- Zpos p). rewrite Qpower_opp.
    reflexivity.
Qed.

(** Of two numbers of the format, the one with the smaller exponent is
    the smaller. *)
Lemma canonical_lt (s1 s2 : bool) (m1 m2 : positive) (e1 e2 : Z) :
  valid_binary prec emax (S754_finite s1 m1 e1) = true →
  valid_binary prec emax (S754_finite s2 m2 e2) = true →
  e1 < e2 →
  (inject_Z (Zpos m1) * 2 ^ e1 < inject_Z (Zpos m2) * 2 ^ e2)%Q.
Proof.
  intros H1 H2 He.
  apply valid_binary_canonical in H1, H2. rewrite fexp_eq in H1, H2.
  pose proof (Zdigits2_bounds (Zpos m1) ltac:(lia)) as [_ B1].
  pose proof (Zdigits2_bounds (Zpos m2) ltac:(lia)) as [B2 _].
  assert (D1 : Zdigits2 (Zpos m1) ≤ 24) by lia.
  assert (D2 : Zdigits2 (Zpos m2) = 24) by lia.
  rewrite D2 in B2. change (2 ^ (24 - 1)) with 8388608 in B2.
  assert (B1' : Zpos m1 < 16777216).
  { eapply Z.lt_le_trans; [exact B1|].
    change 16777216 with (2 ^ 24). apply Z.pow_le_mono_r; lia. }
  assert (P : 2 ≤ 2 ^ (e2 - e1)).
  { change 2 with (2 ^ 1) at 1. apply Z.pow_le_mono_r; lia. }
  rewrite (pow2_split e2 e1) by lia.
  rewrite Qmult_assoc, Qmult_lt_r by apply pow2_pos.
  rewrite <- inject_Z_mult, <- Zlt_Qlt. nia.
Qed.

Lemma mag_le (m1 m2 : positive) (e : Z) :
  (m1 ≤ m2)%positive →
  (inject_Z (Zpos m1) * 2 ^ e <= inject_Z (Zpos m2) * 2 ^ e)%Q.
Proof.
  intros H. rewrite Qmult_le_r by apply pow2_pos. rewrite <- Zle_Qle. lia.
Qed.

(** [<=] on numbers of the format is the order of their values. *)
Lemma SFleb_B2Q (a b : float32) :
  proper32 a → proper32 b → SFleb a b = true → (B2Q a <= B2Q b)%Q.
Proof.
  intros [Hfa Hva] [Hfb Hvb].
  destruct a as [sa|sa| |sa ma ea]; try discriminate Hfa;
    destruct b as [sb|sb| |sb mb eb]; try discriminate Hfb;
    unfold SFleb, SFcompare; cbn [B2Q].
  - intros _. lra.
  - pose proof (mag_pos mb eb). destruct sb; [discriminate|]. intros _. lra.
  - pose proof (mag_pos ma ea). destruct sa; [|discriminate]. intros _. lra.
  - pose proof (mag_pos ma ea). pose proof (mag_pos mb eb).
    change (PosDef.Pos.compare_cont Eq ma mb) with (Pos.compare ma mb).
    destruct sa, sb; try discriminate; try (intros _; lra).
    + destruct (Z.compare_spec ea eb) as [E|L|G]; try discriminate.
      * subst eb. destruct (Pos.compare_spec ma mb) as [E|L|G]; try discriminate;
          intros _; pose proof (mag_le mb ma ea ltac:(lia)); lra.
      * intros _. pose proof (canonical_lt _ _ _ _ _ _ Hvb Hva G). lra.
    + destruct (Z.compare_spec ea eb) as [E|L|G]; try discriminate.
      * subst eb. destruct (Pos.compare_spec ma mb) as [E|L|G]; try discriminate;
          intros _; pose proof (mag_le ma mb ea ltac:(lia)); lra.
      * intros _. pose proof (canonical_lt _ _ _ _ _ _ Hva Hvb L). lra.
Qed.

Lemma proper_nonneg (a : float32) :
  proper32 a → (0 <= B2Q a)%Q → nonneg a = true.
Proof. intros [Hf _]. apply B2Q_nonneg_inv. exact Hf. Qed.

(** Rounded products keep the order of their exact values. *)
Lemma SFmul_B2Q (a b c : float32) :
  proper32 a → proper32 b → proper32 c →
  (0 <= B2Q a)%Q → (B2Q a <= B2Q b)%Q → (0 <= B2Q c)%Q →
  is_finite (SFmul prec emax a c) = true →
  is_finite (SFmul prec emax b c) = true →
  (0 <= B2Q (SFmul prec emax a c))%Q
  ∧ (B2Q (SFmul prec emax a c) <= B2Q (SFmul prec emax b c))%Q.
Proof.
  intros Ha Hb Hc Ha0 Hab Hc0 Hf1 Hf2.
  pose proof (proper_nonneg a Ha Ha0) as Na.
  pose proof (proper_nonneg b Hb ltac:(lra)) as Nb.
  pose proof (proper_nonneg c Hc Hc0) as Nc.
  destruct Ha as [_ Hva], Hb as [_ Hvb], Hc as [_ Hvc].
  assert (Hpos : ∀ m e m' e',
    valid_binary prec emax (S754_finite false m e) = true →
    valid_binary prec emax (S754_finite false m' e') = true →
    is_finite (SFmul prec emax (S754_finite false m e) (S754_finite false m' e')) = true →
    (0 <= B2Q (SFmul prec emax (S754_finite false m e) (S754_finite false m' e')))%Q).
  { intros m e m' e' V V' Hf.
    destruct (SFmul_units m m' e e' (e + e') V V' ltac:(lia) Hf) as (_ & N & _).
    apply B2Q_nonneg. exact N. }
  destruct c as [sc|sc| |[|] mc ec]; try discriminate Nc.
  - destruct a as [sa|sa| |[|] ma ea]; try discriminate Na;
      destruct b as [sb|sb| |[|] mb eb]; try discriminate Nb;
      cbn [SFmul B2Q]; lra.
  - destruct a as [sa|sa| |[|] ma ea]; try discriminate Na;
      destruct b as [sb|sb| |[|] mb eb]; try discriminate Nb.
    + cbn [SFmul B2Q]. lra.
    + split; [cbn [SFmul B2Q]; lra|].
      change (B2Q (SFmul prec emax (S754_zero sa) (S754_finite false mc ec))) with 0%Q.
      apply Hpos; assumption.
    + exfalso. cbn [B2Q] in Hab. pose proof (mag_pos ma ea). lra.
    + split; [apply Hpos; assumption|].
      set (m := Z.min ea eb).
      destruct (SFmul_units ma mc ea ec (m + ec) Hva Hvc ltac:(lia) Hf1) as (U1 & N1 & G1).
      destruct (SFmul_units mb mc eb ec (m + ec) Hvb Hvc ltac:(lia) Hf2) as (U2 & N2 & G2).
      apply (B2Q_le_units _ _ (m + ec) N1 N2 G1 G2).
      rewrite U1, U2. 
      apply (B2Q_le_units _ _ m Na Nb) in Hab; [|simpl; lia|simpl; lia].
      cbn [units] in Hab.
      replace (ea + ec - (m + ec)) with (ea - m) by lia.
      replace (eb + ec - (m + ec)) with (eb - m) by lia.
      assert (0 < 2 ^ (ea - m)) by (apply Z.pow_pos_nonneg; lia).
      apply round_at_mono. split; [nia|].
      replace (Zpos ma * Zpos mc * 2 ^ (ea - m))
        with (Zpos ma * 2 ^ (ea - m) * Zpos mc) by ring.
      replace (Zpos mb * Zpos mc * 2 ^ (eb - m))
        with (Zpos mb * 2 ^ (eb - m) * Zpos mc) by ring.
      apply Z.mul_le_mono_nonneg_r; [lia|exact Hab].
Qed.

Lemma proper_positive (c : float32) :
  proper32 c → (0 < B2Q c)%Q → ∃ m e, c = S754_finite false m e.
Proof.
  intros [Hf _] Hc.
  destruct c as [s|s| |[|] m e]; try discriminate Hf; cbn [B2Q] in Hc.
  - lra.
  - pose proof (mag_pos m e). lra.
  - eauto.
Qed.

(** Rounded sums keep the order of their exact values. *)
Lemma SFadd_B2Q (x y c d : float32) :
  is_finite x = true → is_finite y = true → proper32 c → proper32 d →
  (0 <= B2Q x)%Q → (B2Q x <= B2Q y)%Q → (0 < B2Q c)%Q → (B2Q c <= B2Q d)%Q →
  is_finite (SFadd prec emax x c) = true →
  is_finite (SFadd prec emax y d) = true →
  (0 <= B2Q (SFadd prec emax x c))%Q
  ∧ (B2Q (SFadd prec emax x c) <= B2Q (SFadd prec emax y d))%Q.
Proof.
  intros Hfx Hfy Hc Hd Hx0 Hxy Hc0 Hcd Hf1 Hf2.
  pose proof (B2Q_nonneg_inv x Hfx Hx0) as Nx.
  pose proof (B2Q_nonneg_inv y Hfy ltac:(lra)) as Ny.
  destruct (proper_positive c Hc Hc0) as (mc & ec & Ec).
  destruct (proper_positive d Hd ltac:(lra)) as (md & ed & Ed).
  destruct Hc as [_ Hvc], Hd as [_ Hvd].
  set (c0 := Z.min (-149) (Z.min (Z.min (expo x) (expo y)) (Z.min ec ed))).
  assert (Hc0' : c0 ≤ -149 ∧ c0 ≤ expo x ∧ c0 ≤ expo y ∧ c0 ≤ ec ∧ c0 ≤ ed)
    by (unfold c0; lia).
  clearbody c0.
  assert (Gx : exp_ge c0 x) by (destruct x; simpl in *; lia).
  assert (Gy : exp_ge c0 y) by (destruct y; simpl in *; lia).
  assert (Gc : exp_ge c0 c) by (subst c; simpl; lia).
  assert (Gd : exp_ge c0 d) by (subst d; simpl; lia).
  assert (Nc : nonneg c = true) by (subst c; reflexivity).
  assert (Nd : nonneg d = true) by (subst d; reflexivity).
  destruct (SFadd_units x c c0 Hfx Nx ltac:(eauto) Hvc Gx Gc ltac:(lia) Hf1)
    as (U1 & N1 & G1).
  destruct (SFadd_units y d c0 Hfy Ny ltac:(eauto) Hvd Gy Gd ltac:(lia) Hf2)
    as (U2 & N2 & G2).
  split; [apply B2Q_nonneg; exact N1|].
  apply (B2Q_le_units _ _ c0 N1 N2 G1 G2). rewrite U1, U2.
  apply (B2Q_le_units _ _ c0 Nx Ny Gx Gy) in Hxy.
  apply (B2Q_le_units _ _ c0 Nc Nd Gc Gd) in Hcd.
  pose proof (units_nonneg c0 x Gx). pose proof (units_nonneg c0 c Gc).
  apply round_at_mono. lia.
Qed.

Lemma SFadd_finite_l (x c : float32) :
  is_finite c = true → is_finite (SFadd prec emax x c) = true → is_finite x = true.
Proof.
  destruct x as [s|s| |s m e]; try reflexivity;
    destruct c as [s'|s'| |s' m' e']; discriminate.
Qed.

End Values.

(** ** binary32 is a correctly rounded arithmetic *)

Section Binary32Finite.
Import Binary32.

Lemma properb_correct (a : float32) : properb a = true → proper32 a.
Proof. unfold properb, proper32. intros Hb. apply andb_true_iff in Hb. exact Hb. Qed.

Lemma b32_proper_zero : proper32 (of_int 0) ∧ (B2Q (of_int 0) == 0)%Q.
Proof. split; [apply properb_correct|]; reflexivity. Qed.

Lemma b32_proper_one : proper32 (of_int 1) ∧ (B2Q (of_int 1) == 1)%Q.
Proof. split; [apply properb_correct|]; reflexivity. Qed.

Lemma b32_proper_half : proper32 f_half ∧ (B2Q f_half == 1 # 2)%Q.
Proof. split; [apply properb_correct|]; reflexivity. Qed.

Lemma b32_fadd_finite (x c : float32) :
  proper32 c → is_finite (fadd x c) = true → is_finite x = true.
Proof. intros [Hc _]. apply SFadd_finite_l. exact Hc. Qed.

Lemma b32_to_int_val (a : float32) :
  is_finite a = true → (0 <= B2Q a)%Q → to_int a = Qfloor (B2Q a).
Proof. intros Hf Ha. apply to_Z_floor, B2Q_nonneg_inv; assumption. Qed.

#[export] Instance float32_finite : FiniteArithmetic float32 := {|
  val := B2Q;
  finite := λ a, is_finite a = true;
  proper := proper32;
  proper_zero := b32_proper_zero;
  proper_one := b32_proper_one;
  proper_half := b32_proper_half;
  val_le := SFleb_B2Q;
  fmul_val := SFmul_B2Q;
  fadd_val := SFadd_B2Q;
  fadd_finite := b32_fadd_finite;
  to_int_val := b32_to_int_val;
|}.

End Binary32Finite.


Section Created.
Context {F : Type} `{FloatOps F} `{Indeterminate F}.

Lemma echogramCreate_wf : echogram_wf (ims_shoebox_echogramCreate (F := F)).
Proof. split; simpl; try done. Qed.

Lemma coreWorkspaceCreate_wf nBands :
  lattice_wf (ims_shoebox_coreWorkspaceCreate nBands)
  ∧ echogram_wf (wrk_hEchogram (ims_shoebox_coreWorkspaceCreate nBands)).
Proof. split; [split; reflexivity|apply echogramCreate_wf]. Qed.

End Created.


(** ** Facts about exact arithmetic *)

Section ExactFacts.
Import Exact.

Lemma truncate_le_compat (a b : Q) : (a <= b)%Q → truncate a ≤ truncate b.
Proof.
  intros Hab. unfold truncate.
  destruct (Qle_bool 0 a) eqn:Ha, (Qle_bool 0 b) eqn:Hb.
  - apply Qfloor_resp_le. exact Hab.
  - apply Qle_bool_iff in Ha.
    assert (Hb' : (0 <= b)%Q) by (eapply Qle_trans; eassumption).
    apply Qle_bool_iff in Hb'. congruence.
  - transitivity 0.
    + assert (Hlt : (a < 0)%Q).
      { apply Qnot_le_lt. intros Hc. apply Qle_bool_iff in Hc. congruence. }
      change 0 with (Qceiling 0). apply Qceiling_resp_le. apply Qlt_le_weak. exact Hlt.
    + apply Qle_bool_iff in Hb. change 0 with (Qfloor 0). apply Qfloor_resp_le. exact Hb.
  - apply Qceiling_resp_le. exact Hab.
Qed.

Lemma Qfloor_succ (a : Q) : Qfloor (a + 1) = Qfloor a + 1.
Proof.
  destruct a as [n d]. unfold Qplus, Qfloor. simpl.
  rewrite Z.mul_1_r, Pos.mul_1_r, Z.mul_1_l.
  replace (n + Zpos d) with (n + 1 * Zpos d) by lia.
  apply Z.div_add. discriminate.
Qed.

(** In exact arithmetic the length of line 442 is floor(endtime fs) + 2. *)
Lemma exact_rir_length_of (echogram_abs : echogram_data Q) (fs : Q) :
  (0 <= rir_endtime echogram_abs * fs)%Q →
  rir_length_of echogram_abs fs = Qfloor (rir_endtime echogram_abs * fs) + 2.
Proof.
  intros Hx.
  change (rir_length_of echogram_abs fs)
    with (truncate (rir_endtime echogram_abs * fs + inject_Z 1) + 1).
  unfold truncate.
  assert (H1 : Qle_bool 0 (rir_endtime echogram_abs * fs + inject_Z 1) = true).
  { apply Qle_bool_iff. change 0%Q with (0 + 0)%Q.
    apply Qplus_le_compat; [exact Hx|discriminate]. }
  rewrite H1. change (inject_Z 1) with 1%Q. rewrite Qfloor_succ. lia.
Qed.

Lemma Q_val_le (a b : Q) : True → True → fle a b = true → (a <= b)%Q.
Proof. intros _ _ Hab. apply Qle_bool_iff. exact Hab. Qed.

Lemma Q_fmul_val (a b c : Q) :
  True → True → True → (0 <= a)%Q → (a <= b)%Q → (0 <= c)%Q → True → True →
  (0 <= fmul a c)%Q ∧ (fmul a c <= fmul b c)%Q.
Proof.
  intros _ _ _ Ha Hab Hc _ _. split.
  - apply Qmult_le_0_compat; assumption.
  - apply Qmult_le_compat_r; assumption.
Qed.

Lemma Q_fadd_val (x y c d : Q) :
  True → True → True → True →
  (0 <= x)%Q → (x <= y)%Q → (0 < c)%Q → (c <= d)%Q → True → True →
  (0 <= fadd x c)%Q ∧ (fadd x c <= fadd y d)%Q.
Proof. intros _ _ _ _ Hx Hxy Hc Hcd _ _. simpl. split; lra. Qed.

Lemma Q_to_int_val (a : Q) : True → (0 <= a)%Q → to_int a = Qfloor a.
Proof.
  intros _ Ha. simpl. unfold truncate.
  apply Qle_bool_iff in Ha. rewrite Ha. reflexivity.
Qed.

#[export] Instance Q_finite : FiniteArithmetic Q := {|
  val := λ a, a;
  finite := λ _, True;
  proper := λ _, True;
  proper_zero := conj I (Qeq_refl 0);
  proper_one := conj I (Qeq_refl 1);
  proper_half := conj I (Qeq_refl (1 # 2));
  val_le := Q_val_le;
  fmul_val := Q_fmul_val;
  fadd_val := Q_fadd_val;
  fadd_finite := λ _ _ _ _, I;
  to_int_val := Q_to_int_val;
|}.

End ExactFacts.

(** ** Containers and the first call *)

Section Containers.
Context {F : Type} `{FloatOps F} `{MathOps F} `{Indeterminate F}.

#[local] Existing Instance float_inhabited.
#[local] Existing Instance pos_inhabited.
#[local] Existing Instance int3_inhabited.



End Containers.

Section FirstCall.
Context {F : Type} `{FloatOps F} `{MathOps F} `{Indeterminate F}.

#[local] Existing Instance float_inhabited.
#[local] Existing Instance pos_inhabited.
#[local] Existing Instance int3_inhabited.

Lemma refresh_indices_positions (wrk : ims_core_workspace F) room d_max :
  wrk_src (refresh_indices wrk room d_max) = wrk_src wrk
  ∧ wrk_rec (refresh_indices wrk room d_max) = wrk_rec wrk
  ∧ wrk_numImageSources (refresh_indices wrk room d_max) = wrk_numImageSources wrk.
Proof.
  unfold refresh_indices. destruct (indices_changed wrk room d_max); [|auto].
  unfold update_indices.
  match goal with
  | |- context [for_loop ?n ?b ?s] => destruct (for_loop n b s) as [[[? ?] ?] [[? ?] ?]]
  end.
  simpl. auto.
Qed.

Lemma refresh_indices_room (wrk : ims_core_workspace F) room d_max :
  wrk_room (refresh_indices wrk room d_max) = room.
Proof.
  unfold refresh_indices. destruct (indices_changed wrk room d_max) eqn:Hch.
  - apply update_indices_fields.
  - unfold indices_changed in Hch. rewrite !orb_false_iff, !negb_false_iff in Hch.
    destruct Hch as [[[_ E0] E1] E2]. apply Z.eqb_eq in E0, E1, E2.
    destruct (wrk_room wrk), room. simpl in *. congruence.
Qed.

(** Lines 246-248 once the first block has run: the room comparison of
    line 248 is between equal values, and what is left is the comparison
    of the cached positions with the centred ones. *)
Lemma echogram_changed_refreshed (wrk : ims_core_workspace F) room d_max so ro :
  echogram_changed (refresh_indices wrk room d_max) room so ro
  = fne (pos_x (wrk_rec wrk)) (pos_x ro) || fne (pos_y (wrk_rec wrk)) (pos_y ro)
    || fne (pos_z (wrk_rec wrk)) (pos_z ro) || fne (pos_x (wrk_src wrk)) (pos_x so)
    || fne (pos_y (wrk_src wrk)) (pos_y so) || fne (pos_z (wrk_src wrk)) (pos_z so).
Proof.
  unfold echogram_changed.
  destruct (refresh_indices_positions wrk room d_max) as (-> & -> & _).
  rewrite refresh_indices_room, !Z.eqb_refl. simpl. rewrite !orb_false_r. reflexivity.
Qed.

(** X2: the first [ims_shoebox_coreInit] on a workspace as
    [ims_shoebox_coreWorkspaceCreate] returns it, when a centred
    coordinate of the source or of the receiver differs from the -1 the
    workspace starts with: the room and the centred positions are
    stored, the echogram has one channel and one arrival for each
    lattice point within the maximum distance, in lattice order, with
    time [d / c_ms] and gain [arrival_gain d], and all arrays have the
    sizes the counters say. *)
Theorem coreInit_after_create nBands room src rec maxTime_s c_ms :
  let d_max := fmul maxTime_s c_ms in
  let so := centre room src in
  let ro := centre room rec in
  let wrk' := ims_shoebox_coreInit (ims_shoebox_coreWorkspaceCreate nBands)
                                   room src rec maxTime_s c_ms in
  let pts := valid_points wrk' room so ro d_max in
  fne (of_int (-1)) (pos_x ro) || fne (of_int (-1)) (pos_y ro)
  || fne (of_int (-1)) (pos_z ro) || fne (of_int (-1)) (pos_x so)
  || fne (of_int (-1)) (pos_y so) || fne (of_int (-1)) (pos_z so) = true →
  wrk_room wrk' = room ∧ wrk_src wrk' = so ∧ wrk_rec wrk' = ro
  ∧ wrk_numImageSources wrk' = Z.of_nat (length pts)
  ∧ ec_numImageSources (wrk_hEchogram wrk') = Z.of_nat (length pts)
  ∧ ec_nChannels (wrk_hEchogram wrk') = 1
  ∧ ec_time (wrk_hEchogram wrk') = map (λ i, fdiv (image_d wrk' room so ro i) c_ms) pts
  ∧ ec_value (wrk_hEchogram wrk') = map (λ i, [arrival_gain (image_d wrk' room so ro i)]) pts
  ∧ lattice_wf wrk' ∧ echogram_wf (wrk_hEchogram wrk').
Proof.
  intros d_max so ro wrk' pts Hpos.
  set (wrk0 := ims_shoebox_coreWorkspaceCreate nBands) in *.
  assert (Hl : lattice_wf wrk0) by (split; reflexivity).
  assert (He : echogram_wf (wrk_hEchogram wrk0)) by (split; simpl; done).
  assert (Hch : echogram_changed (refresh_indices wrk0 room d_max) room so ro = true).
  { rewrite echogram_changed_refreshed. exact Hpos. }
  assert (Eq : wrk' = update_echogram (refresh_indices wrk0 room d_max) room so ro d_max c_ms)
    by (apply coreInit_recomputed; exact Hch).
  destruct (coreInit_wf wrk0 room src rec maxTime_s c_ms Hl He) as [Hl' He'].
  pose proof (refresh_indices_wf wrk0 room d_max Hl) as Hl1.
  pose proof He as He1. rewrite <- (refresh_indices_hEchogram wrk0 room d_max) in He1.
  rewrite update_echogram_eq in Eq by assumption.
  refine (conj _ (conj _ (conj _ (conj _ (conj _ (conj _ (conj _ (conj _ (conj Hl' He'))))))))).
  all: unfold pts; rewrite Eq; reflexivity.
Qed.

(** X3: the same first call when all six centred coordinates equal -1,
    the values the workspace is created with: the test of lines 246-248
    sees no change, so only the lattice is built and the echogram stays
    empty. *)
Theorem coreInit_after_create_at_cached_position nBands room src rec maxTime_s c_ms :
  let d_max := fmul maxTime_s c_ms in
  let so := centre room src in
  let ro := centre room rec in
  let wrk0 := ims_shoebox_coreWorkspaceCreate nBands in
  let wrk' := ims_shoebox_coreInit wrk0 room src rec maxTime_s c_ms in
  feq (of_int (-1)) (pos_x ro) = true → feq (of_int (-1)) (pos_y ro) = true →
  feq (of_int (-1)) (pos_z ro) = true → feq (of_int (-1)) (pos_x so) = true →
  feq (of_int (-1)) (pos_y so) = true → feq (of_int (-1)) (pos_z so) = true →
  wrk' = refresh_indices wrk0 room d_max
  ∧ wrk_numImageSources wrk' = 0
  ∧ wrk_hEchogram wrk' = ims_shoebox_echogramCreate
  ∧ ec_numImageSources (wrk_hEchogram wrk') = 0.
Proof.
  intros d_max so ro wrk0 wrk' Hrx Hry Hrz Hsx Hsy Hsz.
  assert (Hch : echogram_changed (refresh_indices wrk0 room d_max) room so ro = false).
  { rewrite echogram_changed_refreshed. clearbody so ro. unfold fne. simpl.
    rewrite Hrx, Hry, Hrz, Hsx, Hsy, Hsz. reflexivity. }
  assert (Eq : wrk' = refresh_indices wrk0 room d_max).
  { unfold wrk', ims_shoebox_coreInit. fold d_max so ro. rewrite Hch. reflexivity. }
  destruct (refresh_indices_positions wrk0 room d_max) as (_ & _ & En).
  pose proof (refresh_indices_hEchogram wrk0 room d_max) as Ee.
  rewrite Eq, En, Ee. repeat split; reflexivity.
Qed.

(** X5: when the centred positions of source and receiver equal the
    cached ones, [ims_shoebox_coreInit] runs its first block at most:
    the echogram, the count of image sources and the cached positions
    are as before, also when the maximum delay or the speed of sound
    have changed. *)
Theorem coreInit_same_positions wrk room src rec maxTime_s c_ms :
  let d_max := fmul maxTime_s c_ms in
  let so := centre room src in
  let ro := centre room rec in
  let wrk' := ims_shoebox_coreInit wrk room src rec maxTime_s c_ms in
  feq (pos_x (wrk_rec wrk)) (pos_x ro) = true → feq (pos_y (wrk_rec wrk)) (pos_y ro) = true →
  feq (pos_z (wrk_rec wrk)) (pos_z ro) = true → feq (pos_x (wrk_src wrk)) (pos_x so) = true →
  feq (pos_y (wrk_src wrk)) (pos_y so) = true → feq (pos_z (wrk_src wrk)) (pos_z so) = true →
  wrk' = refresh_indices wrk room d_max
  ∧ wrk_room wrk' = room
  ∧ wrk_hEchogram wrk' = wrk_hEchogram wrk
  ∧ wrk_numImageSources wrk' = wrk_numImageSources wrk
  ∧ wrk_src wrk' = wrk_src wrk ∧ wrk_rec wrk' = wrk_rec wrk.
Proof.
  intros d_max so ro wrk' Hrx Hry Hrz Hsx Hsy Hsz.
  assert (Hch : echogram_changed (refresh_indices wrk room d_max) room so ro = false).
  { rewrite echogram_changed_refreshed. unfold fne.
    rewrite Hrx, Hry, Hrz, Hsx, Hsy, Hsz. reflexivity. }
  assert (Eq : wrk' = refresh_indices wrk room d_max).
  { unfold wrk', ims_shoebox_coreInit. fold d_max so ro. rewrite Hch. reflexivity. }
  destruct (refresh_indices_positions wrk room d_max) as (Es & Er & En).
  pose proof (refresh_indices_hEchogram wrk room d_max) as Ee.
  pose proof (refresh_indices_room wrk room d_max) as Eroom.
  rewrite Eq. auto 10.
Qed.

End FirstCall.

(** ** The lattice *)

Section Lattice.
Context {F : Type} `{FloatOps F} `{MathOps F} `{Indeterminate F}.

#[local] Existing Instance float_inhabited.
#[local] Existing Instance pos_inhabited.
#[local] Existing Instance int3_inhabited.

(** Two lattice points with the same index triple are the same point. *)
Lemma lattice_unique (Nx Ny Nz n m : Z) :
  0 ≤ Nx → 0 ≤ Ny → 0 ≤ Nz →
  0 ≤ n < (2 * Nx + 1) * (2 * Ny + 1) * (2 * Nz + 1) →
  0 ≤ m < (2 * Nx + 1) * (2 * Ny + 1) * (2 * Nz + 1) →
  lattice_i Nx n = lattice_i Nx m → lattice_j Nx Ny n = lattice_j Nx Ny m →
  lattice_k Nx Ny Nz n = lattice_k Nx Ny Nz m → n = m.
Proof.
  unfold lattice_i, lattice_j, lattice_k.
  set (a := 2 * Nx + 1). set (b := 2 * Ny + 1). set (c := 2 * Nz + 1).
  intros HNx HNy HNz Hn Hm Ei Ej Ek.
  assert (Ha : 0 < a) by (unfold a; lia).
  assert (Hb : 0 < b) by (unfold b; lia).
  assert (Hc : 0 < c) by (unfold c; lia).
  assert (Hq : ∀ x, 0 ≤ x < a * b * c → 0 ≤ x / a / b < c).
  { intros x Hx. split.
    - apply Z.div_pos; [apply Z.div_pos|]; lia.
    - apply Z.div_lt_upper_bound; [lia|].
      apply Z.div_lt_upper_bound; [lia|]. lia. }
  assert (Ek' : n / a / b = m / a / b).
  { rewrite !Z.mod_small in Ek by (apply Hq; assumption). lia. }
  assert (Ej' : n / a = m / a).
  { rewrite (Z.div_mod (n / a) b), (Z.div_mod (m / a) b) by lia. rewrite Ek'. lia. }
  rewrite (Z.div_mod n a), (Z.div_mod m a) by lia. rewrite Ej'. lia.
Qed.

(** The second conditional block leaves the lattice as the first one made it. *)
Lemma coreInit_lattice_fields (wrk : ims_core_workspace F) room src rec maxTime_s c_ms :
  let w := refresh_indices wrk room (fmul maxTime_s c_ms) in
  let wrk' := ims_shoebox_coreInit wrk room src rec maxTime_s c_ms in
  wrk_Nx wrk' = wrk_Nx w ∧ wrk_Ny wrk' = wrk_Ny w ∧ wrk_Nz wrk' = wrk_Nz w
  ∧ wrk_lengthVec wrk' = wrk_lengthVec w
  ∧ wrk_II wrk' = wrk_II w ∧ wrk_JJ wrk' = wrk_JJ w ∧ wrk_KK wrk' = wrk_KK w
  ∧ wrk_d_max wrk' = wrk_d_max w.
Proof.
  intros w wrk'. unfold wrk', ims_shoebox_coreInit. fold w.
  destruct (echogram_changed w room _ _); [|auto 10].
  unfold update_echogram.
  repeat match goal with
  | |- context [for_loop ?n ?b ?s] =>
      first [destruct (for_loop n b s) as [[[? ?] ?] ?]
            |destruct (for_loop n b s) as [? ?]]
  end.
  simpl. auto 10.
Qed.

(** X4: when the first block of [ims_shoebox_coreInit] runs (lines
    203-242), [lengthVec] is (2 Nx + 1)(2 Ny + 1)(2 Nz + 1) and II, JJ,
    KK list the lattice [-Nx..Nx] x [-Ny..Ny] x [-Nz..Nz]: every entry
    is a point of it, and every point is the entry of exactly one
    index. *)
Theorem coreInit_lattice_enumeration wrk room src rec maxTime_s c_ms :
  let d_max := fmul maxTime_s c_ms in
  let wrk' := ims_shoebox_coreInit wrk room src rec maxTime_s c_ms in
  let Nx := wrk_Nx wrk' in
  let Ny := wrk_Ny wrk' in
  let Nz := wrk_Nz wrk' in
  let lengthVec := Z.to_nat (wrk_lengthVec wrk') in
  indices_changed wrk room d_max = true →
  0 ≤ Nx → 0 ≤ Ny → 0 ≤ Nz →
  wrk_lengthVec wrk' = (2 * Nx + 1) * (2 * Ny + 1) * (2 * Nz + 1)
  ∧ (∀ n : nat, (n < lengthVec)%nat →
       wrk_II wrk' !!! n = of_int (lattice_i Nx (Z.of_nat n))
       ∧ wrk_JJ wrk' !!! n = of_int (lattice_j Nx Ny (Z.of_nat n))
       ∧ wrk_KK wrk' !!! n = of_int (lattice_k Nx Ny Nz (Z.of_nat n))
       ∧ - Nx ≤ lattice_i Nx (Z.of_nat n) ≤ Nx
       ∧ - Ny ≤ lattice_j Nx Ny (Z.of_nat n) ≤ Ny
       ∧ - Nz ≤ lattice_k Nx Ny Nz (Z.of_nat n) ≤ Nz)
  ∧ (∀ i j k : Z, - Nx ≤ i ≤ Nx → - Ny ≤ j ≤ Ny → - Nz ≤ k ≤ Nz →
       ∃ n : nat, (n < lengthVec)%nat
         ∧ lattice_i Nx (Z.of_nat n) = i ∧ lattice_j Nx Ny (Z.of_nat n) = j
         ∧ lattice_k Nx Ny Nz (Z.of_nat n) = k
         ∧ ∀ m : nat, (m < lengthVec)%nat →
             lattice_i Nx (Z.of_nat m) = i → lattice_j Nx Ny (Z.of_nat m) = j →
             lattice_k Nx Ny Nz (Z.of_nat m) = k → m = n).
Proof.
  intros d_max wrk' Nx Ny Nz lengthVec Hch.
  destruct (coreInit_lattice_fields wrk room src rec maxTime_s c_ms)
    as (ENx & ENy & ENz & EL & EII & EJJ & EKK & _).
  fold d_max wrk' in ENx, ENy, ENz, EL, EII, EJJ, EKK.
  unfold Nx, Ny, Nz, lengthVec. rewrite ENx, ENy, ENz, EL, EII, EJJ, EKK.
  unfold refresh_indices. rewrite Hch.
  clear. set (w := update_indices wrk room d_max).
  intros HNx HNy HNz.
  destruct (update_indices_odometer wrk room d_max HNx HNy HNz)
    as (_ & _ & _ & EL & EII & EJJ & EKK).
  fold w in EL, EII, EJJ, EKK.
  split; [exact EL|]. split.
  - intros n Hn. rewrite EII, EJJ, EKK.
    rewrite !seq_lookup_map by exact Hn.
    destruct (lattice_within (wrk_Nx w) (wrk_Ny w) (wrk_Nz w) (Z.of_nat n) HNx HNy HNz)
      as (Hi & Hj & Hk).
    auto 10.
  - intros i j k Hi Hj Hk.
    destruct (lattice_covers (wrk_Nx w) (wrk_Ny w) (wrk_Nz w) i j k Hi Hj Hk)
      as (n & Hn & Ei & Ej & Ek).
    rewrite <- EL in Hn.
    exists (Z.to_nat n). rewrite Z2Nat.id by lia.
    split; [lia|]. split; [exact Ei|]. split; [exact Ej|]. split; [exact Ek|].
    intros m Hm Ei' Ej' Ek'.
    apply Nat2Z.inj. rewrite Z2Nat.id by lia.
    apply (lattice_unique (wrk_Nx w) (wrk_Ny w) (wrk_Nz w)); try assumption;
      try congruence; rewrite <- EL; lia.
Qed.

End Lattice.

(** ** The receiver module, channel by channel *)

Section RecModuleMore.
Context {F : Type} `{FloatOps F} `{MathOps F} `{Indeterminate F} `{Collaborators F}.

#[local] Existing Instance float_inhabited.
#[local] Existing Instance pos_inhabited.
#[local] Existing Instance int3_inhabited.

(** Lines 345-346: the channels of one arrival, one by one. *)
Lemma rec_sh_channels (g : nat → F) (i m : nat) (value : list (list F)) :
  (i < length value)%nat → (m ≤ length (value !!! i))%nat →
  for_loop m (λ j value, <[i := <[j := g j]> (value !!! i)]> value) value
  = <[i := fill g m (value !!! i)]> value.
Proof.
  intros Hi. induction m as [|m IH]; intros Hm.
  - unfold fill. simpl. rewrite drop_0. symmetry. apply list_insert_id.
    apply list_lookup_lookup_total_lt. exact Hi.
  - rewrite for_loop_S, IH by lia.
    rewrite list_lookup_total_insert_eq by exact Hi.
    rewrite list_insert_insert_eq. rewrite <- fill_S by lia. reflexivity.
Qed.

(** Lines 338-347, on rows of [nSH] channels. *)
Lemma rec_sh_loop (echogram : echogram_data F) (coords : list (ims_pos_xyz F))
    (sh_order : Z) (nSH n : nat) (value : list (list F)) :
  (n ≤ length value)%nat → Forall (λ row, length row = nSH) value →
  for_loop n (rec_sh_body echogram coords sh_order (Z.of_nat nSH)) value
  = fill (λ i, map (λ j, fmul (sh_weights sh_order (coords !!! i) !!! j)
                              (at_int (ec_value echogram) (ec_sortedIdx echogram !!! i) !!! O))
                   (seq 0 nSH))
         n value.
Proof.
  intros Hn Hrows. induction n as [|n IH].
  - unfold fill. simpl. rewrite drop_0. reflexivity.
  - rewrite for_loop_S, IH by lia. unfold rec_sh_body, sh_weights.
    rewrite at_int_of_nat, Nat2Z.id.
    destruct (unitCart2Sph (coords !!! n)) as [azi elev] eqn:E.
    set (G := λ i : nat, map _ (seq 0 nSH)).
    assert (Hrow : fill G n value !!! n = value !!! n).
    { unfold fill. rewrite lookup_total_app_r by (rewrite length_map, length_seq; lia).
      rewrite length_map, length_seq, Nat.sub_diag, lookup_total_drop, Nat.add_0_r.
      reflexivity. }
    assert (Hlen : length (value !!! n) = nSH).
    { apply (Forall_lookup_1 _ _ n _ Hrows). apply list_lookup_lookup_total_lt. lia. }
    rewrite (rec_sh_channels
               (λ j, fmul (getSHreal_recur sh_order
                             (azi, fsub (fdiv SAF_PI (of_int 2)) elev) !!! j)
                          (at_int (ec_value echogram) (ec_sortedIdx echogram !!! n) !!! O)))
      by (rewrite ?Hrow, ?fill_length; lia).
    rewrite Hrow, fill_all by exact Hlen.
    rewrite <- fill_S by lia. unfold G at 2. rewrite E. reflexivity.
Qed.

Lemma coreRecModuleSH_value wrk sh_order :
  echogram_wf (wrk_hEchogram wrk) → echogram_wf (wrk_hEchogram_rec wrk) →
  let echogram := wrk_hEchogram wrk in
  let n := Z.to_nat (ec_numImageSources echogram) in
  let nSH := Z.to_nat (ORDER2NSH sh_order) in
  let rec' := wrk_hEchogram_rec (ims_shoebox_coreRecModuleSH wrk sh_order) in
  sh_order ≠ 0 →
  ec_value rec'
  = map (λ i, map (λ j, fmul (sh_weights sh_order
                                (at_int (ec_coords echogram) (ec_sortedIdx echogram !!! i))
                              !!! j)
                             (at_int (ec_value echogram) (ec_sortedIdx echogram !!! i) !!! O))
                  (seq 0 nSH))
        (seq 0 n).
Proof.
  intros He Hr echogram n nSH rec' Hord.
  pose proof (ORDER2NSH_nonneg sh_order) as Hc.
  pose proof (ewf_n _ He) as Hn.
  pose proof (echogramResize_wf (wrk_hEchogram_rec wrk)
                (ec_numImageSources echogram) (ORDER2NSH sh_order) Hn Hc Hr) as Hwf.
  destruct (echogramResize_dims (wrk_hEchogram_rec wrk)
              (ec_numImageSources echogram) (ORDER2NSH sh_order)) as [Hdn Hdc].
  unfold rec', ims_shoebox_coreRecModuleSH. simpl.
  fold echogram.
  set (r := ims_shoebox_echogramResize (wrk_hEchogram_rec wrk)
              (ec_numImageSources echogram) (ORDER2NSH sh_order)) in *.
  destruct Hwf as [_ _ Hv Hrows Ht Ho Hco Hs].
  rewrite Hdn in *. fold n in Hv, Ht, Ho, Hco, Hs. fold n.
  rewrite rec_copy_loop by lia. simpl.
  rewrite !fill_all by assumption.
  destruct (sh_order =? 0) eqn:E0; [apply Z.eqb_eq in E0; contradiction|].
  rewrite Hdc in Hrows. fold nSH in Hrows.
  rewrite <- (Z2Nat.id (ORDER2NSH sh_order)) by exact Hc. fold nSH.
  rewrite rec_sh_loop by (exact Hrows || lia).
  rewrite fill_all by exact Hv.
  apply map_ext_in. intros i Hi. apply in_seq in Hi.
  rewrite seq_lookup_map by lia. reflexivity.
Qed.

(** X7: for an order other than 0, [ims_shoebox_coreRecModuleSH] gives
    the encoded echogram (order + 1)^2 channels and the arrivals of the
    echogram; arrival [i] has the coordinates of the [i]-th arrival in
    the order of [sortedIdx], and its channel [j] is the [j]-th
    spherical-harmonic weight of the direction of these coordinates
    times the pressure of that arrival. *)
Theorem coreRecModuleSH_sh_weights wrk sh_order :
  let echogram := wrk_hEchogram wrk in
  let n := Z.to_nat (ec_numImageSources echogram) in
  let nSH := Z.to_nat (ORDER2NSH sh_order) in
  let rec' := wrk_hEchogram_rec (ims_shoebox_coreRecModuleSH wrk sh_order) in
  echogram_wf echogram → echogram_wf (wrk_hEchogram_rec wrk) → sh_order ≠ 0 →
  ec_nChannels rec' = ORDER2NSH sh_order
  ∧ ec_numImageSources rec' = ec_numImageSources echogram
  ∧ (∀ i, (i < n)%nat → ec_coords rec' !!! i
                         = at_int (ec_coords echogram) (ec_sortedIdx echogram !!! i))
  ∧ ec_value rec'
    = map (λ i, map (λ j, fmul (sh_weights sh_order (ec_coords rec' !!! i) !!! j)
                               (at_int (ec_value echogram) (ec_sortedIdx echogram !!! i) !!! O))
                    (seq 0 nSH))
          (seq 0 n).
Proof.
  intros echogram n nSH rec' He Hr Hord.
  destruct (coreRecModuleSH_rec wrk sh_order He Hr) as (En & Ec & _ & _ & Eco & _ & _).
  fold echogram n rec' in En, Ec, Eco.
  assert (Hco : ∀ i, (i < n)%nat →
            ec_coords rec' !!! i = at_int (ec_coords echogram) (ec_sortedIdx echogram !!! i)).
  { intros i Hi. rewrite Eco.
    exact (seq_lookup_map
             (λ i, at_int (ec_coords echogram) (ec_sortedIdx echogram !!! i)) n i Hi). }
  refine (conj Ec (conj En (conj Hco _))).
  unfold rec' at 1. rewrite (coreRecModuleSH_value wrk sh_order He Hr Hord).
  fold echogram n nSH.
  apply map_ext_in. intros i Hi. apply in_seq in Hi. rewrite Hco by lia. reflexivity.
Qed.

(** The encoded echogram after the call, whatever it held before. *)
Lemma coreRecModuleSH_wf wrk sh_order :
  echogram_wf (wrk_hEchogram wrk) → echogram_wf (wrk_hEchogram_rec wrk) →
  echogram_wf (wrk_hEchogram_rec (ims_shoebox_coreRecModuleSH wrk sh_order)).
Proof.
  intros He Hr.
  destruct (coreRecModuleSH_rec wrk sh_order He Hr) as (En & Ec & Et & Eo & Eco & Es & Ev).
  pose proof (ORDER2NSH_nonneg sh_order) as Hc.
  pose proof (ewf_n _ He) as Hn.
  split; rewrite ?En, ?Ec, ?Et, ?Eo, ?Eco, ?Es, ?length_map, ?length_seq; try done.
  - destruct (Z.eq_dec sh_order 0) as [E0|E0].
    + rewrite (Ev E0), length_map, length_seq. reflexivity.
    + rewrite (coreRecModuleSH_value wrk sh_order He Hr E0), length_map, length_seq.
      reflexivity.
  - destruct (Z.eq_dec sh_order 0) as [E0|E0].
    + rewrite (Ev E0). apply Forall_forall. intros row Hrow.
      apply list_elem_of_fmap in Hrow as (i & -> & _). rewrite E0. reflexivity.
    + rewrite (coreRecModuleSH_value wrk sh_order He Hr E0).
      apply Forall_forall. intros row Hrow.
      apply list_elem_of_fmap in Hrow as (i & -> & _).
      rewrite length_map, length_seq. reflexivity.
Qed.

Lemma echogram_eq (a b : echogram_data F) :
  ec_numImageSources a = ec_numImageSources b → ec_nChannels a = ec_nChannels b →
  ec_value a = ec_value b → ec_time a = ec_time b → ec_order a = ec_order b →
  ec_coords a = ec_coords b → ec_sortedIdx a = ec_sortedIdx b → a = b.
Proof. destruct a, b. simpl. intros. subst. reflexivity. Qed.

Lemma workspace_eq (a b : ims_core_workspace F) :
  wrk_d_max a = wrk_d_max b → wrk_lengthVec a = wrk_lengthVec b →
  wrk_numImageSources a = wrk_numImageSources b → wrk_room a = wrk_room b →
  wrk_Nx a = wrk_Nx b → wrk_Ny a = wrk_Ny b → wrk_Nz a = wrk_Nz b →
  wrk_src a = wrk_src b → wrk_rec a = wrk_rec b → wrk_nBands a = wrk_nBands b →
  wrk_validIDs a = wrk_validIDs b →
  wrk_II a = wrk_II b → wrk_JJ a = wrk_JJ b → wrk_KK a = wrk_KK b →
  wrk_s_x a = wrk_s_x b → wrk_s_y a = wrk_s_y b → wrk_s_z a = wrk_s_z b →
  wrk_s_d a = wrk_s_d b → wrk_s_t a = wrk_s_t b → wrk_s_att a = wrk_s_att b →
  wrk_refreshEchogramFLAG a = wrk_refreshEchogramFLAG b →
  wrk_hEchogram a = wrk_hEchogram b → wrk_hEchogram_rec a = wrk_hEchogram_rec b →
  wrk_hEchogram_abs a = wrk_hEchogram_abs b →
  wrk_refreshRIRFLAG a = wrk_refreshRIRFLAG b →
  wrk_rir_len_samples a = wrk_rir_len_samples b →
  wrk_rir_len_seconds a = wrk_rir_len_seconds b →
  wrk_rir_bands a = wrk_rir_bands b → a = b.
Proof. destruct a, b. simpl. intros. subst. reflexivity. Qed.

(** X8: the encoded echogram that [ims_shoebox_coreRecModuleSH] leaves
    depends on the echogram and the order only, not on what the encoded
    echogram held before; the echogram itself is not changed; and a
    second call with the same order changes nothing. *)
Theorem coreRecModuleSH_overwrites wrk wrk2 sh_order :
  let wrk' := ims_shoebox_coreRecModuleSH wrk sh_order in
  echogram_wf (wrk_hEchogram wrk) →
  echogram_wf (wrk_hEchogram_rec wrk) → echogram_wf (wrk_hEchogram_rec wrk2) →
  wrk_hEchogram wrk2 = wrk_hEchogram wrk →
  wrk_hEchogram_rec (ims_shoebox_coreRecModuleSH wrk2 sh_order) = wrk_hEchogram_rec wrk'
  ∧ wrk_hEchogram wrk' = wrk_hEchogram wrk
  ∧ ims_shoebox_coreRecModuleSH wrk' sh_order = wrk'.
Proof.
  intros wrk' He Hr Hr2 E.
  assert (Hdet : ∀ w, echogram_wf (wrk_hEchogram_rec w) → wrk_hEchogram w = wrk_hEchogram wrk →
            wrk_hEchogram_rec (ims_shoebox_coreRecModuleSH w sh_order) = wrk_hEchogram_rec wrk').
  { intros w Hw Ew. pose proof He as He'. rewrite <- Ew in He'.
    destruct (coreRecModuleSH_rec w sh_order He' Hw) as (En & Ec & Et & Eo & Eco & Es & Ev).
    destruct (coreRecModuleSH_rec wrk sh_order He Hr) as (En' & Ec' & Et' & Eo' & Eco' & Es' & Ev').
    fold wrk' in En', Ec', Et', Eo', Eco', Es', Ev'.
    apply echogram_eq; rewrite ?En, ?Ec, ?Et, ?Eo, ?Eco, ?Es, ?En', ?Ec', ?Et', ?Eo', ?Eco', ?Es', ?Ew;
      try reflexivity.
    destruct (Z.eq_dec sh_order 0) as [E0|E0].
    - rewrite (Ev E0), (Ev' E0), Ew. reflexivity.
    - unfold wrk'. rewrite (coreRecModuleSH_value w sh_order He' Hw E0),
        (coreRecModuleSH_value wrk sh_order He Hr E0), Ew. reflexivity. }
  split; [apply Hdet; assumption|]. split; [reflexivity|].
  assert (Hfix : wrk_hEchogram_rec (ims_shoebox_coreRecModuleSH wrk' sh_order)
                 = wrk_hEchogram_rec wrk').
  { apply Hdet; [apply coreRecModuleSH_wf; assumption|reflexivity]. }
  apply workspace_eq; try reflexivity. exact Hfix.
Qed.

End RecModuleMore.

(** ** The absorption module, arrival by arrival *)

Section AbsorptionMore.
Context {F : Type} `{FloatOps F} `{MathOps F} `{Indeterminate F}.

#[local] Existing Instance float_inhabited.
#[local] Existing Instance pos_inhabited.
#[local] Existing Instance int3_inhabited.
#[local] Existing Instance echogram_inhabited.

Lemma utility_svsmul_all (row : list F) (s : F) (len : Z) :
  length row = Z.to_nat len → utility_svsmul row s len = map (λ v, fmul v s) row.
Proof.
  intros Hlen. unfold utility_svsmul.
  rewrite take_ge, drop_ge, app_nil_r by lia. reflexivity.
Qed.

(** Lines 389-417: the arrivals are attenuated one by one, each by the
    factor of its own reflection orders. *)
Lemma absorption_loop (r_x r_y r_z : F * F) (ec : echogram_data F) (k : nat) :
  (k ≤ length (ec_value ec))%nat →
  for_loop k (absorption_body r_x r_y r_z) ec
  = Echogram (ec_numImageSources ec) (ec_nChannels ec)
      (fill (λ i, utility_svsmul (ec_value ec !!! i)
                    (total_absorption r_x r_y r_z (ec_order ec !!! i)) (ec_nChannels ec))
            k (ec_value ec))
      (ec_time ec) (ec_order ec) (ec_coords ec) (ec_sortedIdx ec).
Proof.
  intros Hk. induction k as [|k IH].
  - unfold fill. simpl. rewrite drop_0. destruct ec; reflexivity.
  - rewrite for_loop_S, IH by lia. unfold absorption_body.
    cbn [ec_time ec_order ec_coords ec_sortedIdx ec_value ec_numImageSources ec_nChannels].
    set (G := λ i : nat, utility_svsmul _ _ _).
    assert (Hrow : fill G k (ec_value ec) !!! k = ec_value ec !!! k).
    { unfold fill. rewrite lookup_total_app_r by (rewrite length_map, length_seq; lia).
      rewrite length_map, length_seq, Nat.sub_diag, lookup_total_drop, Nat.add_0_r.
      reflexivity. }
    rewrite Hrow. rewrite <- fill_S by lia. reflexivity.
Qed.

Lemma absorption_echogram_eq (echogram_rec : echogram_data F) abs_wall band echogram_abs :
  echogram_wf echogram_rec → echogram_wf echogram_abs →
  absorption_echogram echogram_rec abs_wall band echogram_abs
  = Echogram (ec_numImageSources echogram_rec) (ec_nChannels echogram_rec)
      (map (λ i, map (λ v, fmul v (band_absorption abs_wall band
                                     (ec_order echogram_rec !!! i)))
                     (ec_value echogram_rec !!! i))
           (seq 0 (Z.to_nat (ec_numImageSources echogram_rec))))
      (ec_time echogram_rec) (ec_order echogram_rec) (ec_coords echogram_rec)
      (ec_sortedIdx echogram_rec).
Proof.
  intros Hr Ha. unfold absorption_echogram.
  pose proof (echogramResize_wf echogram_abs (ec_numImageSources echogram_rec)
                (ec_nChannels echogram_rec) (ewf_n _ Hr) (ewf_c _ Hr) Ha) as Hwf.
  destruct (echogramResize_dims echogram_abs (ec_numImageSources echogram_rec)
              (ec_nChannels echogram_rec)) as [Hdn Hdc].
  set (r := ims_shoebox_echogramResize echogram_abs (ec_numImageSources echogram_rec)
              (ec_nChannels echogram_rec)) in *.
  destruct Hwf as [_ _ Hv _ Ht Ho Hco Hs]. destruct Hr as [_ _ Hv' Hrows' Ht' Ho' Hco' Hs'].
  rewrite Hdn in *. rewrite Hdc.
  rewrite !memcpy_all by assumption.
  rewrite absorption_loop by (simpl; lia). simpl.
  rewrite fill_all by exact Hv'.
  f_equal. apply map_ext_in. intros i Hi. apply in_seq in Hi.
  rewrite utility_svsmul_all; [reflexivity|].
  apply (Forall_lookup_1 _ _ i _ Hrows'). apply list_lookup_lookup_total_lt. lia.
Qed.

Lemma coreAbsorptionModule_lookup wrk abs_wall (band : nat) :
  length (wrk_hEchogram_abs wrk) = Z.to_nat (wrk_nBands wrk) →
  (band < Z.to_nat (wrk_nBands wrk))%nat →
  wrk_hEchogram_abs (ims_shoebox_coreAbsorptionModule wrk abs_wall) !!! band
  = absorption_echogram (wrk_hEchogram_rec wrk) abs_wall band
                        (wrk_hEchogram_abs wrk !!! band).
Proof.
  intros Hlen Hband. unfold ims_shoebox_coreAbsorptionModule. simpl.
  unfold absorption_band.
  rewrite (for_loop_scatter
             (λ b ec, absorption_echogram (wrk_hEchogram_rec wrk) abs_wall b ec))
    by lia.
  rewrite scatter_seq_lookup by lia. reflexivity.
Qed.

(** X9: after [ims_shoebox_coreAbsorptionModule] the echogram of a band
    has the counters, times, orders, coordinates and sort indices of
    the encoded echogram, and the values of arrival [i] are those of
    the encoded echogram, each multiplied by the attenuation of the
    band for the reflection orders of the arrival. *)
Theorem coreAbsorptionModule_band wrk abs_wall (band : nat) :
  let echogram_rec := wrk_hEchogram_rec wrk in
  let wrk' := ims_shoebox_coreAbsorptionModule wrk abs_wall in
  let echogram_abs := wrk_hEchogram_abs wrk' !!! band in
  let n := Z.to_nat (ec_numImageSources echogram_rec) in
  echogram_wf echogram_rec →
  length (wrk_hEchogram_abs wrk) = Z.to_nat (wrk_nBands wrk) →
  Forall echogram_wf (wrk_hEchogram_abs wrk) →
  (band < Z.to_nat (wrk_nBands wrk))%nat →
  ec_numImageSources echogram_abs = ec_numImageSources echogram_rec
  ∧ ec_nChannels echogram_abs = ec_nChannels echogram_rec
  ∧ ec_time echogram_abs = ec_time echogram_rec
  ∧ ec_order echogram_abs = ec_order echogram_rec
  ∧ ec_coords echogram_abs = ec_coords echogram_rec
  ∧ ec_sortedIdx echogram_abs = ec_sortedIdx echogram_rec
  ∧ ec_value echogram_abs
    = map (λ i, map (λ v, fmul v (band_absorption abs_wall band
                                    (ec_order echogram_rec !!! i)))
                    (ec_value echogram_rec !!! i))
          (seq 0 n).
Proof.
  intros echogram_rec wrk' echogram_abs n Hr Hlen Habs Hband.
  unfold echogram_abs, wrk'. rewrite coreAbsorptionModule_lookup by assumption.
  rewrite absorption_echogram_eq; [simpl; auto 10|exact Hr|].
  apply (Forall_lookup_1 _ _ band _ Habs). apply list_lookup_lookup_total_lt. lia.
Qed.

(** X10: the attenuation along an axis for order [-m] with the
    reflection coefficients [r0], [r1] of the two walls is the one for
    order [m] with the walls swapped, when the product of floats is
    commutative. *)
Theorem axis_absorption_mirror (r0 r1 : F) (m : Z) :
  (∀ a b : F, fmul a b = fmul b a) →
  axis_absorption r0 r1 (- m) = axis_absorption r1 r0 m.
Proof.
  intros Hcomm. unfold axis_absorption.
  rewrite Z.rem_opp_l by lia. rewrite Z.abs_opp.
  destruct (Z.rem m 2 =? 0) eqn:Hpar.
  - apply Z.eqb_eq in Hpar. rewrite Hpar. simpl. apply Hcomm.
  - assert (Hodd : (- Z.rem m 2 =? 0) = false).
    { apply Z.eqb_neq. apply Z.eqb_neq in Hpar. lia. }
    rewrite Hodd.
    assert (Hm : m ≠ 0).
    { intros ->. apply Z.eqb_neq in Hpar. apply Hpar. reflexivity. }
    destruct (0 <? m) eqn:Hpos.
    + apply Z.ltb_lt in Hpos.
      assert (Hneg : (0 <? - m) = false) by (apply Z.ltb_ge; lia).
      rewrite Hneg, Z.abs_eq by lia. apply Hcomm.
    + apply Z.ltb_ge in Hpos.
      assert (Hneg : (0 <? - m) = true) by (apply Z.ltb_lt; lia).
      rewrite Hneg. replace (- m) with (Z.abs m) by lia. apply Hcomm.
Qed.

Section DirectPath.
Hypothesis half_zero : fdiv (of_int 0) (of_int 2) = of_int 0.
Hypothesis pow_zero : ∀ x : F, powf x (of_int 0) = of_int 1.
Hypothesis mul_one_one : fmul (of_int 1) (of_int 1) = of_int 1.

Lemma axis_absorption_order0 (r0 r1 : F) : axis_absorption r0 r1 0 = of_int 1.
Proof.
  unfold axis_absorption. change (Z.rem 0 2 =? 0) with true. cbv iota.
  change (Z.abs 0) with 0. rewrite half_zero, !pow_zero. exact mul_one_one.
Qed.

(** X11: an arrival of order (0, 0, 0), the direct path, is attenuated
    by 1.0f in every band, whatever the absorption coefficients: when
    0 / 2 = 0, powf(x, 0) = 1 and 1 * 1 = 1, as IEEE 754 and C99 have
    them, its values are those of the encoded echogram multiplied by
    1. *)
Theorem coreAbsorptionModule_order0 wrk abs_wall (band i : nat) :
  let echogram_rec := wrk_hEchogram_rec wrk in
  let wrk' := ims_shoebox_coreAbsorptionModule wrk abs_wall in
  let echogram_abs := wrk_hEchogram_abs wrk' !!! band in
  echogram_wf echogram_rec →
  length (wrk_hEchogram_abs wrk) = Z.to_nat (wrk_nBands wrk) →
  Forall echogram_wf (wrk_hEchogram_abs wrk) →
  (band < Z.to_nat (wrk_nBands wrk))%nat →
  (i < Z.to_nat (ec_numImageSources echogram_rec))%nat →
  ec_order echogram_rec !!! i = Int3 0 0 0 →
  band_absorption abs_wall band (ec_order echogram_rec !!! i) = of_int 1
  ∧ ec_value echogram_abs !!! i
    = map (λ v, fmul v (of_int 1)) (ec_value echogram_rec !!! i).
Proof.
  intros echogram_rec wrk' echogram_abs Hr Hlen Habs Hband Hi Hord.
  assert (Hone : band_absorption abs_wall band (ec_order echogram_rec !!! i) = of_int 1).
  { rewrite Hord. unfold band_absorption, total_absorption. simpl.
    rewrite !axis_absorption_order0, !mul_one_one. reflexivity. }
  split; [exact Hone|].
  unfold echogram_abs, wrk'. rewrite coreAbsorptionModule_lookup by assumption.
  rewrite absorption_echogram_eq; [simpl|exact Hr|].
  - rewrite (seq_lookup_map
               (λ i, map (λ v, fmul v (band_absorption abs_wall band
                                         (ec_order (wrk_hEchogram_rec wrk) !!! i)))
                         (ec_value (wrk_hEchogram_rec wrk) !!! i))) by exact Hi.
    fold echogram_rec. rewrite Hone. reflexivity.
  - apply (Forall_lookup_1 _ _ band _ Habs). apply list_lookup_lookup_total_lt. lia.
Qed.

End DirectPath.

End AbsorptionMore.

(** ** The impulse trains, sample by sample *)

Section RenderMore.
Context {F : Type} `{FloatOps F} `{Indeterminate F} `{Collaborators F}.

#[local] Existing Instance float_inhabited.
#[local] Existing Instance echogram_inhabited.

Lemma set_int_lookup (row : list F) (idx : Z) (x : F) (k : nat) :
  (k < length row)%nat →
  set_int row idx x !!! k = if idx =? Z.of_nat k then x else row !!! k.
Proof.
  intros Hk. unfold set_int.
  destruct (Z.ltb_spec idx 0) as [Hneg|Hpos].
  - destruct (Z.eqb_spec idx (Z.of_nat k)); [lia|reflexivity].
  - destruct (Z.eqb_spec idx (Z.of_nat k)) as [->|Hne].
    + rewrite Nat2Z.id. apply list_lookup_total_insert_eq. exact Hk.
    + apply list_lookup_total_insert_ne. lia.
Qed.

(** Lines 459-460: one arrival, added to every channel. *)
Lemma accumulate_body_scatter echogram_abs fs (i : nat) (rir_band : list (list F)) :
  (Z.to_nat (ec_nChannels echogram_abs) ≤ length rir_band)%nat →
  accumulate_body echogram_abs fs i rir_band
  = scatter (λ j row, set_int row (refl_index echogram_abs fs i)
                        (fadd (at_int row (refl_index echogram_abs fs i))
                              ((ec_value echogram_abs !!! i) !!! j)))
            (seq 0 (Z.to_nat (ec_nChannels echogram_abs))) rir_band.
Proof.
  intros Hc. unfold accumulate_body.
  apply (for_loop_scatter
           (λ j row, set_int row (refl_index echogram_abs fs i)
                       (fadd (at_int row (refl_index echogram_abs fs i))
                             ((ec_value echogram_abs !!! i) !!! j)))).
  exact Hc.
Qed.

Lemma accumulated_S echogram_abs fs (j : nat) (k : Z) (n : nat) :
  accumulated echogram_abs fs j k (S n)
  = if refl_index echogram_abs fs n =? k
    then fadd (accumulated echogram_abs fs j k n) ((ec_value echogram_abs !!! n) !!! j)
    else accumulated echogram_abs fs j k n.
Proof. unfold accumulated. rewrite for_loop_S. reflexivity. Qed.

(** Lines 451-461, cell by cell. *)
Lemma impulse_train_cells echogram_abs fs (rir_band : list (list F)) (j k : nat) :
  (j < Z.to_nat (ec_nChannels echogram_abs))%nat →
  (k < Z.to_nat (rir_length_of echogram_abs fs))%nat →
  (impulse_train echogram_abs fs rir_band !!! j) !!! k
  = accumulated echogram_abs fs j (Z.of_nat k)
                (Z.to_nat (ec_numImageSources echogram_abs)).
Proof.
  intros Hj Hk. unfold impulse_train.
  set (C := Z.to_nat (ec_nChannels echogram_abs)) in *.
  set (L := Z.to_nat (rir_length_of echogram_abs fs)) in *.
  set (r0 := map (map (λ _, of_int 0))
                 (realloc2d indet_float rir_band (ec_nChannels echogram_abs)
                            (rir_length_of echogram_abs fs))).
  assert (Hlen0 : length r0 = C).
  { unfold r0, realloc2d. rewrite length_map, length_resize. reflexivity. }
  assert (Hrows0 : Forall (λ row, length row = L) r0).
  { unfold r0, realloc2d. apply Forall_fmap. apply Forall_resize.
    - simpl. rewrite length_map, length_replicate. reflexivity.
    - apply Forall_fmap. apply Forall_forall. intros row _. simpl.
      rewrite length_map, length_resize. reflexivity. }
  assert (Hzero : ∀ j' k', (j' < C)%nat → (k' < L)%nat →
            (r0 !!! j') !!! k' = of_int 0).
  { intros j' k' Hj' Hk'.
    assert (Hz : Forall (Forall (λ v, v = of_int 0)) r0).
    { unfold r0. apply Forall_fmap. apply Forall_forall. intros row _. simpl.
      apply Forall_fmap. apply Forall_forall. intros v _. reflexivity. }
    assert (Hr : Forall (λ v, v = of_int 0) (r0 !!! j')).
    { apply (Forall_lookup_1 _ _ j' _ Hz). apply list_lookup_lookup_total_lt. lia. }
    apply (Forall_lookup_1 _ _ k' _ Hr). apply list_lookup_lookup_total_lt.
    rewrite (Forall_lookup_1 _ _ j' _ Hrows0); [exact Hk'|].
    apply list_lookup_lookup_total_lt. lia. }
  apply (for_loop_ind
           (λ n r, length r = C ∧ Forall (λ row, length row = L) r
                   ∧ ∀ j' k', (j' < C)%nat → (k' < L)%nat →
                       (r !!! j') !!! k' = accumulated echogram_abs fs j' (Z.of_nat k') n));
    [| |exact Hj|exact Hk].
  - refine (conj Hlen0 (conj Hrows0 _)). intros j' k' Hj' Hk'.
    rewrite Hzero by assumption. reflexivity.
  - intros i r _ (Hlen & Hrows & Hcells).
    destruct (accumulate_body_shape echogram_abs fs i r L Hrows) as [Hl' Hr'].
    refine (conj (eq_trans Hl' Hlen) (conj Hr' _)).
    intros j' k' Hj' Hk'.
    rewrite accumulate_body_scatter by (fold C; lia). fold C.
    rewrite scatter_seq_lookup by lia.
    assert (Hrow : length (r !!! j') = L).
    { apply (Forall_lookup_1 _ _ j' _ Hrows). apply list_lookup_lookup_total_lt. lia. }
    rewrite set_int_lookup by lia. rewrite accumulated_S.
    destruct (Z.eqb_spec (refl_index echogram_abs fs i) (Z.of_nat k')) as [E|E].
    + rewrite E, at_int_of_nat, Hcells by assumption. reflexivity.
    + apply Hcells; assumption.
Qed.

Lemma accumulated_untouched echogram_abs fs (j : nat) (k : Z) (n : nat) :
  (∀ i, (i < n)%nat → refl_index echogram_abs fs i ≠ k) →
  accumulated echogram_abs fs j k n = of_int 0.
Proof.
  intros Hne. induction n as [|n IH]; [reflexivity|].
  rewrite accumulated_S.
  destruct (Z.eqb_spec (refl_index echogram_abs fs n) k) as [E|E].
  - exfalso. apply (Hne n); [lia|exact E].
  - apply IH. intros i Hi. apply Hne. lia.
Qed.

(** X13: without fractional delays and with every arrival inside the
    impulse train (a write outside is undefined in C), sample [k] of
    channel [j] of the train of a band is the sum, from 0 and in the
    order of the arrivals, of the values of channel [j] of the arrivals
    whose sample index is [k]; a sample that no arrival falls on
    is 0. *)
Theorem renderRIR_impulse_train wrk fs H_filt rir (band j k : nat) :
  let echogram_abs := wrk_hEchogram_abs wrk !!! band in
  let n := Z.to_nat (ec_numImageSources echogram_abs) in
  let wrk' := fst (ims_shoebox_renderRIR wrk 0 fs H_filt rir) in
  length (wrk_rir_bands wrk) = Z.to_nat (wrk_nBands wrk) →
  (band < Z.to_nat (wrk_nBands wrk))%nat →
  (∀ i, (i < n)%nat →
        0 ≤ refl_index echogram_abs fs i < rir_length_of echogram_abs fs) →
  (j < Z.to_nat (ec_nChannels echogram_abs))%nat →
  (k < Z.to_nat (rir_length_of echogram_abs fs))%nat →
  ((wrk_rir_bands wrk' !!! band) !!! j) !!! k
  = accumulated echogram_abs fs j (Z.of_nat k) n
  ∧ ((∀ i, (i < n)%nat → refl_index echogram_abs fs i ≠ Z.of_nat k) →
     ((wrk_rir_bands wrk' !!! band) !!! j) !!! k = of_int 0).
Proof.
  intros echogram_abs n wrk' Hlen Hband _ Hj Hk.
  assert (Eq : ((wrk_rir_bands wrk' !!! band) !!! j) !!! k
               = accumulated echogram_abs fs j (Z.of_nat k) n).
  { unfold wrk'. rewrite renderRIR_workspace.
    destruct (render_bands_loop wrk fs (Z.to_nat (wrk_nBands wrk)) ltac:(lia))
      as (_ & _ & Er & _).
    rewrite Er, scatter_seq_lookup by lia. apply impulse_train_cells; assumption. }
  split; [exact Eq|].
  intros Hne. rewrite Eq. apply accumulated_untouched. exact Hne.
Qed.

(** X14: with [fractionalDelayFLAG] set, the loop over the bands leaves
    the workspace as it is: no impulse train is rendered and neither
    length is stored. *)
Theorem renderRIR_fractional_delay wrk fractionalDelayFLAG fs H_filt rir :
  fractionalDelayFLAG ≠ 0 →
  fst (ims_shoebox_renderRIR wrk fractionalDelayFLAG fs H_filt rir) = wrk.
Proof.
  intros Hflag. unfold ims_shoebox_renderRIR. cbn [fst].
  apply (for_loop_ind (λ _ w, w = wrk)); [reflexivity|].
  intros band w _ ->. unfold render_band.
  destruct (Z.eqb_spec fractionalDelayFLAG 0); [contradiction|reflexivity].
Qed.

End RenderMore.

(** ** The output *)

Section RenderOutput.
Context {F : Type} `{FloatOps F} `{Indeterminate F} `{Collaborators F}.

#[local] Existing Instance float_inhabited.
#[local] Existing Instance echogram_inhabited.

Lemma utility_svvadd_at_length (data : list F) (off : Z) (b : list F) (len : Z) :
  0 ≤ off → 0 ≤ len → (Z.to_nat (off + len) ≤ length data)%nat →
  length b = Z.to_nat len →
  length (utility_svvadd_at data off b len) = length data.
Proof.
  intros Hoff Hlen Hdata Hb. unfold utility_svvadd_at.
  rewrite !length_app, length_zip_with, !length_take, !length_drop. lia.
Qed.

Lemma utility_svvadd_at_lookup (data : list F) (off : Z) (b : list F) (len : Z) (p : nat) :
  0 ≤ off → 0 ≤ len → (Z.to_nat (off + len) ≤ length data)%nat →
  length b = Z.to_nat len → (p < length data)%nat →
  utility_svvadd_at data off b len !!! p
  = if (Z.to_nat off <=? p)%nat && (p <? Z.to_nat (off + len))%nat
    then fadd (data !!! p) (b !!! (p - Z.to_nat off)%nat)
    else data !!! p.
Proof.
  intros Hoff Hlen Hdata Hb Hp. unfold utility_svvadd_at.
  destruct (Nat.leb_spec (Z.to_nat off) p) as [Hlo|Hlo]; simpl.
  - rewrite lookup_total_app_r by (rewrite length_take; lia).
    rewrite length_take, Nat.min_l by lia.
    destruct (Nat.ltb_spec p (Z.to_nat (off + len))) as [Hhi|Hhi].
    + rewrite lookup_total_app_l
        by (rewrite length_zip_with, !length_take, length_drop; lia).
      apply list_lookup_total_correct. apply lookup_zip_with_Some.
      exists (data !!! p), (b !!! (p - Z.to_nat off)%nat).
      split; [reflexivity|]. split.
      * rewrite lookup_take_lt by lia. rewrite lookup_drop.
        replace (Z.to_nat off + (p - Z.to_nat off))%nat with p by lia.
        apply list_lookup_lookup_total_lt. exact Hp.
      * rewrite lookup_take_lt by lia. apply list_lookup_lookup_total_lt. lia.
    + rewrite lookup_total_app_r
        by (rewrite length_zip_with, !length_take, length_drop; lia).
      rewrite length_zip_with, !length_take, length_drop.
      rewrite lookup_total_drop. f_equal. lia.
  - rewrite lookup_total_app_l by (rewrite length_take; lia).
    apply lookup_total_take_lt. lia.
Qed.

(** Cell [k] of channel [c] lies in the stretch of channel [i] only when
    [c] is [i]. *)
Lemma channel_cell (Ln c i k : nat) :
  (k < Ln)%nat →
  (i * Ln <=? c * Ln + k)%nat && (c * Ln + k <? i * Ln + Ln)%nat = (c =? i)%nat.
Proof.
  intros Hk. destruct (Nat.eqb_spec c i) as [->|Hne].
  - apply andb_true_iff. split; [apply Nat.leb_le|apply Nat.ltb_lt]; lia.
  - apply andb_false_iff.
    destruct (Nat.lt_ge_cases c i) as [Hlt|Hge].
    + left. apply Nat.leb_gt.
      assert ((c + 1) * Ln ≤ i * Ln)%nat by (apply Nat.mul_le_mono_r; lia). lia.
    + right. apply Nat.ltb_ge.
      assert ((i + 1) * Ln ≤ c * Ln)%nat by (apply Nat.mul_le_mono_r; lia). lia.
Qed.

Lemma cell_in_range (C Ln c k : nat) :
  (c < C)%nat → (k < Ln)%nat → (c * Ln + k < C * Ln)%nat.
Proof.
  intros Hc Hk.
  assert ((c + 1) * Ln ≤ C * Ln)%nat by (apply Nat.mul_le_mono_r; lia). lia.
Qed.

(** Lines 485-486: one band is added to the output, channel by channel. *)
Lemma sum_band_cells (wrk : ims_core_workspace F) H_filt (band : nat) (data : list F)
    (C Ln : nat) :
  wrk_rir_len_samples wrk = Z.of_nat Ln →
  ec_nChannels (wrk_hEchogram_abs wrk !!! band) = Z.of_nat C →
  length (wrk_rir_bands wrk !!! band) = C →
  Forall (λ row, length row = Ln) (wrk_rir_bands wrk !!! band) →
  length data = (C * Ln)%nat →
  length (sum_band wrk H_filt band data) = (C * Ln)%nat
  ∧ ∀ c k, (c < C)%nat → (k < Ln)%nat →
      sum_band wrk H_filt band data !!! (c * Ln + k)%nat
      = fadd (data !!! (c * Ln + k)%nat) (((wrk_rir_bands wrk !!! band) !!! c) !!! k).
Proof.
  intros EL EC Hrowsn Hrows Hdata. unfold sum_band. cbv zeta.
  rewrite EL, EC, Nat2Z.id.
  set (rows := wrk_rir_bands wrk !!! band) in *.
  assert (Hinv : ∀ i, (i ≤ C)%nat →
    let d := for_loop i
               (λ i data, utility_svvadd_at data (Z.of_nat i * Z.of_nat Ln)
                            (rows !!! i) (Z.of_nat Ln)) data in
    length d = (C * Ln)%nat
    ∧ ∀ c k, (c < C)%nat → (k < Ln)%nat →
        d !!! (c * Ln + k)%nat
        = if (c <? i)%nat
          then fadd (data !!! (c * Ln + k)%nat) ((rows !!! c) !!! k)
          else data !!! (c * Ln + k)%nat).
  { induction i as [|i IH]; intros Hi d.
    - split; [exact Hdata|]. intros c k _ _. reflexivity.
    - destruct (IH ltac:(lia)) as [Hlen Hcells]. clear IH.
      unfold d. rewrite for_loop_S.
      set (d0 := for_loop i _ data) in *.
      assert (Hrow : length (rows !!! i) = Z.to_nat (Z.of_nat Ln)).
      { rewrite Nat2Z.id. apply (Forall_lookup_1 _ _ i _ Hrows).
        apply list_lookup_lookup_total_lt. lia. }
      assert (Hoff : Z.to_nat (Z.of_nat i * Z.of_nat Ln) = (i * Ln)%nat) by lia.
      assert (Hend : Z.to_nat (Z.of_nat i * Z.of_nat Ln + Z.of_nat Ln) = (i * Ln + Ln)%nat)
        by lia.
      assert (Hfit : (i * Ln + Ln ≤ C * Ln)%nat).
      { assert ((i + 1) * Ln ≤ C * Ln)%nat by (apply Nat.mul_le_mono_r; lia). lia. }
      split.
      + rewrite utility_svvadd_at_length; [exact Hlen|lia|lia|lia|exact Hrow].
      + intros c k Hc Hk.
        pose proof (cell_in_range C Ln c k Hc Hk) as Hp.
        rewrite utility_svvadd_at_lookup; [|lia|lia|lia|exact Hrow|lia].
        rewrite Hoff, Hend, channel_cell by exact Hk.
        rewrite Hcells by assumption.
        destruct (Nat.eqb_spec c i) as [->|Hne].
        * rewrite Nat.ltb_irrefl.
          replace (i <? S i)%nat with true by (symmetry; apply Nat.ltb_lt; lia).
          f_equal. f_equal. lia.
        * destruct (Nat.ltb_spec c i) as [Hlt|Hge].
          -- replace (c <? S i)%nat with true by (symmetry; apply Nat.ltb_lt; lia).
             reflexivity.
          -- replace (c <? S i)%nat with false by (symmetry; apply Nat.ltb_ge; lia).
             reflexivity. }
  destruct (Hinv C ltac:(lia)) as [Hlen Hcells].
  split; [exact Hlen|].
  intros c k Hc Hk. rewrite Hcells by assumption.
  replace (c <? C)%nat with true by (symmetry; apply Nat.ltb_lt; lia). reflexivity.
Qed.

Lemma band_sum_S (rir_bands : list (list (list F))) (c k n : nat) :
  band_sum rir_bands c k (S n)
  = fadd (band_sum rir_bands c k n) (((rir_bands !!! n) !!! c) !!! k).
Proof. unfold band_sum. rewrite for_loop_S. reflexivity. Qed.

(** X15: the output of [ims_shoebox_renderRIR]: [nChannels] is the
    channel count of band 0, [length] the stored [rir_len_samples],
    [data] has nChannels x length cells, and when every band has that
    many channels of that length, sample [k] of channel [c] is the sum
    over the bands, from 0 and in band order, of sample [k] of channel
    [c] of their impulse trains.  What [fftconv] computes goes to
    [temp] and no further: the output is the same for every
    [H_filt]. *)
Theorem renderRIR_output wrk fractionalDelayFLAG fs H_filt rir :
  let wrk' := fst (ims_shoebox_renderRIR wrk fractionalDelayFLAG fs H_filt rir) in
  let rir' := snd (ims_shoebox_renderRIR wrk fractionalDelayFLAG fs H_filt rir) in
  let C := Z.to_nat (ec_nChannels (wrk_hEchogram_abs wrk' !!! O)) in
  let L := Z.to_nat (wrk_rir_len_samples wrk') in
  let nBands := Z.to_nat (wrk_nBands wrk') in
  0 ≤ ec_nChannels (wrk_hEchogram_abs wrk' !!! O) → 0 ≤ wrk_rir_len_samples wrk' →
  (rir_nChannels rir = ec_nChannels (wrk_hEchogram_abs wrk' !!! O) →
   rir_length rir = wrk_rir_len_samples wrk' → length (rir_data rir) = (C * L)%nat) →
  (∀ band, (band < nBands)%nat →
     ec_nChannels (wrk_hEchogram_abs wrk' !!! band)
     = ec_nChannels (wrk_hEchogram_abs wrk' !!! O)
     ∧ length (wrk_rir_bands wrk' !!! band) = C
     ∧ Forall (λ row, length row = L) (wrk_rir_bands wrk' !!! band)) →
  rir_nChannels rir' = ec_nChannels (wrk_hEchogram_abs wrk' !!! O)
  ∧ rir_length rir' = wrk_rir_len_samples wrk'
  ∧ length (rir_data rir') = (C * L)%nat
  ∧ (∀ c k, (c < C)%nat → (k < L)%nat →
       rir_data rir' !!! (c * L + k)%nat = band_sum (wrk_rir_bands wrk') c k nBands)
  ∧ (∀ H_filt',
       ims_shoebox_renderRIR wrk fractionalDelayFLAG fs H_filt' rir
       = ims_shoebox_renderRIR wrk fractionalDelayFLAG fs H_filt rir).
Proof.
  intros wrk' rir' C L nBands HC HL Hrir Hbands.
  assert (Hfilt : ∀ H_filt',
            ims_shoebox_renderRIR wrk fractionalDelayFLAG fs H_filt' rir
            = ims_shoebox_renderRIR wrk fractionalDelayFLAG fs H_filt rir)
    by reflexivity.
  unfold rir', ims_shoebox_renderRIR. cbv zeta. cbn [snd].
  change (for_loop (Z.to_nat (wrk_nBands wrk)) (render_band fractionalDelayFLAG fs) wrk)
    with wrk'.
  set (Cz := ec_nChannels (wrk_hEchogram_abs wrk' !!! O)) in *.
  set (Lz := wrk_rir_len_samples wrk') in *.
  set (r1 := if negb (Cz =? rir_nChannels rir) || negb (Lz =? rir_length rir)
             then Rir (realloc1d indet_float (rir_data rir) (Cz * Lz)) Lz Cz
             else rir).
  assert (Hr1 : rir_nChannels r1 = Cz ∧ rir_length r1 = Lz
                ∧ length (rir_data r1) = (C * L)%nat).
  { unfold r1.
    destruct (Z.eqb_spec Cz (rir_nChannels rir)) as [E1|E1];
      destruct (Z.eqb_spec Lz (rir_length rir)) as [E2|E2]; simpl;
      try (refine (conj eq_refl (conj eq_refl _)); unfold realloc1d;
           rewrite length_resize; unfold C, L; lia).
    refine (conj (eq_sym E1) (conj (eq_sym E2) _)). apply Hrir; congruence. }
  destruct Hr1 as (E1 & E2 & E3). cbn [rir_nChannels rir_length rir_data].
  refine (conj E1 (conj E2 _)).
  set (d0 := replicate (Z.to_nat (Cz * Lz)) (of_int 0)
             ++ drop (Z.to_nat (Cz * Lz)) (rir_data r1)).
  assert (Hsize : Z.to_nat (Cz * Lz) = (C * L)%nat) by (unfold C, L; lia).
  assert (Hd0 : length d0 = (C * L)%nat).
  { unfold d0. rewrite length_app, length_replicate, length_drop. lia. }
  assert (Hz0 : ∀ c k, (c < C)%nat → (k < L)%nat → d0 !!! (c * L + k)%nat = of_int 0).
  { intros c k Hc Hk. pose proof (cell_in_range C L c k Hc Hk) as Hp.
    unfold d0. rewrite lookup_total_app_l by (rewrite length_replicate; lia).
    apply list_lookup_total_correct. apply lookup_replicate_2. lia. }
  assert (Hinv : ∀ b, (b ≤ nBands)%nat →
            let d := for_loop b (sum_band wrk' H_filt) d0 in
            length d = (C * L)%nat
            ∧ ∀ c k, (c < C)%nat → (k < L)%nat →
                d !!! (c * L + k)%nat = band_sum (wrk_rir_bands wrk') c k b).
  { induction b as [|b IH]; intros Hb d.
    - split; [exact Hd0|]. intros c k Hc Hk. apply Hz0; assumption.
    - destruct (IH ltac:(lia)) as [Hlen Hcells]. clear IH.
      unfold d. rewrite for_loop_S.
      destruct (Hbands b ltac:(lia)) as (Ec & Hn & Hrows).
      destruct (sum_band_cells wrk' H_filt b (for_loop b (sum_band wrk' H_filt) d0) C L)
        as [Hlen' Hcells']; try assumption.
      + unfold L. fold Lz. lia.
      + rewrite Ec. unfold C. fold Cz. lia.
      + split; [exact Hlen'|]. intros c k Hc Hk.
        rewrite Hcells', Hcells, band_sum_S by assumption. reflexivity. }
  destruct (Hinv nBands ltac:(lia)) as [Hlen Hcells].
  unfold nBands in Hlen, Hcells.
  refine (conj Hlen (conj Hcells Hfilt)).
Qed.

End RenderOutput.

(** ** What every sequence of calls keeps *)

Section Invariants.
Context {F : Type} `{FloatOps F} `{MathOps F} `{Indeterminate F} `{Collaborators F}.

#[local] Existing Instance float_inhabited.
#[local] Existing Instance pos_inhabited.
#[local] Existing Instance int3_inhabited.
#[local] Existing Instance echogram_inhabited.

(** [ims_shoebox_coreInit] touches the lattice and the raw echogram only. *)
Lemma coreInit_frame (wrk : ims_core_workspace F) room src rec maxTime_s c_ms :
  let wrk' := ims_shoebox_coreInit wrk room src rec maxTime_s c_ms in
  wrk_hEchogram_rec wrk' = wrk_hEchogram_rec wrk
  ∧ wrk_hEchogram_abs wrk' = wrk_hEchogram_abs wrk
  ∧ wrk_nBands wrk' = wrk_nBands wrk
  ∧ wrk_rir_bands wrk' = wrk_rir_bands wrk.
Proof.
  intros wrk'. unfold wrk', ims_shoebox_coreInit.
  assert (Hr : ∀ w : ims_core_workspace F,
            wrk_hEchogram_rec (refresh_indices w room (fmul maxTime_s c_ms))
            = wrk_hEchogram_rec w
            ∧ wrk_hEchogram_abs (refresh_indices w room (fmul maxTime_s c_ms))
              = wrk_hEchogram_abs w
            ∧ wrk_nBands (refresh_indices w room (fmul maxTime_s c_ms)) = wrk_nBands w
            ∧ wrk_rir_bands (refresh_indices w room (fmul maxTime_s c_ms))
              = wrk_rir_bands w).
  { intros w. unfold refresh_indices. destruct (indices_changed w room _); [|auto].
    unfold update_indices.
    match goal with
    | |- context [for_loop ?n ?b ?s] => destruct (for_loop n b s) as [[[? ?] ?] [[? ?] ?]]
    end.
    simpl. auto. }
  destruct (Hr wrk) as (E1 & E2 & E3 & E4).
  destruct (echogram_changed _ room _ _); [|auto].
  rewrite <- E1, <- E2, <- E3, <- E4.
  unfold update_echogram.
  repeat match goal with
  | |- context [for_loop ?n ?b ?s] =>
      first [destruct (for_loop n b s) as [[[? ?] ?] ?]
            |destruct (for_loop n b s) as [? ?]]
  end.
  simpl. auto.
Qed.

Lemma coreInit_count (wrk : ims_core_workspace F) room src rec maxTime_s c_ms :
  let wrk' := ims_shoebox_coreInit wrk room src rec maxTime_s c_ms in
  lattice_wf wrk → echogram_wf (wrk_hEchogram wrk) →
  ec_numImageSources (wrk_hEchogram wrk) = wrk_numImageSources wrk →
  ec_numImageSources (wrk_hEchogram wrk') = wrk_numImageSources wrk'.
Proof.
  intros wrk' Hl He Hcount. unfold wrk', ims_shoebox_coreInit.
  set (d_max := fmul maxTime_s c_ms).
  pose proof (refresh_indices_wf wrk room d_max Hl) as Hl1.
  pose proof (refresh_indices_hEchogram wrk room d_max) as Ee.
  destruct (refresh_indices_positions wrk room d_max) as (_ & _ & En).
  destruct (echogram_changed _ room _ _).
  - rewrite update_echogram_eq by (try assumption; rewrite Ee; assumption).
    reflexivity.
  - rewrite Ee, En. exact Hcount.
Qed.

Lemma absorption_echogram_wf (echogram_rec : echogram_data F) abs_wall band echogram_abs :
  echogram_wf echogram_rec → echogram_wf echogram_abs →
  echogram_wf (absorption_echogram echogram_rec abs_wall band echogram_abs).
Proof.
  intros Hr Ha. rewrite absorption_echogram_eq by assumption.
  destruct Hr as [Hn Hc Hv Hrows Ht Ho Hco Hs].
  split; simpl; rewrite ?length_map, ?length_seq; try done.
  apply Forall_forall. intros row Hrow.
  apply list_elem_of_fmap in Hrow as (i & -> & Hi).
  apply elem_of_seq in Hi. rewrite length_map.
  apply (Forall_lookup_1 _ _ i _ Hrows). apply list_lookup_lookup_total_lt. lia.
Qed.

Lemma coreAbsorptionModule_wf wrk abs_wall :
  echogram_wf (wrk_hEchogram_rec wrk) →
  length (wrk_hEchogram_abs wrk) = Z.to_nat (wrk_nBands wrk) →
  Forall echogram_wf (wrk_hEchogram_abs wrk) →
  let wrk' := ims_shoebox_coreAbsorptionModule wrk abs_wall in
  length (wrk_hEchogram_abs wrk') = Z.to_nat (wrk_nBands wrk)
  ∧ Forall echogram_wf (wrk_hEchogram_abs wrk').
Proof.
  intros Hr Hlen Habs wrk'.
  assert (Hl' : length (wrk_hEchogram_abs wrk') = Z.to_nat (wrk_nBands wrk)).
  { unfold wrk', ims_shoebox_coreAbsorptionModule. simpl. unfold absorption_band.
    rewrite (for_loop_scatter
               (λ b ec, absorption_echogram (wrk_hEchogram_rec wrk) abs_wall b ec))
      by lia.
    rewrite scatter_length by (rewrite length_seq; lia). exact Hlen. }
  split; [exact Hl'|].
  apply Forall_lookup. intros band ec Hband.
  assert (Hb : (band < Z.to_nat (wrk_nBands wrk))%nat).
  { rewrite <- Hl'. apply lookup_lt_is_Some. eauto. }
  apply list_lookup_total_correct in Hband. rewrite <- Hband.
  unfold wrk'. rewrite coreAbsorptionModule_lookup by assumption.
  apply absorption_echogram_wf; [exact Hr|].
  apply (Forall_lookup_1 _ _ band _ Habs). apply list_lookup_lookup_total_lt. lia.
Qed.

Lemma run_call_wf (wrk : ims_core_workspace F) (call : core_call) :
  workspace_wf wrk → workspace_wf (run_call wrk call).
Proof.
  intros [Hl He Hr Ha Hb Hrir Hcount].
  destruct call as [room src rec maxTime_s c_ms|sh_order|abs_wall]; simpl.
  - destruct (coreInit_wf wrk room src rec maxTime_s c_ms Hl He) as [Hl' He'].
    destruct (coreInit_frame wrk room src rec maxTime_s c_ms) as (E1 & E2 & E3 & E4).
    split; rewrite ?E1, ?E2, ?E3, ?E4; try assumption.
    apply coreInit_count; assumption.
  - split; try assumption.
    + destruct Hl. split; assumption.
    + apply coreRecModuleSH_wf; assumption.
  - destruct (coreAbsorptionModule_wf wrk abs_wall Hr Hb Ha) as [Hb' Ha'].
    split; try assumption.
    destruct Hl. split; assumption.
Qed.

(** X6: after [ims_shoebox_coreWorkspaceCreate] and any sequence of
    calls of [ims_shoebox_coreInit], [ims_shoebox_coreRecModuleSH] and
    [ims_shoebox_coreAbsorptionModule], with any arguments, every array
    of the workspace has the size its counters say, there is one
    absorption echogram and one impulse-train buffer for each band, and
    the echogram holds [numImageSources] arrivals. *)
Theorem core_calls_keep_sizes (nBands : Z) (calls : list core_call) :
  workspace_wf (foldl run_call (ims_shoebox_coreWorkspaceCreate nBands) calls).
Proof.
  assert (Hinit : workspace_wf (ims_shoebox_coreWorkspaceCreate (F := F) nBands)).
  { split; simpl; try reflexivity; rewrite ?length_replicate; try reflexivity.
    - split; reflexivity.
    - split; simpl; done.
    - split; simpl; done.
    - apply Forall_replicate. split; simpl; done. }
  revert Hinit. generalize (ims_shoebox_coreWorkspaceCreate (F := F) nBands).
  induction calls as [|call calls IH]; intros wrk Hwf; [exact Hwf|].
  simpl. apply IH. apply run_call_wf. exact Hwf.
Qed.

(** X17: [ims_shoebox_coreRecModuleSH] followed by
    [ims_shoebox_coreAbsorptionModule]: the echogram of each band has
    the arrivals of the echogram in the order of [sortedIdx],
    (order + 1)^2 channels and the identity as its sort index; when
    [sortedIdx] orders the times, the times of the band do not
    decrease, which is what [ims_shoebox_renderRIR] relies on. *)
Theorem recModule_then_absorption wrk sh_order abs_wall (band : nat) :
  let echogram := wrk_hEchogram wrk in
  let n := Z.to_nat (ec_numImageSources echogram) in
  let wrk' := ims_shoebox_coreAbsorptionModule
                (ims_shoebox_coreRecModuleSH wrk sh_order) abs_wall in
  let echogram_abs := wrk_hEchogram_abs wrk' !!! band in
  echogram_wf echogram → echogram_wf (wrk_hEchogram_rec wrk) →
  length (wrk_hEchogram_abs wrk) = Z.to_nat (wrk_nBands wrk) →
  Forall echogram_wf (wrk_hEchogram_abs wrk) →
  (band < Z.to_nat (wrk_nBands wrk))%nat →
  (∀ i, (S i < n)%nat →
        fle (at_int (ec_time echogram) (ec_sortedIdx echogram !!! i))
            (at_int (ec_time echogram) (ec_sortedIdx echogram !!! S i)) = true) →
  ec_numImageSources echogram_abs = ec_numImageSources echogram
  ∧ ec_nChannels echogram_abs = ORDER2NSH sh_order
  ∧ length (ec_time echogram_abs) = n
  ∧ ec_time echogram_abs
    = map (λ i, at_int (ec_time echogram) (ec_sortedIdx echogram !!! i)) (seq 0 n)
  ∧ ec_sortedIdx echogram_abs = map Z.of_nat (seq 0 n)
  ∧ (∀ i, (S i < n)%nat →
          fle (ec_time echogram_abs !!! i) (ec_time echogram_abs !!! S i) = true).
Proof.
  intros echogram n wrk' echogram_abs He Hr Hlen Habs Hband Hsorted.
  set (wrk1 := ims_shoebox_coreRecModuleSH wrk sh_order) in *.
  destruct (coreRecModuleSH_rec wrk sh_order He Hr) as (En & Ec & Et & _ & _ & Es & _).
  fold echogram n wrk1 in En, Ec, Et, Es.
  pose proof (coreRecModuleSH_wf wrk sh_order He Hr) as Hr1. fold wrk1 in Hr1.
  assert (Hframe : wrk_hEchogram_abs wrk1 = wrk_hEchogram_abs wrk
                   ∧ wrk_nBands wrk1 = wrk_nBands wrk) by (split; reflexivity).
  destruct Hframe as [Ea Eb].
  assert (Eabs : wrk_hEchogram_abs wrk' !!! band
                 = absorption_echogram (wrk_hEchogram_rec wrk1) abs_wall band
                                       (wrk_hEchogram_abs wrk1 !!! band)).
  { unfold wrk'. apply coreAbsorptionModule_lookup; rewrite ?Ea, ?Eb; assumption. }
  rewrite absorption_echogram_eq in Eabs;
    [|exact Hr1|rewrite Ea; apply (Forall_lookup_1 _ _ band _ Habs);
                apply list_lookup_lookup_total_lt; lia].
  unfold echogram_abs. rewrite Eabs. cbn [ec_numImageSources ec_nChannels ec_time ec_sortedIdx].
  rewrite En, Ec, Et, Es.
  refine (conj eq_refl (conj eq_refl (conj _ (conj eq_refl (conj eq_refl _))))).
  - rewrite length_map, length_seq. reflexivity.
  - intros i Hi. rewrite !(seq_lookup_map _ n) by lia. apply Hsorted. exact Hi.
Qed.

End Invariants.

(** ** From one call to the next *)

Section PipelineShape.
Context {F : Type} `{FloatOps F} `{MathOps F} `{Indeterminate F} `{Collaborators F}.

#[local] Existing Instance float_inhabited.
#[local] Existing Instance pos_inhabited.
#[local] Existing Instance int3_inhabited.
#[local] Existing Instance echogram_inhabited.

Lemma rir_length_of_ext (a b : echogram_data F) (fs : F) :
  ec_numImageSources a = ec_numImageSources b → ec_time a = ec_time b →
  rir_length_of a fs = rir_length_of b fs.
Proof. intros En Et. unfold rir_length_of, rir_endtime. rewrite En, Et. reflexivity. Qed.

(** X18: [ims_shoebox_coreAbsorptionModule] followed by
    [ims_shoebox_renderRIR]: all bands have the times of the encoded
    echogram, so the stored [rir_len_samples] is the length for the
    last arrival of the encoded echogram, and the train of every band
    has the channels of the encoded echogram and that length. *)
Theorem absorption_then_render wrk abs_wall fs H_filt rir (band : nat) :
  let echogram_rec := wrk_hEchogram_rec wrk in
  let wrk1 := ims_shoebox_coreAbsorptionModule wrk abs_wall in
  let wrk' := fst (ims_shoebox_renderRIR wrk1 0 fs H_filt rir) in
  echogram_wf echogram_rec →
  length (wrk_hEchogram_abs wrk) = Z.to_nat (wrk_nBands wrk) →
  Forall echogram_wf (wrk_hEchogram_abs wrk) →
  length (wrk_rir_bands wrk) = Z.to_nat (wrk_nBands wrk) →
  (band < Z.to_nat (wrk_nBands wrk))%nat →
  wrk_rir_len_samples wrk' = rir_length_of echogram_rec fs
  ∧ ec_nChannels (wrk_hEchogram_abs wrk' !!! band) = ec_nChannels echogram_rec
  ∧ length (wrk_rir_bands wrk' !!! band) = Z.to_nat (ec_nChannels echogram_rec)
  ∧ Forall (λ row, length row = Z.to_nat (wrk_rir_len_samples wrk'))
           (wrk_rir_bands wrk' !!! band).
Proof.
  intros echogram_rec wrk1 wrk' Hr Hlen Habs Hrir Hband.
  assert (Hb : ∀ b, (b < Z.to_nat (wrk_nBands wrk))%nat →
            ec_numImageSources (wrk_hEchogram_abs wrk1 !!! b) = ec_numImageSources echogram_rec
            ∧ ec_nChannels (wrk_hEchogram_abs wrk1 !!! b) = ec_nChannels echogram_rec
            ∧ ec_time (wrk_hEchogram_abs wrk1 !!! b) = ec_time echogram_rec).
  { intros b Hlt. unfold wrk1. rewrite coreAbsorptionModule_lookup by assumption.
    rewrite absorption_echogram_eq; [simpl; auto|exact Hr|].
    apply (Forall_lookup_1 _ _ b _ Habs). apply list_lookup_lookup_total_lt. lia. }
  assert (Hlenb : ∀ b, (b < Z.to_nat (wrk_nBands wrk))%nat →
            rir_length_of (wrk_hEchogram_abs wrk1 !!! b) fs = rir_length_of echogram_rec fs).
  { intros b Hlt. destruct (Hb b Hlt) as (En & _ & Et). apply rir_length_of_ext; assumption. }
  assert (En1 : wrk_nBands wrk1 = wrk_nBands wrk) by reflexivity.
  assert (Er1 : wrk_rir_bands wrk1 = wrk_rir_bands wrk) by reflexivity.
  destruct (render_bands_loop wrk1 fs (Z.to_nat (wrk_nBands wrk1))
              ltac:(rewrite Er1, En1; lia)) as (Ea & _ & _ & El).
  change (for_loop (Z.to_nat (wrk_nBands wrk1)) (render_band 0 fs) wrk1) with wrk' in Ea, El.
  assert (EL : wrk_rir_len_samples wrk' = rir_length_of echogram_rec fs).
  { destruct (Z.to_nat (wrk_nBands wrk1)) as [|k'] eqn:Ek; [rewrite En1 in Ek; lia|].
    rewrite (El k' eq_refl). apply Hlenb. rewrite <- En1, Ek. lia. }
  destruct (renderRIR_band_shape wrk1 fs H_filt rir band
              ltac:(rewrite Er1, En1; exact Hrir) ltac:(rewrite En1; exact Hband))
    as [Hrows Hcols].
  fold wrk' in Hrows, Hcols.
  destruct (Hb band Hband) as (_ & Ec & _).
  rewrite Ea, EL. rewrite Ec in Hrows. rewrite Hlenb in Hcols by exact Hband.
  exact (conj eq_refl (conj Ec (conj Hrows Hcols))).
Qed.

End PipelineShape.

Section Binary32More.
Import Binary32.

#[local] Existing Instance float_inhabited.
#[local] Existing Instance pos_inhabited.
#[local] Existing Instance int3_inhabited.
#[local] Existing Instance echogram_inhabited.

Lemma b32_mul_comm (a b : float32) : fmul a b = fmul b a.
Proof.
  change (SFmul prec emax a b = SFmul prec emax b a).
  destruct a as [sa|sa| |sa ma ea], b as [sb|sb| |sb mb eb]; unfold SFmul;
    rewrite ?(xorb_comm sa sb), ?(Pos.mul_comm ma mb), ?(Z.add_comm ea eb);
    reflexivity.
Qed.

Lemma b32_pow_zero (x : float32) : powf x (of_int 0) = of_int 1.
Proof.
  change (pow32 x (S754_zero false) = one). unfold pow32.
  destruct (SFeqb x one); reflexivity.
Qed.

(** Lines 285-287 on a lattice index: [(int)(i + 0.5f)] is the integer
    part of [i + 0.5], which is [i] itself from 0 upwards and [i + 1]
    below 0.  By evaluation over the range. *)
Lemma b32_order_of_index (i : Z) :
  -4096 ≤ i ≤ 4096 →
  to_int (fadd (of_int i : float32) f_half) = if i <? 0 then i + 1 else i.
Proof.
  intros Hi.
  assert (Hall : forallb
            (λ n, let i := Z.of_nat n - 4096 in
                  to_int (fadd (of_int i : float32) f_half) =? (if i <? 0 then i + 1 else i))
            (seq 0 (Z.to_nat 8193)) = true) by (vm_compute; reflexivity).
  rewrite forallb_forall in Hall.
  specialize (Hall (Z.to_nat (i + 4096))).
  cbv zeta in Hall. rewrite Z2Nat.id in Hall by lia.
  replace (i + 4096 - 4096) with i in Hall by lia.
  apply Z.eqb_eq. apply Hall. apply in_seq. lia.
Qed.

(** X12: on binary32, for a lattice of at most 4096 points each way
    along an axis, the order [(int)(II + 0.5f)] that lines 285-287
    store for a lattice index [i] is [i] when [i >= 0] and [i + 1] when
    [i < 0]: the conversion truncates toward zero, so the order of a
    negative index is stored one closer to zero. *)
Theorem coreInit_stored_order (wrk : ims_core_workspace float32) room src rec maxTime_s c_ms :
  let d_max := fmul maxTime_s c_ms in
  let so := centre room src in
  let ro := centre room rec in
  let wrk' := ims_shoebox_coreInit wrk room src rec maxTime_s c_ms in
  let Nx := wrk_Nx wrk' in
  let Ny := wrk_Ny wrk' in
  let Nz := wrk_Nz wrk' in
  let stored := λ i : Z, if i <? 0 then i + 1 else i in
  lattice_wf wrk → echogram_wf (wrk_hEchogram wrk) →
  indices_changed wrk room d_max = true →
  echogram_changed (refresh_indices wrk room d_max) room so ro = true →
  0 ≤ Nx ≤ 4096 → 0 ≤ Ny ≤ 4096 → 0 ≤ Nz ≤ 4096 →
  ec_order (wrk_hEchogram wrk')
  = map (λ p, Int3 (stored (lattice_i Nx (Z.of_nat p)))
                   (stored (lattice_j Nx Ny (Z.of_nat p)))
                   (stored (lattice_k Nx Ny Nz (Z.of_nat p))))
        (valid_points wrk' room so ro d_max).
Proof.
  intros d_max so ro wrk' Nx Ny Nz stored Hl He Hch1 Hch2.
  destruct (coreInit_lattice_fields wrk room src rec maxTime_s c_ms)
    as (ENx & ENy & ENz & EL & EII & EJJ & EKK & _).
  fold d_max wrk' in ENx, ENy, ENz, EL, EII, EJJ, EKK.
  assert (Eq : wrk' = update_echogram (refresh_indices wrk room d_max) room so ro d_max c_ms)
    by (apply coreInit_recomputed; exact Hch2).
  pose proof (refresh_indices_wf wrk room d_max Hl) as Hl1.
  pose proof He as He1. rewrite <- (refresh_indices_hEchogram wrk room d_max) in He1.
  assert (Eo : ec_order (wrk_hEchogram wrk')
               = map (λ i, arrival_order (wrk_II wrk' !!! i) (wrk_JJ wrk' !!! i)
                                         (wrk_KK wrk' !!! i))
                     (valid_points wrk' room so ro d_max)).
  { rewrite Eq. rewrite update_echogram_eq by assumption. reflexivity. }
  rewrite Eo. unfold Nx, Ny, Nz. rewrite ENx, ENy, ENz, EII, EJJ, EKK.
  unfold valid_points at 1 2. rewrite EL.
  unfold refresh_indices. rewrite Hch1.
  set (w := update_indices wrk room d_max).
  intros HNx HNy HNz.
  destruct (update_indices_odometer wrk room d_max (proj1 HNx) (proj1 HNy) (proj1 HNz))
    as (_ & _ & _ & EL' & EII' & EJJ' & EKK').
  fold w in EL', EII', EJJ', EKK'.
  apply map_ext_in. intros p Hp.
  apply List.filter_In in Hp as [Hp _]. apply in_seq in Hp.
  rewrite EII', EJJ', EKK'. rewrite !seq_lookup_map by lia.
  destruct (lattice_within (wrk_Nx w) (wrk_Ny w) (wrk_Nz w) (Z.of_nat p)
              (proj1 HNx) (proj1 HNy) (proj1 HNz)) as (Hi & Hj & Hk).
  unfold arrival_order. rewrite !b32_order_of_index by lia. reflexivity.
Qed.

End Binary32More.

(** ** What a call overwrites *)

Section Overwrites.
Context {F : Type} `{FloatOps F} `{MathOps F} `{Indeterminate F} `{Collaborators F}.

#[local] Existing Instance float_inhabited.
#[local] Existing Instance pos_inhabited.
#[local] Existing Instance int3_inhabited.
#[local] Existing Instance echogram_inhabited.

Lemma list_eq_total {A} `{Inhabited A} (l1 l2 : list A) :
  length l1 = length l2 →
  (∀ i, (i < length l1)%nat → l1 !!! i = l2 !!! i) → l1 = l2.
Proof.
  intros Hlen Hcells. apply (list_eq_same_length l1 l2 (length l1)); [congruence|reflexivity|].
  intros i x y Hi Hx Hy.
  apply list_lookup_total_correct in Hx, Hy. rewrite <- Hx, <- Hy. apply Hcells. exact Hi.
Qed.

(** X19: [ims_shoebox_coreAbsorptionModule] overwrites: the workspace
    after a call does not depend on the absorption coefficients of a
    call before it. *)
Theorem coreAbsorptionModule_overwrites wrk abs_wall abs_wall' :
  let wrk1 := ims_shoebox_coreAbsorptionModule wrk abs_wall' in
  echogram_wf (wrk_hEchogram_rec wrk) →
  length (wrk_hEchogram_abs wrk) = Z.to_nat (wrk_nBands wrk) →
  Forall echogram_wf (wrk_hEchogram_abs wrk) →
  ims_shoebox_coreAbsorptionModule wrk1 abs_wall
  = ims_shoebox_coreAbsorptionModule wrk abs_wall.
Proof.
  intros wrk1 Hr Hlen Habs.
  destruct (coreAbsorptionModule_wf wrk abs_wall' Hr Hlen Habs) as [Hlen1 Habs1].
  fold wrk1 in Hlen1, Habs1.
  assert (En : wrk_nBands wrk1 = wrk_nBands wrk) by reflexivity.
  assert (Er : wrk_hEchogram_rec wrk1 = wrk_hEchogram_rec wrk) by reflexivity.
  destruct (coreAbsorptionModule_wf wrk abs_wall Hr Hlen Habs) as [Hl2 _].
  destruct (coreAbsorptionModule_wf wrk1 abs_wall ltac:(rewrite Er; exact Hr)
              ltac:(rewrite En; exact Hlen1) Habs1) as [Hl3 _].
  apply workspace_eq; try reflexivity.
  apply list_eq_total; [rewrite Hl3, Hl2, En; reflexivity|].
  intros band Hband. rewrite Hl3, En in Hband.
  rewrite !coreAbsorptionModule_lookup by (rewrite ?En; assumption).
  rewrite Er.
  rewrite !absorption_echogram_eq; try exact Hr; [reflexivity| |].
  - apply (Forall_lookup_1 _ _ band _ Habs). apply list_lookup_lookup_total_lt. lia.
  - apply (Forall_lookup_1 _ _ band _ Habs1). apply list_lookup_lookup_total_lt. lia.
Qed.

(** Lines 451-461: the train of a band does not depend on what the
    buffer held. *)
Lemma impulse_train_flushed (echogram_abs : echogram_data F) fs (old old' : list (list F)) :
  impulse_train echogram_abs fs old = impulse_train echogram_abs fs old'.
Proof.
  destruct (impulse_train_shape echogram_abs fs old) as [Hl Hr].
  destruct (impulse_train_shape echogram_abs fs old') as [Hl' Hr'].
  apply list_eq_total; [congruence|].
  intros j Hj. rewrite Hl in Hj.
  assert (Hrow : length (impulse_train echogram_abs fs old !!! j)
                 = Z.to_nat (rir_length_of echogram_abs fs)).
  { apply (Forall_lookup_1 _ _ j _ Hr). apply list_lookup_lookup_total_lt. lia. }
  assert (Hrow' : length (impulse_train echogram_abs fs old' !!! j)
                  = Z.to_nat (rir_length_of echogram_abs fs)).
  { apply (Forall_lookup_1 _ _ j _ Hr'). apply list_lookup_lookup_total_lt. lia. }
  apply list_eq_total; [congruence|].
  intros k Hk. rewrite Hrow in Hk.
  rewrite !impulse_train_cells by assumption. reflexivity.
Qed.

(** X16: the impulse trains that [ims_shoebox_renderRIR] leaves depend
    on the absorption echograms and [fs] only: not on what the buffers
    held, nor on the filters and the output passed; rendering again
    changes nothing. *)
Theorem renderRIR_flushes wrk wrk2 fs H_filt H_filt2 rir rir2 :
  let wrk' := fst (ims_shoebox_renderRIR wrk 0 fs H_filt rir) in
  length (wrk_rir_bands wrk) = Z.to_nat (wrk_nBands wrk) →
  length (wrk_rir_bands wrk2) = Z.to_nat (wrk_nBands wrk) →
  wrk_nBands wrk2 = wrk_nBands wrk →
  wrk_hEchogram_abs wrk2 = wrk_hEchogram_abs wrk →
  wrk_rir_bands (fst (ims_shoebox_renderRIR wrk2 0 fs H_filt2 rir2)) = wrk_rir_bands wrk'
  ∧ wrk_rir_bands (fst (ims_shoebox_renderRIR wrk' 0 fs H_filt2 rir2)) = wrk_rir_bands wrk'.
Proof.
  intros wrk' Hlen Hlen2 En Ea.
  assert (Hdet : ∀ w, length (wrk_rir_bands w) = Z.to_nat (wrk_nBands wrk) →
            wrk_nBands w = wrk_nBands wrk → wrk_hEchogram_abs w = wrk_hEchogram_abs wrk →
            wrk_rir_bands (fst (ims_shoebox_renderRIR w 0 fs H_filt2 rir2))
            = wrk_rir_bands wrk').
  { intros w Hl Hn Hab. unfold wrk'. rewrite !renderRIR_workspace.
    destruct (render_bands_loop wrk fs (Z.to_nat (wrk_nBands wrk)) ltac:(lia))
      as (_ & _ & Er & _).
    destruct (render_bands_loop w fs (Z.to_nat (wrk_nBands w)) ltac:(lia))
      as (_ & _ & Er' & _).
    rewrite Er, Er', Hn, Hab.
    apply list_eq_total.
    - rewrite !scatter_length by (rewrite length_seq; lia). congruence.
    - intros band Hband. rewrite scatter_length in Hband by (rewrite length_seq; lia).
      rewrite !scatter_seq_lookup by lia. apply impulse_train_flushed. }
  split; [apply Hdet; assumption|].
  destruct (render_bands_loop wrk fs (Z.to_nat (wrk_nBands wrk)) ltac:(lia))
    as (Ea' & En' & Er & _).
  change (for_loop (Z.to_nat (wrk_nBands wrk)) (render_band 0 fs) wrk) with wrk'
    in Ea', En', Er.
  apply Hdet; [|exact En'|exact Ea'].
  rewrite Er, scatter_length by (rewrite length_seq; lia). exact Hlen.
Qed.

End Overwrites.

(** ** The order of the samples *)

Section IndicesOrdered.
Context {F : Type} `{FloatOps F} `{Indeterminate F} `{!FiniteArithmetic F}.

#[local] Existing Instance float_inhabited.

(** X20: in a correctly rounded arithmetic (binary32 is one), for
    finite times that are not negative and do not decrease, a finite
    sample rate that is not negative, and sums [time * fs + 0.5f] that
    do not overflow, the sample indices [(int)(time[i] * fs + 0.5f)] of
    line 458 are not negative and do not decrease with [i]. *)
Theorem renderRIR_indices_ordered (echogram_abs : echogram_data F) (fs : F) (i j : nat) :
  proper fs → fle (of_int 0) fs = true →
  Forall proper (ec_time echogram_abs) →
  Forall (λ t, fle (of_int 0) t = true) (ec_time echogram_abs) →
  (∀ k, (S k < length (ec_time echogram_abs))%nat →
        fle (ec_time echogram_abs !!! k) (ec_time echogram_abs !!! S k) = true) →
  Forall (λ t, finite (fadd (fmul t fs) f_half)) (ec_time echogram_abs) →
  (i ≤ j)%nat → (j < length (ec_time echogram_abs))%nat →
  0 ≤ refl_index echogram_abs fs i ≤ refl_index echogram_abs fs j.
Proof.
  intros Hfsp Hfs Hprop Hpos Hmono Hfin Hij Hj.
  assert (Hlk : ∀ k, (k < length (ec_time echogram_abs))%nat →
            ec_time echogram_abs !! k = Some (ec_time echogram_abs !!! k)).
  { intros k Hk. apply list_lookup_lookup_total_lt. exact Hk. }
  set (t := ec_time echogram_abs !!! i).
  set (u := ec_time echogram_abs !!! j).
  assert (Pt : proper t) by (apply (Forall_lookup_1 _ _ i _ Hprop), Hlk; lia).
  assert (Pu : proper u) by (apply (Forall_lookup_1 _ _ j _ Hprop), Hlk; lia).
  assert (Vfs : (0 <= val fs)%Q) by (apply val_nonneg; assumption).
  assert (Vt : (0 <= val t)%Q).
  { apply val_nonneg; [exact Pt|]. apply (Forall_lookup_1 _ _ i _ Hpos), Hlk. lia. }
  assert (Vtu : (val t <= val u)%Q) by (apply time_val_mono; assumption).
  destruct proper_half as [Ph Vh].
  assert (Fs : finite (fadd (fmul t fs) f_half)).
  { apply (Forall_lookup_1 _ _ i _ Hfin), Hlk. lia. }
  assert (Fu : finite (fadd (fmul u fs) f_half)).
  { apply (Forall_lookup_1 _ _ j _ Hfin), Hlk. lia. }
  assert (Fp : finite (fmul t fs)) by (apply (fadd_finite _ f_half); assumption).
  assert (Fq : finite (fmul u fs)) by (apply (fadd_finite _ f_half); assumption).
  destruct (fmul_val t u fs Pt Pu Hfsp Vt Vtu Vfs Fp Fq) as [Vp Vq].
  destruct (fadd_val (fmul t fs) (fmul u fs) f_half f_half
              Fp Fq Ph Ph Vp Vq ltac:(lra) ltac:(lra) Fs Fu) as [Vs Vsu].
  unfold refl_index. fold t u.
  rewrite (to_int_val _ Fs Vs), (to_int_val _ Fu ltac:(lra)).
  split.
  - change 0 with (Qfloor 0). apply Qfloor_resp_le. exact Vs.
  - apply Qfloor_resp_le. exact Vsu.
Qed.

End IndicesOrdered.

Section Witnesses.
Import Binary32 Scenario.

#[local] Existing Instance float_inhabited.
#[local] Existing Instance pos_inhabited.
#[local] Existing Instance int3_inhabited.
#[local] Existing Instance echogram_inhabited.

Lemma b32_pow_one (y : float32) : powf (of_int 1) y = of_int 1.
Proof. reflexivity. Qed.

(** Evaluate a closed term of the goal. *)
Ltac evaluate t :=
  let v := eval vm_compute in t in
  replace t with v by (vm_compute; reflexivity).

Ltac forall_compute :=
  repeat first [apply Forall_nil_2 | apply Forall_cons_2; [vm_compute; reflexivity|]].

Lemma Forall_length_eqb {A} (rows : list (list A)) (k : nat) :
  forallb (λ row, (length row =? k)%nat) rows = true →
  Forall (λ row, length row = k) rows.
Proof.
  intros Hb. apply Forall_forall. intros row Hrow. rewrite forallb_forall in Hb.
  apply Nat.eqb_eq. apply Hb. apply list_elem_of_In. exact Hrow.
Qed.

Lemma coreInit_numImageSources_witness :
  (lattice_wf wrk0 ∧ echogram_wf (wrk_hEchogram wrk0)
   ∧ (∀ a : float32, flt a a = false)
   ∧ echogram_changed (refresh_indices wrk0 room (fmul maxTime_s c_ms)) room
       (centre room src_pos) (centre room rec_pos) = true)
  ∧ wrk_numImageSources wrk1
    = Z.of_nat (length (valid_points wrk1 room (centre room src_pos)
                                     (centre room rec_pos) (fmul maxTime_s c_ms)))
  ∧ wrk_numImageSources wrk1 = 9
  ∧ ec_numImageSources (wrk_hEchogram wrk1) = wrk_numImageSources wrk1
  ∧ ec_nChannels (wrk_hEchogram wrk1) = 1.
Proof.
  assert (Hl : lattice_wf wrk0) by apply coreWorkspaceCreate_wf.
  assert (He : echogram_wf (wrk_hEchogram wrk0)) by apply coreWorkspaceCreate_wf.
  assert (Hch : echogram_changed (refresh_indices wrk0 room (fmul maxTime_s c_ms)) room
                  (centre room src_pos) (centre room rec_pos) = true)
    by (vm_compute; reflexivity).
  pose proof (coreInit_numImageSources wrk0 room src_pos rec_pos maxTime_s c_ms
                Hl He b32_lt_irrefl Hch) as (Hn & _ & _ & _ & Hen & Hc & _).
  split; [exact (conj Hl (conj He (conj b32_lt_irrefl Hch)))|].
  split; [exact Hn|]. split; [vm_compute; reflexivity|].
  split; [vm_compute; reflexivity|exact Hc].
Defined.

Lemma coreInit_memoized_witness :
  feq (fmul maxTime_s c_ms) (fmul maxTime_s c_ms) = true
  ∧ ims_shoebox_coreInit wrk1 room src_pos rec_pos maxTime_s c_ms = wrk1.
Proof.
  split; [vm_compute; reflexivity|].
  apply (coreInit_memoized wrk0 room src_pos rec_pos maxTime_s c_ms);
    vm_compute; reflexivity.
Defined.

Lemma coreInit_sortedIdx_witness :
  (lattice_wf wrk0 ∧ echogram_wf (wrk_hEchogram wrk0)
   ∧ Forall (λ t : float32, feq t t = true) (ec_time (wrk_hEchogram wrk1))
   ∧ echogram_changed (refresh_indices wrk0 room (fmul maxTime_s c_ms)) room
       (centre room src_pos) (centre room rec_pos) = true)
  ∧ ec_sortedIdx (wrk_hEchogram wrk1) = [5; 1; 3; 0; 8; 7; 6; 2; 4]
  ∧ ec_sortedIdx (wrk_hEchogram wrk1)
    ≡ₚ map Z.of_nat (seq 0 (Z.to_nat (ec_numImageSources (wrk_hEchogram wrk1)))).
Proof.
  assert (Hl : lattice_wf wrk0) by apply coreWorkspaceCreate_wf.
  assert (He : echogram_wf (wrk_hEchogram wrk0)) by apply coreWorkspaceCreate_wf.
  assert (Hch : echogram_changed (refresh_indices wrk0 room (fmul maxTime_s c_ms)) room
                  (centre room src_pos) (centre room rec_pos) = true)
    by (vm_compute; reflexivity).
  assert (Hnan : Forall (λ t : float32, feq t t = true) (ec_time (wrk_hEchogram wrk1))).
  { evaluate (ec_time (wrk_hEchogram wrk1)). forall_compute. }
  split; [exact (conj Hl (conj He (conj Hnan Hch)))|].
  split; [vm_compute; reflexivity|].
  exact (proj1 (coreInit_sortedIdx wrk0 room src_pos rec_pos maxTime_s c_ms
                  Hl He b32_le_total Hnan Hch)).
Defined.

Lemma wrk1_wf :
  echogram_wf (wrk_hEchogram wrk1) ∧ echogram_wf (wrk_hEchogram_rec wrk1).
Proof. split; apply echogram_wfb_correct; vm_compute; reflexivity. Qed.

Lemma coreRecModuleSH_time_ordered_witness :
  (echogram_wf (wrk_hEchogram wrk1) ∧ echogram_wf (wrk_hEchogram_rec wrk1))
  ∧ ec_sortedIdx (wrk_hEchogram_rec wrk2) = [0; 1; 2; 3; 4; 5; 6; 7; 8]
  ∧ ∀ i, (S i < 9)%nat →
         fle (ec_time (wrk_hEchogram_rec wrk2) !!! i)
             (ec_time (wrk_hEchogram_rec wrk2) !!! S i) = true.
Proof.
  destruct wrk1_wf as [He Hr].
  assert (Hs : ∀ i, (S i < Z.to_nat (ec_numImageSources (wrk_hEchogram wrk1)))%nat →
            fle (at_int (ec_time (wrk_hEchogram wrk1))
                        (ec_sortedIdx (wrk_hEchogram wrk1) !!! i))
                (at_int (ec_time (wrk_hEchogram wrk1))
                        (ec_sortedIdx (wrk_hEchogram wrk1) !!! S i)) = true).
  { evaluate (Z.to_nat (ec_numImageSources (wrk_hEchogram wrk1))). intros i Hi.
    do 8 (destruct i as [|i]; [vm_compute; reflexivity|]). lia. }
  destruct (coreRecModuleSH_time_ordered wrk1 0 He Hr Hs) as (_ & Ht & Es & _).
  split; [exact (conj He Hr)|]. split; [vm_compute; reflexivity|].
  intros i Hi. apply Ht. vm_compute. lia.
Defined.

Lemma coreRecModuleSH_order0_witness :
  (echogram_wf (wrk_hEchogram wrk1) ∧ echogram_wf (wrk_hEchogram_rec wrk1))
  ∧ ec_nChannels (wrk_hEchogram_rec wrk2) = 1
  ∧ ec_value (wrk_hEchogram_rec wrk2)
    = map (λ i, [at_int (ec_value (wrk_hEchogram wrk1))
                        (ec_sortedIdx (wrk_hEchogram wrk1) !!! i) !!! O])
          (seq 0 (Z.to_nat (ec_numImageSources (wrk_hEchogram wrk1)))).
Proof.
  destruct wrk1_wf as [He Hr].
  destruct (coreRecModuleSH_order0 wrk1 He Hr) as (Hc & _ & Hv).
  exact (conj (conj He Hr) (conj Hc Hv)).
Defined.

Lemma coreAbsorptionModule_lossless_witness :
  (sqrtf (fsub (of_int 1) (of_int 0)) = of_int 1 :> float32)
  ∧ (∀ y : float32, powf (of_int 1) y = of_int 1)
  ∧ (fmul (of_int 1) (of_int 1) = of_int 1 :> float32)
  ∧ abs_wall !!! O = replicate 6 (of_int 0)
  ∧ wrk_hEchogram_abs wrk3 !!! O = wrk_hEchogram_rec wrk2.
Proof.
  assert (Hsqrt : sqrtf (fsub (of_int 1) (of_int 0)) = of_int 1 :> float32)
    by (vm_compute; reflexivity).
  assert (Hmul : fmul (of_int 1) (of_int 1) = of_int 1 :> float32)
    by (vm_compute; reflexivity).
  assert (Hr : echogram_wf (wrk_hEchogram_rec wrk2))
    by (apply echogram_wfb_correct; vm_compute; reflexivity).
  assert (Hlen : length (wrk_hEchogram_abs wrk2) = Z.to_nat (wrk_nBands wrk2))
    by (vm_compute; reflexivity).
  assert (Habs : Forall echogram_wf (wrk_hEchogram_abs wrk2)).
  { evaluate (wrk_hEchogram_abs wrk2).
    repeat first [apply Forall_nil_2
                 |apply Forall_cons_2; [apply echogram_wfb_correct; reflexivity|]]. }
  assert (Hband : (0 < Z.to_nat (wrk_nBands wrk2))%nat) by (vm_compute; lia).
  assert (Hzero : abs_wall !!! O = replicate 6 (of_int 0)) by reflexivity.
  assert (Hgain : Forall (Forall (λ v : float32, fmul v (of_int 1) = v))
                         (ec_value (wrk_hEchogram_rec wrk2))).
  { evaluate (ec_value (wrk_hEchogram_rec wrk2)).
    repeat first [apply Forall_nil_2 | apply Forall_cons_2; [forall_compute|]]. }
  refine (conj Hsqrt (conj b32_pow_one (conj Hmul (conj Hzero _)))).
  exact (proj2 (proj2 (coreAbsorptionModule_lossless Hsqrt b32_pow_one Hmul
                         wrk2 abs_wall O Hr Hlen Habs Hband Hzero Hgain))).
Defined.

Lemma renderRIR_length_witness :
  (length (wrk_rir_bands wrk3) = Z.to_nat (wrk_nBands wrk3)
   ∧ (1 < Z.to_nat (wrk_nBands wrk3))%nat
   ∧ 1 ≤ ec_numImageSources (wrk_hEchogram_abs wrk3 !!! 1%nat)
   ∧ length (ec_time (wrk_hEchogram_abs wrk3 !!! 1%nat))
     = Z.to_nat (ec_numImageSources (wrk_hEchogram_abs wrk3 !!! 1%nat)))
  ∧ ∃ endtime,
      last (ec_time (wrk_hEchogram_abs wrk3 !!! 1%nat)) = Some endtime
      ∧ Forall (λ row, length row
                       = Z.to_nat (to_int (fadd (fmul endtime fs) (of_int 1)) + 1))
               (wrk_rir_bands wrk4 !!! 1%nat).
Proof.
  assert (Hlen : length (wrk_rir_bands wrk3) = Z.to_nat (wrk_nBands wrk3))
    by (vm_compute; reflexivity).
  assert (Hband : (1 < Z.to_nat (wrk_nBands wrk3))%nat) by (vm_compute; lia).
  assert (Hn : 1 ≤ ec_numImageSources (wrk_hEchogram_abs wrk3 !!! 1%nat))
    by (vm_compute; intros Hc; discriminate Hc).
  assert (Htime : length (ec_time (wrk_hEchogram_abs wrk3 !!! 1%nat))
                  = Z.to_nat (ec_numImageSources (wrk_hEchogram_abs wrk3 !!! 1%nat)))
    by (vm_compute; reflexivity).
  split; [exact (conj Hlen (conj Hband (conj Hn Htime)))|].
  destruct (renderRIR_length wrk3 fs H_filt rir0 1 Hlen Hband Hn Htime)
    as (endtime & Hlast & _ & Hrows & _).
  exists endtime. exact (conj Hlast Hrows).
Defined.

(** C9 as the specification has it fails on the scenario: the last
    arrival of band 1 falls between samples 922 and 923, the impulse
    train has 924 samples and not ceil(endtime * fs) + 2 = 925. *)
Lemma renderRIR_length_not_ceil :
  ∃ endtime,
    last (ec_time (wrk_hEchogram_abs wrk3 !!! 1%nat)) = Some endtime
    ∧ to_int (floorf (fmul endtime fs)) = 922
    ∧ to_int (ceilf (fmul endtime fs)) = 923
    ∧ wrk_rir_len_samples wrk4 = 924
    ∧ Forall (λ row, length row = 924%nat) (wrk_rir_bands wrk4 !!! 1%nat)
    ∧ wrk_rir_len_samples wrk4 ≠ to_int (ceilf (fmul endtime fs)) + 2.
Proof.
  exists (S754_finite false 10323343 (-29)).
  split; [vm_compute; reflexivity|].
  split; [vm_compute; reflexivity|].
  split; [vm_compute; reflexivity|].
  split; [vm_compute; reflexivity|].
  split; [apply Forall_length_eqb; vm_compute; reflexivity|].
  vm_compute. intros Hc. discriminate Hc.
Qed.

Lemma Forall_forallb {A} (P : A → Prop) (p : A → bool) (l : list A) :
  (∀ x, p x = true → P x) → forallb p l = true → Forall P l.
Proof.
  intros Hp Hb. apply Forall_forall. intros x Hx. apply Hp.
  rewrite forallb_forall in Hb. apply Hb. apply list_elem_of_In. exact Hx.
Qed.

Lemma renderRIR_in_bounds_witness :
  (length (wrk_rir_bands wrk3) = Z.to_nat (wrk_nBands wrk3)
   ∧ (1 < Z.to_nat (wrk_nBands wrk3))%nat
   ∧ 1 ≤ ec_numImageSources (wrk_hEchogram_abs wrk3 !!! 1%nat)
   ∧ proper fs
   ∧ fle (of_int 0) fs = true
   ∧ Forall proper (ec_time (wrk_hEchogram_abs wrk3 !!! 1%nat))
   ∧ Forall (λ t : float32, fle (of_int 0) t = true)
            (ec_time (wrk_hEchogram_abs wrk3 !!! 1%nat))
   ∧ Forall (λ t : float32, finite (fadd (fmul t fs) f_half))
            (ec_time (wrk_hEchogram_abs wrk3 !!! 1%nat))
   ∧ finite (fadd (fmul (rir_endtime (wrk_hEchogram_abs wrk3 !!! 1%nat)) fs) (of_int 1))
   ∧ rir_length_of (wrk_hEchogram_abs wrk3 !!! 1%nat) fs ≤ 2147483647)
  ∧ refl_index (wrk_hEchogram_abs wrk3 !!! 1%nat) fs 8 = 923
  ∧ rir_length_of (wrk_hEchogram_abs wrk3 !!! 1%nat) fs = 924
  ∧ 0 ≤ refl_index (wrk_hEchogram_abs wrk3 !!! 1%nat) fs 8
  ∧ refl_index (wrk_hEchogram_abs wrk3 !!! 1%nat) fs 8
    < rir_length_of (wrk_hEchogram_abs wrk3 !!! 1%nat) fs
  ∧ Forall (λ row, (Z.to_nat (refl_index (wrk_hEchogram_abs wrk3 !!! 1%nat) fs 8)
                    < length row)%nat)
           (wrk_rir_bands wrk4 !!! 1%nat).
Proof.
  assert (Hlen : length (wrk_rir_bands wrk3) = Z.to_nat (wrk_nBands wrk3))
    by (vm_compute; reflexivity).
  assert (Hband : (1 < Z.to_nat (wrk_nBands wrk3))%nat) by (vm_compute; lia).
  assert (Hn : 1 ≤ ec_numImageSources (wrk_hEchogram_abs wrk3 !!! 1%nat))
    by (vm_compute; intros Hc; discriminate Hc).
  assert (Htime : length (ec_time (wrk_hEchogram_abs wrk3 !!! 1%nat))
                  = Z.to_nat (ec_numImageSources (wrk_hEchogram_abs wrk3 !!! 1%nat)))
    by (vm_compute; reflexivity).
  assert (Hfsp : proper fs) by (apply properb_correct; vm_compute; reflexivity).
  assert (Hfs : fle (of_int 0) fs = true) by (vm_compute; reflexivity).
  assert (Hprop : Forall proper (ec_time (wrk_hEchogram_abs wrk3 !!! 1%nat))).
  { apply (Forall_forallb _ properb); [exact properb_correct|].
    vm_compute; reflexivity. }
  assert (Hpos : Forall (λ t : float32, fle (of_int 0) t = true)
                        (ec_time (wrk_hEchogram_abs wrk3 !!! 1%nat))).
  { apply (Forall_forallb _ (λ t, fle (of_int 0) t)); [intros x Hx; exact Hx|].
    vm_compute; reflexivity. }
  assert (Hmono : ∀ k,
            (S k < Z.to_nat (ec_numImageSources (wrk_hEchogram_abs wrk3 !!! 1%nat)))%nat →
            fle (ec_time (wrk_hEchogram_abs wrk3 !!! 1%nat) !!! k)
                (ec_time (wrk_hEchogram_abs wrk3 !!! 1%nat) !!! S k) = true).
  { intros k Hk.
    assert (Hk' : (S k < 9)%nat).
    { replace 9%nat
        with (Z.to_nat (ec_numImageSources (wrk_hEchogram_abs wrk3 !!! 1%nat)))
        by (vm_compute; reflexivity).
      exact Hk. }
    clear Hk.
    do 8 (destruct k as [|k]; [vm_compute; reflexivity|]). lia. }
  assert (Hfin : Forall (λ t : float32, finite (fadd (fmul t fs) f_half))
                        (ec_time (wrk_hEchogram_abs wrk3 !!! 1%nat))).
  { apply (Forall_forallb _ (λ t, is_finite (fadd (fmul t fs) f_half)));
      [intros x Hx; exact Hx|].
    vm_compute; reflexivity. }
  assert (Hend : finite (fadd (fmul (rir_endtime (wrk_hEchogram_abs wrk3 !!! 1%nat)) fs)
                              (of_int 1)))
    by (vm_compute; reflexivity).
  assert (Hint : rir_length_of (wrk_hEchogram_abs wrk3 !!! 1%nat) fs ≤ 2147483647)
    by (vm_compute; intros Hc; discriminate Hc).
  assert (Hi : (8 < Z.to_nat (ec_numImageSources (wrk_hEchogram_abs wrk3 !!! 1%nat)))%nat)
    by (vm_compute; lia).
  split; [exact (conj Hlen (conj Hband (conj Hn (conj Hfsp (conj Hfs (conj Hprop
                   (conj Hpos (conj Hfin (conj Hend Hint)))))))))|].
  split; [vm_compute; reflexivity|]. split; [vm_compute; reflexivity|].
  destruct (renderRIR_in_bounds wrk3 fs H_filt rir0 1 8
              Hlen Hband Hn Htime Hfsp Hfs Hprop Hpos Hmono Hfin Hend Hint Hi)
    as ((Hlo & Hhi & _) & Hrows & _).
  exact (conj Hlo (conj Hhi Hrows)).
Defined.

(** C10 as the specification has it fails when the sample rate is
    negative, which its preconditions do not exclude: the band holds one
    arrival at 0.75 s, its time is not negative and the times do not
    decrease; at fs = -2 the product is -1.5, the arrival is added at
    sample (int)(-1.5 + 0.5) = -1, before the first of the one sample the
    impulse train has.  Nor do they bound the numbers: for one arrival
    at 50000 s and fs = 48000 the length is beyond the largest [int],
    where the conversion of line 442 is undefined in C. *)
Lemma renderRIR_index_negative_rate :
  1 ≤ ec_numImageSources band_one
  ∧ Forall (λ t : float32, fle (of_int 0) t = true) (ec_time band_one)
  ∧ (∀ k, (S k < Z.to_nat (ec_numImageSources band_one))%nat →
          fle (ec_time band_one !!! k) (ec_time band_one !!! S k) = true)
  ∧ wrk_hEchogram_abs wrk_one !!! O = band_one
  ∧ fmul (ec_time band_one !!! O) fs_neg = S754_finite true 12582912 (-23)
  ∧ refl_index band_one fs_neg 0 = -1
  ∧ rir_length_of band_one fs_neg = 1
  ∧ Forall (λ row, length row = 1%nat)
           (wrk_rir_bands (fst (ims_shoebox_renderRIR wrk_one 0 fs_neg [[of_int 1]] rir0))
              !!! O)
  ∧ ¬ (0 ≤ refl_index band_one fs_neg 0 < rir_length_of band_one fs_neg)
  ∧ Forall (λ t : float32, fle (of_int 0) t = true) (ec_time band_long)
  ∧ rir_length_of band_long fs = 2400000001
  ∧ ¬ (rir_length_of band_long fs ≤ 2147483647).
Proof.
  split; [vm_compute; intros Hc; discriminate Hc|].
  split; [apply Forall_cons_2; [vm_compute; reflexivity|apply Forall_nil_2]|].
  split; [intros k Hk; change (S k < 1)%nat in Hk; lia|].
  split; [reflexivity|].
  split; [vm_compute; reflexivity|].
  split; [vm_compute; reflexivity|].
  split; [vm_compute; reflexivity|].
  split; [apply Forall_length_eqb; vm_compute; reflexivity|].
  split.
  { replace (refl_index band_one fs_neg 0) with (-1) by (vm_compute; reflexivity).
    lia. }
  split; [apply Forall_cons_2; [vm_compute; reflexivity|apply Forall_nil_2]|].
  split; [vm_compute; reflexivity|].
  replace (rir_length_of band_long fs) with 2400000001 by (vm_compute; reflexivity).
  lia.
Qed.


Lemma coreInit_after_create_witness :
  (fne (of_int (-1)) (pos_x (centre room rec_pos))
   || fne (of_int (-1)) (pos_y (centre room rec_pos))
   || fne (of_int (-1)) (pos_z (centre room rec_pos))
   || fne (of_int (-1)) (pos_x (centre room src_pos))
   || fne (of_int (-1)) (pos_y (centre room src_pos))
   || fne (of_int (-1)) (pos_z (centre room src_pos)) = true)
  ∧ echogram_wf (wrk_hEchogram
                   (ims_shoebox_coreInit (ims_shoebox_coreWorkspaceCreate 2)
                                         room src_pos rec_pos maxTime_s c_ms)).
Proof.
  assert (Hpos : fne (of_int (-1)) (pos_x (centre room rec_pos))
                 || fne (of_int (-1)) (pos_y (centre room rec_pos))
                 || fne (of_int (-1)) (pos_z (centre room rec_pos))
                 || fne (of_int (-1)) (pos_x (centre room src_pos))
                 || fne (of_int (-1)) (pos_y (centre room src_pos))
                 || fne (of_int (-1)) (pos_z (centre room src_pos)) = true)
    by (vm_compute; reflexivity).
  split; [exact Hpos|].
  apply (coreInit_after_create 2 room src_pos rec_pos maxTime_s c_ms Hpos).
Defined.

Lemma coreInit_after_create_at_cached_position_witness :
  (feq (of_int (-1)) (pos_x (centre room at_cached)) = true
   ∧ feq (of_int (-1)) (pos_y (centre room at_cached)) = true
   ∧ feq (of_int (-1)) (pos_z (centre room at_cached)) = true)
  ∧ wrk_numImageSources
      (ims_shoebox_coreInit (ims_shoebox_coreWorkspaceCreate 2)
                            room at_cached at_cached maxTime_s c_ms) = 0.
Proof.
  assert (Hx : feq (of_int (-1)) (pos_x (centre room at_cached)) = true)
    by (vm_compute; reflexivity).
  assert (Hy : feq (of_int (-1)) (pos_y (centre room at_cached)) = true)
    by (vm_compute; reflexivity).
  assert (Hz : feq (of_int (-1)) (pos_z (centre room at_cached)) = true)
    by (vm_compute; reflexivity).
  split; [exact (conj Hx (conj Hy Hz))|].
  apply (coreInit_after_create_at_cached_position 2 room at_cached at_cached maxTime_s c_ms
           Hx Hy Hz Hx Hy Hz).
Defined.

Lemma coreInit_lattice_enumeration_witness :
  (indices_changed wrk0 room (fmul maxTime_s c_ms) = true
   ∧ 0 ≤ wrk_Nx wrk1 ∧ 0 ≤ wrk_Ny wrk1 ∧ 0 ≤ wrk_Nz wrk1)
  ∧ wrk_lengthVec wrk1
    = (2 * wrk_Nx wrk1 + 1) * (2 * wrk_Ny wrk1 + 1) * (2 * wrk_Nz wrk1 + 1)
  ∧ wrk_lengthVec wrk1 = 63.
Proof.
  assert (Hch : indices_changed wrk0 room (fmul maxTime_s c_ms) = true)
    by (vm_compute; reflexivity).
  assert (Hx : 0 ≤ wrk_Nx wrk1) by (vm_compute; intros Hc; discriminate Hc).
  assert (Hy : 0 ≤ wrk_Ny wrk1) by (vm_compute; intros Hc; discriminate Hc).
  assert (Hz : 0 ≤ wrk_Nz wrk1) by (vm_compute; intros Hc; discriminate Hc).
  split; [exact (conj Hch (conj Hx (conj Hy Hz)))|].
  split; [|vm_compute; reflexivity].
  exact (proj1 (coreInit_lattice_enumeration wrk0 room src_pos rec_pos maxTime_s c_ms
                  Hch Hx Hy Hz)).
Defined.

Lemma coreInit_same_positions_witness :
  (feq (pos_x (wrk_rec wrk1)) (pos_x (centre room rec_pos)) = true
   ∧ feq (pos_x (wrk_src wrk1)) (pos_x (centre room src_pos)) = true
   ∧ fne (wrk_d_max wrk1) (fmul maxTime_long c_ms) = true)
  ∧ wrk_hEchogram (ims_shoebox_coreInit wrk1 room src_pos rec_pos maxTime_long c_ms)
    = wrk_hEchogram wrk1.
Proof.
  assert (Hrx : feq (pos_x (wrk_rec wrk1)) (pos_x (centre room rec_pos)) = true)
    by (vm_compute; reflexivity).
  assert (Hry : feq (pos_y (wrk_rec wrk1)) (pos_y (centre room rec_pos)) = true)
    by (vm_compute; reflexivity).
  assert (Hrz : feq (pos_z (wrk_rec wrk1)) (pos_z (centre room rec_pos)) = true)
    by (vm_compute; reflexivity).
  assert (Hsx : feq (pos_x (wrk_src wrk1)) (pos_x (centre room src_pos)) = true)
    by (vm_compute; reflexivity).
  assert (Hsy : feq (pos_y (wrk_src wrk1)) (pos_y (centre room src_pos)) = true)
    by (vm_compute; reflexivity).
  assert (Hsz : feq (pos_z (wrk_src wrk1)) (pos_z (centre room src_pos)) = true)
    by (vm_compute; reflexivity).
  assert (Hd : fne (wrk_d_max wrk1) (fmul maxTime_long c_ms) = true)
    by (vm_compute; reflexivity).
  split; [exact (conj Hrx (conj Hsx Hd))|].
  apply (coreInit_same_positions wrk1 room src_pos rec_pos maxTime_long c_ms
           Hrx Hry Hrz Hsx Hsy Hsz).
Defined.

Lemma coreInit_stored_order_witness :
  (indices_changed wrk0 room (fmul maxTime_s c_ms) = true
   ∧ 0 ≤ wrk_Nx wrk1 ≤ 4096 ∧ 0 ≤ wrk_Ny wrk1 ≤ 4096 ∧ 0 ≤ wrk_Nz wrk1 ≤ 4096)
  ∧ ec_order (wrk_hEchogram wrk1)
    = map (λ p, Int3 (if lattice_i (wrk_Nx wrk1) (Z.of_nat p) <? 0
                      then lattice_i (wrk_Nx wrk1) (Z.of_nat p) + 1
                      else lattice_i (wrk_Nx wrk1) (Z.of_nat p))
                     (if lattice_j (wrk_Nx wrk1) (wrk_Ny wrk1) (Z.of_nat p) <? 0
                      then lattice_j (wrk_Nx wrk1) (wrk_Ny wrk1) (Z.of_nat p) + 1
                      else lattice_j (wrk_Nx wrk1) (wrk_Ny wrk1) (Z.of_nat p))
                     (if lattice_k (wrk_Nx wrk1) (wrk_Ny wrk1) (wrk_Nz wrk1) (Z.of_nat p) <? 0
                      then lattice_k (wrk_Nx wrk1) (wrk_Ny wrk1) (wrk_Nz wrk1) (Z.of_nat p) + 1
                      else lattice_k (wrk_Nx wrk1) (wrk_Ny wrk1) (wrk_Nz wrk1) (Z.of_nat p)))
          (valid_points wrk1 room (centre room src_pos) (centre room rec_pos)
                        (fmul maxTime_s c_ms)).
Proof.
  assert (Hl : lattice_wf wrk0) by apply coreWorkspaceCreate_wf.
  assert (He : echogram_wf (wrk_hEchogram wrk0)) by apply coreWorkspaceCreate_wf.
  assert (Hch1 : indices_changed wrk0 room (fmul maxTime_s c_ms) = true)
    by (vm_compute; reflexivity).
  assert (Hch2 : echogram_changed (refresh_indices wrk0 room (fmul maxTime_s c_ms)) room
                   (centre room src_pos) (centre room rec_pos) = true)
    by (vm_compute; reflexivity).
  assert (Hx : 0 ≤ wrk_Nx wrk1 ≤ 4096)
    by (vm_compute; split; intros Hc; discriminate Hc).
  assert (Hy : 0 ≤ wrk_Ny wrk1 ≤ 4096)
    by (vm_compute; split; intros Hc; discriminate Hc).
  assert (Hz : 0 ≤ wrk_Nz wrk1 ≤ 4096)
    by (vm_compute; split; intros Hc; discriminate Hc).
  split; [exact (conj Hch1 (conj Hx (conj Hy Hz)))|].
  exact (coreInit_stored_order wrk0 room src_pos rec_pos maxTime_s c_ms
           Hl He Hch1 Hch2 Hx Hy Hz).
Defined.

Lemma wrk2_abs_wf :
  echogram_wf (wrk_hEchogram_rec wrk2)
  ∧ length (wrk_hEchogram_abs wrk2) = Z.to_nat (wrk_nBands wrk2)
  ∧ Forall echogram_wf (wrk_hEchogram_abs wrk2)
  ∧ length (wrk_rir_bands wrk2) = Z.to_nat (wrk_nBands wrk2).
Proof.
  split; [apply echogram_wfb_correct; vm_compute; reflexivity|].
  split; [vm_compute; reflexivity|].
  split; [|vm_compute; reflexivity].
  evaluate (wrk_hEchogram_abs wrk2).
  repeat first [apply Forall_nil_2
               |apply Forall_cons_2; [apply echogram_wfb_correct; reflexivity|]].
Qed.

Lemma wrk1_sorted (i : nat) :
  (S i < Z.to_nat (ec_numImageSources (wrk_hEchogram wrk1)))%nat →
  fle (at_int (ec_time (wrk_hEchogram wrk1)) (ec_sortedIdx (wrk_hEchogram wrk1) !!! i))
      (at_int (ec_time (wrk_hEchogram wrk1)) (ec_sortedIdx (wrk_hEchogram wrk1) !!! S i))
  = true.
Proof.
  evaluate (Z.to_nat (ec_numImageSources (wrk_hEchogram wrk1))). intros Hi.
  do 8 (destruct i as [|i]; [vm_compute; reflexivity|]). lia.
Qed.

Lemma coreRecModuleSH_sh_weights_witness :
  (echogram_wf (wrk_hEchogram wrk1) ∧ echogram_wf (wrk_hEchogram_rec wrk1) ∧ 1 ≠ 0)
  ∧ ec_nChannels (wrk_hEchogram_rec wrk1_sh) = 4
  ∧ ec_nChannels (wrk_hEchogram_rec wrk1_sh) = ORDER2NSH 1.
Proof.
  destruct wrk1_wf as [He Hr].
  assert (Hord : 1 ≠ 0) by lia.
  split; [exact (conj He (conj Hr Hord))|]. split; [vm_compute; reflexivity|].
  exact (proj1 (coreRecModuleSH_sh_weights wrk1 1 He Hr Hord)).
Defined.

Lemma coreRecModuleSH_raw (wrk : ims_core_workspace float32) sh_order :
  wrk_hEchogram (ims_shoebox_coreRecModuleSH wrk sh_order) = wrk_hEchogram wrk.
Proof. reflexivity. Qed.

Lemma coreRecModuleSH_overwrites_witness :
  (echogram_wf (wrk_hEchogram wrk1) ∧ echogram_wf (wrk_hEchogram_rec wrk1)
   ∧ echogram_wf (wrk_hEchogram_rec wrk2) ∧ wrk_hEchogram wrk2 = wrk_hEchogram wrk1)
  ∧ wrk_hEchogram_rec (ims_shoebox_coreRecModuleSH wrk2 1) = wrk_hEchogram_rec wrk1_sh.
Proof.
  destruct wrk1_wf as [He Hr].
  destruct wrk2_abs_wf as (Hr2 & _).
  pose proof (coreRecModuleSH_raw wrk1 0) as E.
  split; [exact (conj He (conj Hr (conj Hr2 E)))|].
  exact (proj1 (coreRecModuleSH_overwrites wrk1 wrk2 1 He Hr Hr2 E)).
Defined.

Lemma coreAbsorptionModule_band_witness :
  (echogram_wf (wrk_hEchogram_rec wrk2)
   ∧ length (wrk_hEchogram_abs wrk2) = Z.to_nat (wrk_nBands wrk2)
   ∧ Forall echogram_wf (wrk_hEchogram_abs wrk2)
   ∧ (1 < Z.to_nat (wrk_nBands wrk2))%nat)
  ∧ ec_time (wrk_hEchogram_abs wrk3 !!! 1%nat) = ec_time (wrk_hEchogram_rec wrk2).
Proof.
  destruct wrk2_abs_wf as (Hr & Hlen & Habs & _).
  assert (Hband : (1 < Z.to_nat (wrk_nBands wrk2))%nat) by (vm_compute; lia).
  split; [exact (conj Hr (conj Hlen (conj Habs Hband)))|].
  destruct (coreAbsorptionModule_band wrk2 abs_wall 1 Hr Hlen Habs Hband)
    as (_ & _ & Et & _).
  exact Et.
Defined.

Lemma axis_absorption_mirror_witness :
  (∀ a b : float32, fmul a b = fmul b a)
  ∧ axis_absorption (ratio 9 10) (ratio 8 10) (- 3)
    = axis_absorption (ratio 8 10) (ratio 9 10) 3.
Proof.
  split; [exact b32_mul_comm|].
  apply (axis_absorption_mirror (ratio 9 10) (ratio 8 10) 3 b32_mul_comm).
Defined.

Lemma coreAbsorptionModule_order0_witness :
  ((fdiv (of_int 0) (of_int 2) = of_int 0 :> float32)
   ∧ (∀ x : float32, powf x (of_int 0) = of_int 1)
   ∧ (fmul (of_int 1) (of_int 1) = of_int 1 :> float32)
   ∧ ec_order (wrk_hEchogram_rec wrk2) !!! 3%nat = Int3 0 0 0)
  ∧ band_absorption abs_wall 1 (ec_order (wrk_hEchogram_rec wrk2) !!! 3%nat) = of_int 1.
Proof.
  assert (Hhalf : fdiv (of_int 0) (of_int 2) = of_int 0 :> float32)
    by (vm_compute; reflexivity).
  assert (Hmul : fmul (of_int 1) (of_int 1) = of_int 1 :> float32)
    by (vm_compute; reflexivity).
  destruct wrk2_abs_wf as (Hr & Hlen & Habs & _).
  assert (Hband : (1 < Z.to_nat (wrk_nBands wrk2))%nat) by (vm_compute; lia).
  assert (Hi : (3 < Z.to_nat (ec_numImageSources (wrk_hEchogram_rec wrk2)))%nat)
    by (vm_compute; lia).
  assert (Hord : ec_order (wrk_hEchogram_rec wrk2) !!! 3%nat = Int3 0 0 0)
    by (vm_compute; reflexivity).
  split; [exact (conj Hhalf (conj b32_pow_zero (conj Hmul Hord)))|].
  exact (proj1 (coreAbsorptionModule_order0 Hhalf b32_pow_zero Hmul wrk2 abs_wall 1 3
                  Hr Hlen Habs Hband Hi Hord)).
Defined.

Lemma coreAbsorptionModule_overwrites_witness :
  (echogram_wf (wrk_hEchogram_rec wrk2)
   ∧ length (wrk_hEchogram_abs wrk2) = Z.to_nat (wrk_nBands wrk2)
   ∧ Forall echogram_wf (wrk_hEchogram_abs wrk2))
  ∧ ims_shoebox_coreAbsorptionModule (ims_shoebox_coreAbsorptionModule wrk2 abs_none) abs_wall
    = wrk3.
Proof.
  destruct wrk2_abs_wf as (Hr & Hlen & Habs & _).
  split; [exact (conj Hr (conj Hlen Habs))|].
  exact (coreAbsorptionModule_overwrites wrk2 abs_wall abs_none Hr Hlen Habs).
Defined.

Lemma recModule_then_absorption_witness :
  (echogram_wf (wrk_hEchogram wrk1) ∧ echogram_wf (wrk_hEchogram_rec wrk1)
   ∧ length (wrk_hEchogram_abs wrk1) = Z.to_nat (wrk_nBands wrk1)
   ∧ Forall echogram_wf (wrk_hEchogram_abs wrk1)
   ∧ (1 < Z.to_nat (wrk_nBands wrk1))%nat)
  ∧ ∀ i, (S i < Z.to_nat (ec_numImageSources (wrk_hEchogram wrk1)))%nat →
         fle (ec_time (wrk_hEchogram_abs wrk3 !!! 1%nat) !!! i)
             (ec_time (wrk_hEchogram_abs wrk3 !!! 1%nat) !!! S i) = true.
Proof.
  destruct wrk1_wf as [He Hr].
  assert (Hlen : length (wrk_hEchogram_abs wrk1) = Z.to_nat (wrk_nBands wrk1))
    by (vm_compute; reflexivity).
  assert (Habs : Forall echogram_wf (wrk_hEchogram_abs wrk1)).
  { evaluate (wrk_hEchogram_abs wrk1).
    repeat first [apply Forall_nil_2
                 |apply Forall_cons_2; [apply echogram_wfb_correct; reflexivity|]]. }
  assert (Hband : (1 < Z.to_nat (wrk_nBands wrk1))%nat) by (vm_compute; lia).
  split; [exact (conj He (conj Hr (conj Hlen (conj Habs Hband))))|].
  destruct (recModule_then_absorption wrk1 0 abs_wall 1 He Hr Hlen Habs Hband wrk1_sorted)
    as (_ & _ & _ & _ & _ & Hs).
  exact Hs.
Defined.

(** The arrival times of band 1 of the scenario. *)
Lemma wrk3_band1_times :
  proper fs ∧ fle (of_int 0) fs = true
  ∧ Forall proper (ec_time (wrk_hEchogram_abs wrk3 !!! 1%nat))
  ∧ Forall (λ t : float32, fle (of_int 0) t = true)
           (ec_time (wrk_hEchogram_abs wrk3 !!! 1%nat))
  ∧ (∀ k, (S k < length (ec_time (wrk_hEchogram_abs wrk3 !!! 1%nat)))%nat →
          fle (ec_time (wrk_hEchogram_abs wrk3 !!! 1%nat) !!! k)
              (ec_time (wrk_hEchogram_abs wrk3 !!! 1%nat) !!! S k) = true)
  ∧ Forall (λ t : float32, finite (fadd (fmul t fs) f_half))
           (ec_time (wrk_hEchogram_abs wrk3 !!! 1%nat)).
Proof.
  split; [apply properb_correct; vm_compute; reflexivity|].
  split; [vm_compute; reflexivity|].
  split; [apply (Forall_forallb _ properb); [exact properb_correct|];
          vm_compute; reflexivity|].
  split; [apply (Forall_forallb _ (λ t, fle (of_int 0) t)); [intros x Hx; exact Hx|];
          vm_compute; reflexivity|].
  split.
  - intros k.
    replace (length (ec_time (wrk_hEchogram_abs wrk3 !!! 1%nat))) with 9%nat
      by (vm_compute; reflexivity).
    intros Hk. do 8 (destruct k as [|k]; [vm_compute; reflexivity|]). lia.
  - apply (Forall_forallb _ (λ t, is_finite (fadd (fmul t fs) f_half)));
      [intros x Hx; exact Hx|].
    vm_compute; reflexivity.
Qed.

Lemma renderRIR_indices_ordered_witness :
  (proper fs ∧ fle (of_int 0) fs = true
   ∧ Forall proper (ec_time (wrk_hEchogram_abs wrk3 !!! 1%nat))
   ∧ Forall (λ t : float32, fle (of_int 0) t = true)
            (ec_time (wrk_hEchogram_abs wrk3 !!! 1%nat))
   ∧ Forall (λ t : float32, finite (fadd (fmul t fs) f_half))
            (ec_time (wrk_hEchogram_abs wrk3 !!! 1%nat))
   ∧ (0 ≤ 8)%nat ∧ (8 < length (ec_time (wrk_hEchogram_abs wrk3 !!! 1%nat)))%nat)
  ∧ refl_index (wrk_hEchogram_abs wrk3 !!! 1%nat) fs 0 = 523
  ∧ refl_index (wrk_hEchogram_abs wrk3 !!! 1%nat) fs 8 = 923
  ∧ 0 ≤ refl_index (wrk_hEchogram_abs wrk3 !!! 1%nat) fs 0
      ≤ refl_index (wrk_hEchogram_abs wrk3 !!! 1%nat) fs 8.
Proof.
  destruct wrk3_band1_times as (Hfsp & Hfs & Hprop & Hpos & Hmono & Hfin).
  assert (Hij : (0 ≤ 8)%nat) by lia.
  assert (Hj : (8 < length (ec_time (wrk_hEchogram_abs wrk3 !!! 1%nat)))%nat)
    by (vm_compute; lia).
  split; [exact (conj Hfsp (conj Hfs (conj Hprop (conj Hpos (conj Hfin (conj Hij Hj))))))|].
  split; [vm_compute; reflexivity|]. split; [vm_compute; reflexivity|].
  exact (renderRIR_indices_ordered (wrk_hEchogram_abs wrk3 !!! 1%nat) fs 0 8
           Hfsp Hfs Hprop Hpos Hmono Hfin Hij Hj).
Defined.

(** Band 1 of the scenario: every arrival falls inside the impulse train,
    and none on its first sample. *)
Lemma wrk3_band1_indices (i : nat) :
  (i < Z.to_nat (ec_numImageSources (wrk_hEchogram_abs wrk3 !!! 1%nat)))%nat →
  (0 ≤ refl_index (wrk_hEchogram_abs wrk3 !!! 1%nat) fs i
   < rir_length_of (wrk_hEchogram_abs wrk3 !!! 1%nat) fs)
  ∧ refl_index (wrk_hEchogram_abs wrk3 !!! 1%nat) fs i ≠ Z.of_nat 0.
Proof.
  evaluate (Z.to_nat (ec_numImageSources (wrk_hEchogram_abs wrk3 !!! 1%nat))).
  evaluate (rir_length_of (wrk_hEchogram_abs wrk3 !!! 1%nat) fs).
  intros Hi.
  do 9 (destruct i as [|i];
        [split; [vm_compute; split; [intros Hc; discriminate Hc|reflexivity]
                |vm_compute; intros Hc; discriminate Hc]|]).
  lia.
Qed.

Lemma wrk3_rir_len : length (wrk_rir_bands wrk3) = Z.to_nat (wrk_nBands wrk3).
Proof. vm_compute; reflexivity. Qed.

Lemma renderRIR_impulse_train_witness :
  (length (wrk_rir_bands wrk3) = Z.to_nat (wrk_nBands wrk3)
   ∧ (1 < Z.to_nat (wrk_nBands wrk3))%nat
   ∧ (0 < Z.to_nat (ec_nChannels (wrk_hEchogram_abs wrk3 !!! 1%nat)))%nat
   ∧ (923 < Z.to_nat (rir_length_of (wrk_hEchogram_abs wrk3 !!! 1%nat) fs))%nat)
  ∧ ((wrk_rir_bands wrk4 !!! 1%nat) !!! O) !!! 923%nat
    = accumulated (wrk_hEchogram_abs wrk3 !!! 1%nat) fs 0 (Z.of_nat 923)
        (Z.to_nat (ec_numImageSources (wrk_hEchogram_abs wrk3 !!! 1%nat)))
  ∧ ((wrk_rir_bands wrk4 !!! 1%nat) !!! O) !!! O = of_int 0.
Proof.
  pose proof wrk3_rir_len as Hlen.
  assert (Hband : (1 < Z.to_nat (wrk_nBands wrk3))%nat) by (vm_compute; lia).
  assert (Hj : (0 < Z.to_nat (ec_nChannels (wrk_hEchogram_abs wrk3 !!! 1%nat)))%nat)
    by (vm_compute; lia).
  assert (Hk : (923 < Z.to_nat (rir_length_of (wrk_hEchogram_abs wrk3 !!! 1%nat) fs))%nat)
    by (vm_compute; lia).
  assert (Hk0 : (0 < Z.to_nat (rir_length_of (wrk_hEchogram_abs wrk3 !!! 1%nat) fs))%nat)
    by (vm_compute; lia).
  split; [exact (conj Hlen (conj Hband (conj Hj Hk)))|].
  split.
  - exact (proj1 (renderRIR_impulse_train wrk3 fs H_filt rir0 1 0 923 Hlen Hband
                    (λ i Hi, proj1 (wrk3_band1_indices i Hi)) Hj Hk)).
  - exact (proj2 (renderRIR_impulse_train wrk3 fs H_filt rir0 1 0 0 Hlen Hband
                    (λ i Hi, proj1 (wrk3_band1_indices i Hi)) Hj Hk0)
                 (λ i Hi, proj2 (wrk3_band1_indices i Hi))).
Defined.

Lemma renderRIR_fractional_delay_witness :
  1 ≠ 0 ∧ fst (ims_shoebox_renderRIR wrk3 1 fs H_filt rir0) = wrk3.
Proof.
  assert (Hflag : 1 ≠ 0) by lia.
  split; [exact Hflag|].
  exact (renderRIR_fractional_delay wrk3 1 fs H_filt rir0 Hflag).
Defined.

Lemma wrk4_bands (band : nat) :
  (band < Z.to_nat (wrk_nBands wrk4))%nat →
  ec_nChannels (wrk_hEchogram_abs wrk4 !!! band)
  = ec_nChannels (wrk_hEchogram_abs wrk4 !!! O)
  ∧ length (wrk_rir_bands wrk4 !!! band)
    = Z.to_nat (ec_nChannels (wrk_hEchogram_abs wrk4 !!! O))
  ∧ Forall (λ row, length row = Z.to_nat (wrk_rir_len_samples wrk4))
           (wrk_rir_bands wrk4 !!! band).
Proof.
  evaluate (Z.to_nat (wrk_nBands wrk4)). intros Hb.
  do 2 (destruct band as [|band];
        [split; [vm_compute; reflexivity|];
         split; [vm_compute; reflexivity|];
         apply Forall_length_eqb; vm_compute; reflexivity|]).
  lia.
Qed.

Lemma renderRIR_output_witness :
  (0 ≤ ec_nChannels (wrk_hEchogram_abs wrk4 !!! O) ∧ 0 ≤ wrk_rir_len_samples wrk4)
  ∧ rir_nChannels (snd (ims_shoebox_renderRIR wrk3 0 fs H_filt rir0)) = 1
  ∧ rir_length (snd (ims_shoebox_renderRIR wrk3 0 fs H_filt rir0)) = 924
  ∧ length (rir_data (snd (ims_shoebox_renderRIR wrk3 0 fs H_filt rir0)))
    = (Z.to_nat (ec_nChannels (wrk_hEchogram_abs wrk4 !!! O))
       * Z.to_nat (wrk_rir_len_samples wrk4))%nat.
Proof.
  assert (HC : 0 ≤ ec_nChannels (wrk_hEchogram_abs wrk4 !!! O))
    by (vm_compute; intros Hc; discriminate Hc).
  assert (HL : 0 ≤ wrk_rir_len_samples wrk4)
    by (vm_compute; intros Hc; discriminate Hc).
  assert (Hrir : rir_nChannels rir0 = ec_nChannels (wrk_hEchogram_abs wrk4 !!! O) →
                 rir_length rir0 = wrk_rir_len_samples wrk4 →
                 length (rir_data rir0)
                 = (Z.to_nat (ec_nChannels (wrk_hEchogram_abs wrk4 !!! O))
                    * Z.to_nat (wrk_rir_len_samples wrk4))%nat).
  { intros E _. exfalso. revert E. vm_compute. intros E. discriminate E. }
  split; [exact (conj HC HL)|].
  split; [vm_compute; reflexivity|]. split; [vm_compute; reflexivity|].
  destruct (renderRIR_output wrk3 0 fs H_filt rir0 HC HL Hrir wrk4_bands)
    as (_ & _ & Hdata & _).
  exact Hdata.
Defined.

Lemma renderRIR_flushes_witness :
  (length (wrk_rir_bands wrk3) = Z.to_nat (wrk_nBands wrk3)
   ∧ length (wrk_rir_bands wrk4) = Z.to_nat (wrk_nBands wrk3)
   ∧ wrk_nBands wrk4 = wrk_nBands wrk3
   ∧ wrk_hEchogram_abs wrk4 = wrk_hEchogram_abs wrk3)
  ∧ wrk_rir_bands (fst (ims_shoebox_renderRIR wrk4 0 fs H_filt rir0))
    = wrk_rir_bands wrk4.
Proof.
  pose proof wrk3_rir_len as Hlen.
  assert (Hlen2 : length (wrk_rir_bands wrk4) = Z.to_nat (wrk_nBands wrk3))
    by (vm_compute; reflexivity).
  assert (En : wrk_nBands wrk4 = wrk_nBands wrk3) by (vm_compute; reflexivity).
  assert (Ea : wrk_hEchogram_abs wrk4 = wrk_hEchogram_abs wrk3)
    by (vm_compute; reflexivity).
  split; [exact (conj Hlen (conj Hlen2 (conj En Ea)))|].
  exact (proj1 (renderRIR_flushes wrk3 wrk4 fs H_filt H_filt rir0 rir0 Hlen Hlen2 En Ea)).
Defined.

Lemma absorption_then_render_witness :
  (echogram_wf (wrk_hEchogram_rec wrk2)
   ∧ length (wrk_hEchogram_abs wrk2) = Z.to_nat (wrk_nBands wrk2)
   ∧ Forall echogram_wf (wrk_hEchogram_abs wrk2)
   ∧ length (wrk_rir_bands wrk2) = Z.to_nat (wrk_nBands wrk2)
   ∧ (1 < Z.to_nat (wrk_nBands wrk2))%nat)
  ∧ wrk_rir_len_samples wrk4 = 924
  ∧ wrk_rir_len_samples wrk4 = rir_length_of (wrk_hEchogram_rec wrk2) fs.
Proof.
  destruct wrk2_abs_wf as (Hr & Hlen & Habs & Hrir).
  assert (Hband : (1 < Z.to_nat (wrk_nBands wrk2))%nat) by (vm_compute; lia).
  split; [exact (conj Hr (conj Hlen (conj Habs (conj Hrir Hband))))|].
  split; [vm_compute; reflexivity|].
  exact (proj1 (absorption_then_render wrk2 abs_wall fs H_filt rir0 1
                  Hr Hlen Habs Hrir Hband)).
Defined.

End Witnesses.

Section CodeEvaluation.
Import Binary32 Scenario.

#[local] Existing Instance float_inhabited.
#[local] Existing Instance pos_inhabited.
#[local] Existing Instance int3_inhabited.
#[local] Existing Instance echogram_inhabited.

(** C3 on the code: the room changes from 10 x 7 x 3 to 10 x 7 x 5 while
    the centred positions of source and receiver stay as cached.  The
    first conditional block sees the new room, rebuilds the lattice and
    stores the new room in the workspace; the second one then compares
    the room with itself, finds nothing changed and keeps the echogram
    of the old room, which differs from the one the formula gives. *)
Theorem coreInit_room_change_keeps_echogram :
  let d_max := fmul maxTime_s c_ms in
  let so := centre roomB srcB in
  let ro := centre roomB recB in
  wrk_room wrkA = roomA
  ∧ wrk_src wrkA = so ∧ wrk_rec wrkA = ro
  ∧ indices_changed wrkA roomB d_max = true
  ∧ echogram_changed (refresh_indices wrkA roomB d_max) roomB so ro = false
  ∧ wrk_room wrkB = roomB
  ∧ wrk_hEchogram wrkB = wrk_hEchogram wrkA
  ∧ wrk_numImageSources wrkB = 5
  ∧ length (valid_points wrkB roomB so ro d_max) = 3%nat
  ∧ ec_coords (wrk_hEchogram wrkB)
    ≠ map (λ i, Pos (image_x wrkB roomB so ro i) (image_y wrkB roomB so ro i)
                    (image_z wrkB roomB so ro i))
          (valid_points wrkB roomB so ro d_max).
Proof.
  cbv zeta.
  repeat (split; [vm_compute; reflexivity|]).
  intros E. apply (f_equal length) in E. rewrite length_map in E.
  assert (L1 : length (ec_coords (wrk_hEchogram wrkB)) = 5%nat) by (vm_compute; reflexivity).
  assert (L2 : length (valid_points wrkB roomB (centre roomB srcB) (centre roomB recB)
                                    (fmul maxTime_s c_ms)) = 3%nat)
    by (vm_compute; reflexivity).
  rewrite L1, L2 in E. discriminate E.
Qed.

(** C4 on the code: with a maximum distance of exactly 7 m and a room
    7 m wide, d_max / room[1] is 1 and so is its ceiling, but the bound
    the code computes is [(int)(1.0f + 1.0f)] = 2. *)
Theorem coreInit_bound_not_ceil :
  let d_max := fmul maxTime_s c_ms_350 in
  d_max = of_int 7
  ∧ indices_changed wrk0 room d_max = true
  ∧ fdiv d_max (of_int (int3_1 room)) = of_int 1
  ∧ to_int (ceilf (fdiv d_max (of_int (int3_1 room)))) = 1
  ∧ wrk_Ny wrk7 = 2
  ∧ wrk_Nx wrk7 = 1 ∧ wrk_Nz wrk7 = 3
  ∧ wrk_lengthVec wrk7 = 105.
Proof.
  cbv zeta. repeat (split; [vm_compute; reflexivity|]). vm_compute. reflexivity.
Qed.

End CodeEvaluation.
